(** * Luxery Prime Agency: validators, retry loop and GAS proxy route

    A shallow embedding of the parts of the repository the specification
    talks about:

    - [src/app/api/gas/route.ts]: the cached [CommissionValidator], the
      [FrontendErrorHandler] classifier and the [GET]/[POST] proxy handlers;
    - [src/services/commission-validator.js]: the un-cached validator;
    - [src/services/streamer-validator.js]: the level block of
      [validateStreamer];
    - [src/services/network-resilience.js]: [executeWithRetry];
    - the commission service and the Firestore service it calls.

    JavaScript values are modelled by an inductive type of primitives.  Finite
    numbers are exact rationals: the rounding error of binary64 arithmetic
    and the negative zero are outside the model.  What the JavaScript engine
    provides and the repository only calls (number formatting, string to
    number conversion, case mapping, trimming) is a parameter of the
    development, the class [Engine]; a reference instance is given for the
    worked examples. *)

From Stdlib Require Import ZArith QArith Qround Qminmax String Ascii List Bool Lia Lqa.
From stdpp Require Import base option list gmap strings pretty.

Local Open Scope string_scope.
Local Open Scope list_scope.

(** ** JavaScript primitives *)

Module Js.

(** A Number: NaN, the two infinities, or a finite value. *)
Inductive JsNumber : Type :=
| NaN
| NegInf
| PosInf
| Fin (q : Q).

(** The primitive values a JSON-decoded streamer field can hold. *)
Inductive JsValue : Type :=
| JUndefined
| JNull
| JBool (b : bool)
| JNum (n : JsNumber)
| JStr (s : string).

Inductive JsType : Type :=
| TUndefined | TObject | TBoolean | TNumber | TString.

(** [typeof v]; [typeof null] is ["object"]. *)
Definition typeof (v : JsValue) : JsType :=
  match v with
  | JUndefined => TUndefined
  | JNull => TObject
  | JBool _ => TBoolean
  | JNum _ => TNumber
  | JStr _ => TString
  end.

(** [typeof v === t] and [typeof v !== t]. *)
Definition typeof_is (v : JsValue) (t : JsType) : bool :=
  match typeof v, t with
  | TUndefined, TUndefined | TObject, TObject | TBoolean, TBoolean
  | TNumber, TNumber | TString, TString => true
  | _, _ => false
  end.

Definition Qlt_bool (x y : Q) : bool := negb (Qle_bool y x).

Definition num_of_Z (z : Z) : JsNumber := Fin (inject_Z z).

(** [isNaN] on a Number. *)
Definition num_isNaN (n : JsNumber) : bool :=
  match n with NaN => true | _ => false end.

(** [a < b] on Numbers: false as soon as one side is NaN. *)
Definition num_lt (a b : JsNumber) : bool :=
  match a, b with
  | NaN, _ | _, NaN => false
  | Fin x, Fin y => Qlt_bool x y
  | NegInf, NegInf => false
  | NegInf, _ => true
  | _, NegInf => false
  | PosInf, _ => false
  | Fin _, PosInf => true
  end.

Definition num_gt (a b : JsNumber) : bool := num_lt b a.

(** [a >= b]: false with a NaN, otherwise the negation of [a < b]. *)
Definition num_ge (a b : JsNumber) : bool :=
  match a, b with
  | NaN, _ | _, NaN => false
  | _, _ => negb (num_lt a b)
  end.

(** Numeric equality as [===] sees it on two Numbers. *)
Definition num_eq (a b : JsNumber) : bool :=
  match a, b with
  | Fin x, Fin y => Qeq_bool x y
  | NegInf, NegInf => true
  | PosInf, PosInf => true
  | _, _ => false
  end.

(** Sign of a Number that is not NaN. *)
Definition num_sign (n : JsNumber) : comparison :=
  match n with
  | NaN => Eq
  | NegInf => Lt
  | PosInf => Gt
  | Fin q => (q ?= 0)%Q
  end.

Definition inf_of_sign (c : comparison) : JsNumber :=
  match c with
  | Eq => NaN
  | Lt => NegInf
  | Gt => PosInf
  end.

Definition sign_mul (a b : comparison) : comparison :=
  match a, b with
  | Eq, _ | _, Eq => Eq
  | Lt, Lt | Gt, Gt => Gt
  | _, _ => Lt
  end.

(** [a * b]. *)
Definition num_mul (a b : JsNumber) : JsNumber :=
  match a, b with
  | NaN, _ | _, NaN => NaN
  | Fin x, Fin y => Fin (x * y)
  | _, _ => inf_of_sign (sign_mul (num_sign a) (num_sign b))
  end.

(** [a / b]. *)
Definition num_div (a b : JsNumber) : JsNumber :=
  match a, b with
  | NaN, _ | _, NaN => NaN
  | Fin x, Fin y =>
      if Qeq_bool y 0 then inf_of_sign (num_sign a) else Fin (x / y)
  | Fin _, _ => Fin 0
  | _, Fin y =>
      if Qeq_bool y 0 then a else inf_of_sign (sign_mul (num_sign a) (num_sign b))
  | _, _ => NaN
  end.

(** [a - b]. *)
Definition num_sub (a b : JsNumber) : JsNumber :=
  match a, b with
  | NaN, _ | _, NaN => NaN
  | Fin x, Fin y => Fin (x - y)
  | Fin _, PosInf => NegInf
  | Fin _, NegInf => PosInf
  | PosInf, PosInf | NegInf, NegInf => NaN
  | _, _ => a
  end.

(** [a + b] on Numbers. *)
Definition num_add (a b : JsNumber) : JsNumber :=
  match a, b with
  | NaN, _ | _, NaN => NaN
  | Fin x, Fin y => Fin (x + y)
  | PosInf, NegInf | NegInf, PosInf => NaN
  | Fin _, _ => b
  | _, _ => a
  end.

(** [Math.round]: the nearest integer, ties towards plus infinity. *)
Definition Math_round (n : JsNumber) : JsNumber :=
  match n with
  | Fin q => num_of_Z (Qfloor (q + (1 # 2)))
  | _ => n
  end.

(** ToBoolean. *)
Definition truthy (v : JsValue) : bool :=
  match v with
  | JUndefined | JNull => false
  | JBool b => b
  | JNum NaN => false
  | JNum (Fin q) => negb (Qeq_bool q 0)
  | JNum _ => true
  | JStr s => negb (String.eqb s "")
  end.

(** [a === b]. *)
Definition strict_eq (a b : JsValue) : bool :=
  match a, b with
  | JUndefined, JUndefined => true
  | JNull, JNull => true
  | JBool x, JBool y => Bool.eqb x y
  | JNum x, JNum y => num_eq x y
  | JStr x, JStr y => String.eqb x y
  | _, _ => false
  end.

(** SameValueZero, the comparison of [Array.prototype.includes]. *)
Definition same_value_zero (a b : JsValue) : bool :=
  match a, b with
  | JNum NaN, JNum NaN => true
  | _, _ => strict_eq a b
  end.

Definition array_includes (xs : list JsValue) (v : JsValue) : bool :=
  existsb (fun x => same_value_zero x v) xs.

(** [String.prototype.includes]. *)
Fixpoint str_includes (s needle : string) : bool :=
  String.prefix needle s ||
  match s with
  | EmptyString => false
  | String _ s' => str_includes s' needle
  end.

(** [s.substring(n)]. *)
Fixpoint str_drop (n : nat) (s : string) : string :=
  match n, s with
  | O, _ => s
  | S n', String _ s' => str_drop n' s'
  | S _, EmptyString => EmptyString
  end.

(** [s.replace(pattern, replacement)] for a string pattern and a
    replacement without [$]: the first occurrence of the pattern, if there
    is one, is replaced. *)
Fixpoint str_replace (s pattern replacement : string) : string :=
  if String.prefix pattern s
  then replacement +:+ str_drop (String.length pattern) s
  else
    match s with
    | EmptyString => EmptyString
    | String c s' => String c (str_replace s' pattern replacement)
    end.

(** [Array.prototype.join] on strings. *)
Definition join (sep : string) (xs : list string) : string :=
  String.concat sep xs.

(** What the engine provides. *)
Class Engine : Type := {
  (** Number::toString, radix 10 *)
  NumberToString : JsNumber -> string;
  (** StringToNumber, the conversion applied by [<], [>=] and [*] *)
  StringToNumber : string -> JsNumber;
  (** [String.prototype.toLowerCase] *)
  toLowerCase : string -> string;
  (** [String.prototype.trim] *)
  trim : string -> string
}.

Section Coercions.
Context {E : Engine}.

(** ToNumber on primitives. *)
Definition ToNumber (v : JsValue) : JsNumber :=
  match v with
  | JUndefined => NaN
  | JNull => Fin 0
  | JBool true => Fin 1
  | JBool false => Fin 0
  | JNum n => n
  | JStr s => StringToNumber s
  end.

(** ToString on primitives, as a template literal applies it. *)
Definition ToString (v : JsValue) : string :=
  match v with
  | JUndefined => "undefined"
  | JNull => "null"
  | JBool true => "true"
  | JBool false => "false"
  | JNum n => NumberToString n
  | JStr s => s
  end.

(** [v < k], [v > k] and [v >= k] against a Number literal [k]: the
    left operand goes through ToNumber. *)
Definition lt_lit (v : JsValue) (k : Z) : bool := num_lt (ToNumber v) (num_of_Z k).
Definition gt_lit (v : JsValue) (k : Z) : bool := num_gt (ToNumber v) (num_of_Z k).
Definition ge_lit (v : JsValue) (k : Z) : bool := num_ge (ToNumber v) (num_of_Z k).
End Coercions.

(** *** A reference engine for the worked examples

    Exact on integers and on short decimal literals, restricted to ASCII
    for case mapping and trimming. *)

Definition is_ascii_space (c : ascii) : bool :=
  let n := nat_of_ascii c in
  ((9 <=? n)%nat && (n <=? 13)%nat) || (n =? 32)%nat.

Fixpoint trim_left (s : string) : string :=
  match s with
  | String c s' => if is_ascii_space c then trim_left s' else s
  | EmptyString => EmptyString
  end.

Fixpoint trim_right (s : string) : string :=
  match s with
  | EmptyString => EmptyString
  | String c s' =>
      match trim_right s' with
      | EmptyString => if is_ascii_space c then EmptyString else String c EmptyString
      | t => String c t
      end
  end.

Definition ref_trim (s : string) : string := trim_right (trim_left s).

Definition lower_ascii (c : ascii) : ascii :=
  let n := nat_of_ascii c in
  if ((65 <=? n)%nat && (n <=? 90)%nat) then ascii_of_nat (n + 32) else c.

Fixpoint ref_toLowerCase (s : string) : string :=
  match s with
  | EmptyString => EmptyString
  | String c s' => String (lower_ascii c) (ref_toLowerCase s')
  end.

Fixpoint frac_digits (fuel : nat) (num den : Z) : string :=
  match fuel with
  | O => ""
  | S f =>
      if (num =? 0)%Z then ""
      else pretty ((num * 10) / den)%Z +:+ frac_digits f ((num * 10) mod den)%Z den
  end.

Definition ref_NumberToString (n : JsNumber) : string :=
  match n with
  | NaN => "NaN"
  | PosInf => "Infinity"
  | NegInf => "-Infinity"
  | Fin q =>
      let r := Qred q in
      let d := Zpos (Qden r) in
      let a := Z.abs (Qnum r) in
      let sign := if (Qnum r <? 0)%Z then "-" else "" in
      if (d =? 1)%Z then sign +:+ pretty a
      else sign +:+ pretty (a / d)%Z +:+ "." +:+ frac_digits 17 (a mod d)%Z d
  end.

Definition digit_val (c : ascii) : option Z :=
  let n := nat_of_ascii c in
  if ((48 <=? n)%nat && (n <=? 57)%nat) then Some (Z.of_nat (n - 48)) else None.

(** Value of a run of decimal digits, scaled: [(value, 10 ^ length)]. *)
Fixpoint digits_val (s : string) (acc : Z) (scale : Z) : option (Z * Z) :=
  match s with
  | EmptyString => Some (acc, scale)
  | String c s' =>
      match digit_val c with
      | Some d => digits_val s' (acc * 10 + d)%Z (scale * 10)%Z
      | None => None
      end
  end.

(** Cut a string at the first occurrence of a character. *)
Fixpoint split_first (sep : ascii) (s : string) : string * option string :=
  match s with
  | EmptyString => (EmptyString, None)
  | String c s' =>
      if Ascii.eqb c sep then (EmptyString, Some s')
      else let '(a, b) := split_first sep s' in (String c a, b)
  end.

Definition unsigned_decimal (s : string) : JsNumber :=
  let '(ip, fp) := split_first "."%char s in
  let fp' := default EmptyString fp in
  if String.eqb ip "" && String.eqb fp' "" then NaN
  else
    match digits_val ip 0 1, digits_val fp' 0 1 with
    | Some (i, _), Some (f, sc) => Fin (inject_Z i + inject_Z f / inject_Z sc)
    | _, _ => NaN
    end.

Definition ref_StringToNumber (s : string) : JsNumber :=
  match ref_trim s with
  | EmptyString => Fin 0
  | String c rest as t =>
      if Ascii.eqb c "-"%char then num_mul (Fin (-1)) (unsigned_decimal rest)
      else if Ascii.eqb c "+"%char then unsigned_decimal rest
      else unsigned_decimal t
  end.

Definition reference_engine : Engine := {|
  NumberToString := ref_NumberToString;
  StringToNumber := ref_StringToNumber;
  toLowerCase := ref_toLowerCase;
  trim := ref_trim
|}.

End Js.

Import Js.

(** ** Exceptions *)

(** A thrown [Error]: its name and its message ([None] when the object
    carries no message). *)
Record JsError : Type := mkError {
  e_name : string;
  e_message : option string
}.

(** [new Error(msg)]. *)
Definition new_Error (msg : string) : JsError := mkError "Error" (Some msg).

(** [new TypeError(msg)], raised by the engine itself. *)
Definition new_TypeError (msg : string) : JsError := mkError "TypeError" (Some msg).

(** Outcome of an expression that may throw (an awaited promise: resolved
    or rejected). *)
Inductive Exc (A : Type) : Type :=
| Ok (a : A)
| Throw (e : JsError).

Arguments Ok {A} a.
Arguments Throw {A} e.

#[global] Instance exc_ret : MRet Exc := fun A a => Ok a.

#[global] Instance exc_bind : MBind Exc := fun A B k m =>
  match m with
  | Ok a => k a
  | Throw e => Throw e
  end.

(** [try { m } catch (e) { h e }] for a handler that does not throw. *)
Definition try_catch {A : Type} (m : Exc A) (h : JsError -> A) : A :=
  match m with
  | Ok a => a
  | Throw e => h e
  end.

(** ** Data model shared by the validators *)

(** The properties of a streamer object the validators read.  A missing
    property is [JUndefined]. *)
Record StreamerData : Type := mkStreamer {
  sd_id : JsValue;
  sd_level : JsValue;
  sd_earnings : JsValue;
  sd_country : JsValue
}.

Definition set_level (sd : StreamerData) (l : JsValue) : StreamerData :=
  mkStreamer (sd_id sd) l (sd_earnings sd) (sd_country sd).

Definition set_country (sd : StreamerData) (c : JsValue) : StreamerData :=
  mkStreamer (sd_id sd) (sd_level sd) (sd_earnings sd) c.

(** [{ isValid, errors, warnings, correctedData }]. *)
Record ValidationResult : Type := mkValidation {
  isValid : bool;
  errors : list string;
  warnings : list string;
  correctedData : StreamerData
}.

(** [errors.length === 0]. *)
Definition no_errors (errs : list string) : bool := (length errs =? 0)%nat.

(** [this.validLevels = [1, 2, 3, 4, 5]]. *)
Definition validLevels : list JsValue :=
  [JNum (Fin 1); JNum (Fin 2); JNum (Fin 3); JNum (Fin 4); JNum (Fin 5)].

(** Property lookup [table[key]] in an object whose keys are ["1"] to ["5"]:
    the key is ToString of [key], and among the primitives exactly the
    Numbers 1 to 5 and the strings ["1"] to ["5"] print as such. *)
Definition level_lookup (r1 r2 r3 r4 r5 : Q) (key : JsValue) : JsValue :=
  match key with
  | JNum (Fin q) =>
      if Qeq_bool q 1 then JNum (Fin r1)
      else if Qeq_bool q 2 then JNum (Fin r2)
      else if Qeq_bool q 3 then JNum (Fin r3)
      else if Qeq_bool q 4 then JNum (Fin r4)
      else if Qeq_bool q 5 then JNum (Fin r5)
      else JUndefined
  | JStr s =>
      if String.eqb s "1" then JNum (Fin r1)
      else if String.eqb s "2" then JNum (Fin r2)
      else if String.eqb s "3" then JNum (Fin r3)
      else if String.eqb s "4" then JNum (Fin r4)
      else if String.eqb s "5" then JNum (Fin r5)
      else JUndefined
  | _ => JUndefined
  end.

(** [levelMultipliers = {1: 0.05, 2: 0.10, 3: 0.15, 4: 0.20, 5: 0.25}],
    the same table in route.ts and in commission-validator.js. *)
Definition levelMultipliers : JsValue -> JsValue :=
  level_lookup 0.05 0.10 0.15 0.20 0.25.

(** A level as the data model wants it: one of the integers 1 to 5. *)
Definition level_in_range (v : JsValue) : Prop :=
  exists q : Q, v = JNum (Fin q) /\
    exists n : Z, (1 <= n <= 5)%Z /\ q == inject_Z n.

Section Validators.
Context {E : Engine}.

(** [suggestLevelByEarnings], identical in both commission validators. *)
Definition suggestLevelByEarnings (earnings : JsValue) : JsValue :=
  if ge_lit earnings 10000 then JNum (Fin 5)
  else if ge_lit earnings 5000 then JNum (Fin 4)
  else if ge_lit earnings 2000 then JNum (Fin 3)
  else if ge_lit earnings 500 then JNum (Fin 2)
  else JNum (Fin 1).

End Validators.

(** ** src/app/api/gas/route.ts *)

Module Route.

Definition GAS_API_URL : string :=
  "https://script.google.com/macros/s/AKfycbxOkgC_boHTVaAFAQQucJ-mXqRoeKMiPwN0W73wxSwLBU6xoi2-vWoc6KAGknS94HmR/exec".

(** *** class CommissionValidator *)

(** An entry of [validationCache]: [{ result, timestamp }]. *)
Record CacheEntry : Type := mkEntry {
  ce_result : ValidationResult;
  ce_timestamp : Z
}.

(** [cacheExpiry = 5 * 60 * 1000]. *)
Definition cacheExpiry : Z := 5 * 60 * 1000.

Definition ID_ERROR : string :=
  "ID de streamer es requerido y debe ser string válido".
Definition EARNINGS_NOT_NUMBER : string := "Earnings debe ser un número válido".
Definition EARNINGS_NEGATIVE : string := "Earnings debe ser un número positivo".
Definition EARNINGS_TOO_LARGE : string :=
  "Earnings excede el límite máximo permitido".

(** A character of the class [[a-zA-Z0-9_-]]. *)
Definition id_char (c : ascii) : bool :=
  let n := nat_of_ascii c in
  (((97 <=? n) && (n <=? 122)) || ((65 <=? n) && (n <=? 90)) ||
   ((48 <=? n) && (n <=? 57)) || (n =? 95) || (n =? 45))%nat.

Fixpoint all_chars (p : ascii -> bool) (s : string) : bool :=
  match s with
  | EmptyString => true
  | String c s' => p c && all_chars p s'
  end.

(** [/^[a-zA-Z0-9_-]+$/.test(s)]. *)
Definition id_regex_test (s : string) : bool :=
  negb (String.eqb s "") && all_chars id_char s.

(** The result of [validateEarnings]: [{ isValid, errors }]. *)
Record EarningsValidation : Type := mkEarnings {
  ev_isValid : bool;
  ev_errors : list string
}.

(** The JSON object [calculateCommission] answers with. *)
Inductive CommissionResponse : Type :=
| CommissionSuccess (commission : JsNumber) (level multiplier baseEarnings : JsValue)
    (warnings : list string) (timestamp : Z)
| CommissionError (error : string) (errors : list string) (commission : JsNumber)
    (timestamp : Z).

Section CommissionValidator.
Context {E : Engine}.

(** [`validation_${streamerData.id}_${streamerData.earnings}`]. *)
Definition cacheKey (sd : StreamerData) : string :=
  "validation_" +:+ ToString (sd_id sd) +:+ "_" +:+ ToString (sd_earnings sd).

(** [typeof id === 'string' && id.trim().length > 0 && regex.test(id)]. *)
Definition isValidId (id : JsValue) : bool :=
  match id with
  | JStr s => (0 <? String.length (trim s))%nat && id_regex_test s
  | _ => false
  end.

(** [if (level && this.validLevels.includes(level)) return level;
     return this.suggestLevelByEarnings(earnings)]. *)
Definition validateAndCorrectLevel (level earnings : JsValue) : JsValue :=
  if truthy level && array_includes validLevels level then level
  else suggestLevelByEarnings earnings.

Definition validateEarnings (earnings : JsValue) : EarningsValidation :=
  let errs :=
    match earnings with
    | JNum n =>
        if num_isNaN n then [EARNINGS_NOT_NUMBER]
        else if num_lt n (Fin 0) then [EARNINGS_NEGATIVE]
        else if num_gt n (Fin 1000000) then [EARNINGS_TOO_LARGE]
        else []
    | _ => [EARNINGS_NOT_NUMBER]
    end in
  mkEarnings (no_errors errs) errs.

(** The body of [validateStreamerData] after the cache lookup. *)
Definition validate_uncached (sd : StreamerData) : ValidationResult :=
  let errs1 := if isValidId (sd_id sd) then [] else [ID_ERROR] in
  let level := validateAndCorrectLevel (sd_level sd) (sd_earnings sd) in
  let corrected := negb (strict_eq level (sd_level sd)) in
  let warns :=
    if corrected
    then ["Nivel corregido: " +:+ ToString (sd_level sd) +:+ " → " +:+ ToString level]
    else [] in
  (* streamerData.level = level, when corrected *)
  let sd' := if corrected then set_level sd level else sd in
  let ev := validateEarnings (sd_earnings sd') in
  let errs := errs1 ++ (if ev_isValid ev then [] else ev_errors ev) in
  mkValidation (no_errors errs) errs warns (set_level sd' level).

(** [validateStreamerData], on the validator whose cache is [cache].
    [now] is what [Date.now()] returns at the expiry test and [now'] what it
    returns when the result is stored.  The result comes with the cache the
    call leaves behind. *)
Definition validateStreamerData (cache : gmap string CacheEntry) (now now' : Z)
    (sd : StreamerData) : ValidationResult * gmap string CacheEntry :=
  let key := cacheKey sd in
  match cache !! key with
  | Some cached =>
      if (now - ce_timestamp cached <? cacheExpiry)%Z
      then (ce_result cached, cache)
      else let r := validate_uncached sd in (r, <[key := mkEntry r now']> cache)
  | None =>
      let r := validate_uncached sd in (r, <[key := mkEntry r now']> cache)
  end.

(** Whether a call is answered from the cache: an entry under the key
    whose age is below the expiry. *)
Definition served_from_cache (cache : gmap string CacheEntry) (now : Z)
    (sd : StreamerData) : bool :=
  match cache !! cacheKey sd with
  | Some cached => (now - ce_timestamp cached <? cacheExpiry)%Z
  | None => false
  end.

(** [Math.round(earnings * multiplier * 100) / 100]. *)
Definition calculateCommissionAmount (earnings multiplier : JsNumber) : JsNumber :=
  num_div (Math_round (num_mul (num_mul earnings multiplier) (Fin 100))) (Fin 100).

Definition createErrorResponse (errs : list string) (ts : Z) : CommissionResponse :=
  CommissionError (join ", " errs) errs (Fin 0) ts.

(** [calculateCommission]; [ts] is the clock reading of the response's
    timestamp.  Nothing in the [try] block throws on a [StreamerData]. *)
Definition calculateCommission (cache : gmap string CacheEntry) (now now' ts : Z)
    (sd : StreamerData) : CommissionResponse * gmap string CacheEntry :=
  let '(validation, cache') := validateStreamerData cache now now' sd in
  if negb (isValid validation) then (createErrorResponse (errors validation) ts, cache')
  else
    let data := correctedData validation in
    let multiplier := levelMultipliers (sd_level data) in
    let commission :=
      calculateCommissionAmount (ToNumber (sd_earnings data)) (ToNumber multiplier) in
    (CommissionSuccess commission (sd_level data) multiplier (sd_earnings data)
       (warnings validation) ts, cache').

(** [clearExpiredCache]: entries older than the expiry are deleted. *)
Definition clearExpiredCache (cache : gmap string CacheEntry) (now : Z)
    : gmap string CacheEntry :=
  filter (fun kv => negb (cacheExpiry <? now - ce_timestamp (snd kv))%Z = true) cache.

(** The caches a validator can hold: it starts empty and only
    [validateStreamerData] and [clearExpiredCache] write to it. *)
Inductive reachable : gmap string CacheEntry -> Prop :=
| reach_new : reachable ∅
| reach_validate cache now now' sd :
    reachable cache -> reachable (snd (validateStreamerData cache now now' sd))
| reach_clear cache now :
    reachable cache -> reachable (clearExpiredCache cache now).

End CommissionValidator.

(** *** class FrontendErrorHandler *)

Inductive ErrorType : Type :=
| NETWORK_ERROR
| API_ERROR
| VALIDATION_ERROR
| AUTH_ERROR
| UNKNOWN_ERROR.

(** What [handleError] returns: [{ handled: true, errorType, errorInfo }],
    of which the handlers read the type and [errorInfo.id]. *)
Record HandledError : Type := mkHandled {
  he_errorType : ErrorType;
  he_id : string;
  he_message : option string
}.

Section FrontendErrorHandler.
Context {E : Engine}.

(** [const message = error.message?.toLowerCase() || '']. *)
Definition lowered_message (error : JsError) : string :=
  match e_message error with
  | Some m => toLowerCase m
  | None => ""
  end.

Definition classifyError (error : JsError) : ErrorType :=
  let message := lowered_message error in
  if str_includes message "network" || str_includes message "connection"
     || str_includes message "timeout" then NETWORK_ERROR
  else if str_includes message "api" || str_includes message "http"
     || str_includes message "500" || str_includes message "404" then API_ERROR
  else if str_includes message "validation" || str_includes message "invalid"
  then VALIDATION_ERROR
  else if str_includes message "auth" || str_includes message "unauthorized"
  then AUTH_ERROR
  else UNKNOWN_ERROR.

(** [handleError]; [now] and [rnd] are the clock reading and the random
    suffix of the error id.  The push on [errorHistory] is not modelled. *)
Definition handleError (now : Z) (rnd : string) (error : JsError) : HandledError :=
  mkHandled (classifyError error) ("ERR_" +:+ pretty now +:+ "_" +:+ rnd)
    (e_message error).

End FrontendErrorHandler.

(** *** The GET and POST handlers *)

(** A JSON document. *)
#[local] Unset Elimination Schemes.
Inductive Json : Type :=
| JsonNull
| JsonBool (b : bool)
| JsonNumber (n : Q)
| JsonString (s : string)
| JsonArray (xs : list Json)
| JsonObject (fields : list (string * Json)).
#[local] Set Elimination Schemes.

(** The incoming request: the decoded name/value pairs of its query
    string, in order, and what [request.json()] settles to. *)
Record Request : Type := mkRequest {
  req_query : list (string * string);
  req_json : Exc Json
}.

(** The arguments of an outgoing [fetch]. *)
Record FetchCall : Type := mkFetch {
  f_url : string;
  f_method : string;
  f_body : option Json
}.

(** What [fetch] resolves to: [ok], [status] and the outcome of [json()]. *)
Record FetchResponse : Type := mkFetchResponse {
  fr_ok : bool;
  fr_status : Z;
  fr_json : Exc Json
}.

(** The body handed to [NextResponse.json]. *)
Record ResponseBody : Type := mkBody {
  success : bool;
  data : option Json;
  error : option string;
  errorId : option string;
  errorType : option ErrorType;
  timestamp : Z;
  responseTime : option Z
}.

Record Response : Type := mkResponse {
  status : Z;
  body : ResponseBody
}.

(** Everything a handler calls outside this file.  The cache and the
    network optimiser are taken with an arbitrary behaviour: they receive
    the thunk to run and settle to a value or to a thrown error. *)
Record Env : Type := mkEnv {
  fetch : FetchCall -> Exc FetchResponse;
  intelligentCache_get : string -> (unit -> Exc Json) -> string -> Exc Json;
  executeWithOptimization : (unit -> Exc Json) -> Exc Json;
  (** successive readings of the clock during the request *)
  clock : nat -> Z;
  (** [Math.random().toString(36).substr(2, 9)] *)
  random_suffix : string
}.

(** [searchParams.get(name)]: the first value under [name], if any. *)
Fixpoint searchParams_get (q : list (string * string)) (name : string) : option string :=
  match q with
  | [] => None
  | (k, v) :: q' => if String.eqb k name then Some v else searchParams_get q' name
  end.

(** [searchParams.get('action') || dflt]. *)
Definition action_or (q : list (string * string)) (dflt : string) : string :=
  match searchParams_get q "action" with
  | Some a => if String.eqb a "" then dflt else a
  | None => dflt
  end.

(** [`${GAS_API_URL}?action=${action}`]. *)
Definition gas_url (action : string) : string :=
  GAS_API_URL +:+ "?action=" +:+ action.

(** [if (!response.ok) throw new Error(...); return await response.json()]. *)
Definition read_json (response : FetchResponse) : Exc Json :=
  if negb (fr_ok response)
  then Throw (new_Error ("HTTP error! status: " +:+ pretty (fr_status response)))
  else fr_json response.

Definition GET_fetch_call (request : Request) : FetchCall :=
  mkFetch (gas_url (action_or (req_query request) "health")) "GET" None.

Definition POST_fetch_call (request : Request) (body : Json) : FetchCall :=
  mkFetch (gas_url (action_or (req_query request) "updateStreamer")) "POST" (Some body).

Section Handlers.
Context {E : Engine}.

(** The fetcher passed to the cache: the optimiser wrapped around the
    fetch. *)
Definition GET_fetcher (env : Env) (request : Request) (_ : unit) : Exc Json :=
  executeWithOptimization env (fun _ =>
    response ← fetch env (GET_fetch_call request);
    read_json response).

(** The [try] block of [GET]. *)
Definition GET_try (env : Env) (request : Request) : Exc Response :=
  let startTime := clock env 0 in
  let action := action_or (req_query request) "health" in
  cachedData ← intelligentCache_get env ("gas_api:" +:+ action)
                 (GET_fetcher env request) "api";
  let responseTime := (clock env 1 - startTime)%Z in
  mret (mkResponse 200
          (mkBody true (Some cachedData) None None None (clock env 2)
             (Some responseTime))).

(** The [catch] block of [GET]. *)
Definition GET_catch (env : Env) (error : JsError) : Response :=
  let errorResult := handleError (clock env 1) (random_suffix env) error in
  mkResponse 500
    (mkBody false None (e_message error) (Some (he_id errorResult))
       (Some (he_errorType errorResult)) (clock env 2) None).

Definition GET (env : Env) (request : Request) : Response :=
  try_catch (GET_try env request) (GET_catch env).

(** The [try] block of [POST]. *)
Definition POST_try (env : Env) (request : Request) : Exc Response :=
  body ← req_json request;
  response ← fetch env (POST_fetch_call request body);
  data ← read_json response;
  mret (mkResponse 200 (mkBody true (Some data) None None None (clock env 0) None)).

(** The [catch] block of [POST]. *)
Definition POST_catch (env : Env) (error : JsError) : Response :=
  mkResponse 500 (mkBody false None (e_message error) None None (clock env 0) None).

Definition POST (env : Env) (request : Request) : Response :=
  try_catch (POST_try env request) (POST_catch env).

End Handlers.

(** The query parameters written on a URL: the text after the first [?],
    cut at every [&] and then at the first [=] (no percent-decoding). *)
Fixpoint split_all_aux (sep : ascii) (s : string) (cur : string) : list string :=
  match s with
  | EmptyString => [cur]
  | String c s' =>
      if Ascii.eqb c sep then cur :: split_all_aux sep s' EmptyString
      else split_all_aux sep s' (cur +:+ String c EmptyString)
  end.

Definition split_all (sep : ascii) (s : string) : list string :=
  split_all_aux sep s EmptyString.

Definition parse_pair (s : string) : string * string :=
  let '(k, v) := split_first "="%char s in (k, default EmptyString v).

Definition url_searchParams (url : string) : list (string * string) :=
  match snd (split_first "?"%char url) with
  | None => []
  | Some q => map parse_pair (split_all "&"%char q)
  end.

(** *** class FrontendLogger

    The values kept in a context object are of a type [V] of their own, into
    which the logger writes the strings and numbers it adds itself. *)

(** [array.slice(-n)]: the last [n] elements, all of them when there are
    fewer. *)
Definition slice_last {A : Type} (n : nat) (l : list A) : list A :=
  drop (length l - n) l.

Section FrontendLogger.
Context {E : Engine} {V : Type}.
Variable inject : JsValue -> V.

(** [{ timestamp, level, message, context, id }]. *)
Record LogEntry : Type := mkLogEntry {
  log_timestamp : Z;
  log_level : string;
  log_message : string;
  log_context : gmap string V;
  log_id : string
}.

(** [this.logs] and [this.analytics]. *)
Record Logger : Type := mkLogger {
  logs : list LogEntry;
  errorCount : nat;
  warningCount : nat;
  infoCount : nat;
  apiCount : nat;
  totalResponseTime : JsNumber;
  requestCount : nat
}.

(** The logger as the field initialisers leave it. *)
Definition new_logger : Logger := mkLogger [] 0 0 0 0 (Fin 0) 0.

(** The readings a call of [log] takes: the date of the timestamp, the
    clock of the id and the random suffix of the id. *)
Record Stamp : Type := mkStamp {
  stamp_date : Z;
  stamp_now : Z;
  stamp_random : string
}.

(** [log(level, message, context)]; the console output is not modelled. *)
Definition log (lg : Logger) (st : Stamp) (level message : string)
    (context : gmap string V) : Logger :=
  let logEntry :=
    mkLogEntry (stamp_date st) level message context
      ("LOG_" +:+ pretty (stamp_now st) +:+ "_" +:+ stamp_random st) in
  mkLogger (logs lg ++ [logEntry]) (errorCount lg) (warningCount lg) (infoCount lg)
    (apiCount lg) (totalResponseTime lg) (requestCount lg).

Definition info (lg : Logger) (st : Stamp) (message : string)
    (context : gmap string V) : Logger :=
  let lg' := log lg st "INFO" message context in
  mkLogger (logs lg') (errorCount lg') (warningCount lg') (S (infoCount lg'))
    (apiCount lg') (totalResponseTime lg') (requestCount lg').

(** [error(message, error, context)]: the context gets the property
    [error], holding [error?.message]. *)
Definition error_log (lg : Logger) (st : Stamp) (message : string)
    (err : option JsError) (context : gmap string V) : Logger :=
  let msg :=
    match err with
    | Some e => match e_message e with Some m => JStr m | None => JUndefined end
    | None => JUndefined
    end in
  let lg' := log lg st "ERROR" message (<["error" := inject msg]> context) in
  mkLogger (logs lg') (S (errorCount lg')) (warningCount lg') (infoCount lg')
    (apiCount lg') (totalResponseTime lg') (requestCount lg').

Definition warn (lg : Logger) (st : Stamp) (message : string)
    (context : gmap string V) : Logger :=
  let lg' := log lg st "WARN" message context in
  mkLogger (logs lg') (errorCount lg') (S (warningCount lg')) (infoCount lg')
    (apiCount lg') (totalResponseTime lg') (requestCount lg').

(** [apiLog(method, url, status, responseTime, context)]. *)
Definition apiLog (lg : Logger) (st : Stamp) (method url : string)
    (status responseTime : JsNumber) (context : gmap string V) : Logger :=
  let message :=
    method +:+ " " +:+ url +:+ " - " +:+ NumberToString status +:+ " ("
      +:+ NumberToString responseTime +:+ "ms)" in
  let ctx :=
    context ∪
      <["method" := inject (JStr method)]>
        (<["url" := inject (JStr url)]>
           (<["status" := inject (JNum status)]>
              (<["responseTime" := inject (JNum responseTime)]> ∅))) in
  let lg' := log lg st "API" message ctx in
  mkLogger (logs lg') (errorCount lg') (warningCount lg') (infoCount lg')
    (S (apiCount lg')) (num_add (totalResponseTime lg') responseTime)
    (S (requestCount lg')).

(** What [getAnalytics] returns. *)
Record AnalyticsReport : Type := mkReport {
  totalLogs : nat;
  rep_errorCount : nat;
  rep_warningCount : nat;
  rep_infoCount : nat;
  rep_apiCount : nat;
  averageResponseTime : JsNumber;
  recentLogs : list LogEntry
}.

Definition getAnalytics (lg : Logger) : AnalyticsReport :=
  mkReport (length (logs lg)) (errorCount lg) (warningCount lg) (infoCount lg)
    (apiCount lg)
    (if (0 <? requestCount lg)%nat
     then Math_round (num_div (totalResponseTime lg)
                        (num_of_Z (Z.of_nat (requestCount lg))))
     else Fin 0)
    (slice_last 5 (logs lg)).

(** A call of one of the public methods. *)
Inductive LoggerCall : Type :=
| CallLog (st : Stamp) (level message : string) (context : gmap string V)
| CallInfo (st : Stamp) (message : string) (context : gmap string V)
| CallError (st : Stamp) (message : string) (err : option JsError)
    (context : gmap string V)
| CallWarn (st : Stamp) (message : string) (context : gmap string V)
| CallApi (st : Stamp) (method url : string) (status responseTime : JsNumber)
    (context : gmap string V).

Definition do_call (lg : Logger) (c : LoggerCall) : Logger :=
  match c with
  | CallLog st level message context => log lg st level message context
  | CallInfo st message context => info lg st message context
  | CallError st message err context => error_log lg st message err context
  | CallWarn st message context => warn lg st message context
  | CallApi st method url status responseTime context =>
      apiLog lg st method url status responseTime context
  end.

Definition do_calls (lg : Logger) (cs : list LoggerCall) : Logger :=
  fold_left do_call cs lg.

(** The level under which a call logs. *)
Definition call_level (c : LoggerCall) : string :=
  match c with
  | CallLog _ level _ _ => level
  | CallInfo _ _ _ => "INFO"
  | CallError _ _ _ _ => "ERROR"
  | CallWarn _ _ _ => "WARN"
  | CallApi _ _ _ _ _ _ => "API"
  end.

Definition is_direct_log (c : LoggerCall) : bool :=
  match c with CallLog _ _ _ _ => true | _ => false end.

(** The response time a call adds to the total, if it is an [apiLog]. *)
Definition call_responseTime (c : LoggerCall) : option JsNumber :=
  match c with
  | CallApi _ _ _ _ responseTime _ => Some responseTime
  | _ => None
  end.

End FrontendLogger.

(** *** FrontendErrorHandler with its history *)

Section ErrorHistory.
Context {E : Engine} {V : Type}.

(** [{ id, type, message, context, timestamp, handled: true }]. *)
Record ErrorInfo : Type := mkErrorInfo {
  ei_id : string;
  ei_type : ErrorType;
  ei_message : option string;
  ei_context : gmap string V;
  ei_timestamp : Z
}.

(** [handleError(error, context)] on the handler whose history is
    [errorHistory]: the result read by the callers and the history after the
    push.  [date] is the date of the timestamp. *)
Definition handleError_push (errorHistory : list ErrorInfo) (date now : Z)
    (rnd : string) (error : JsError) (context : gmap string V)
    : HandledError * list ErrorInfo :=
  let handled := handleError now rnd error in
  (handled,
   errorHistory ++
     [mkErrorInfo (he_id handled) (he_errorType handled) (e_message error) context date]).

(** [{ recentErrors: this.errorHistory.slice(-10), totalErrors }]. *)
Definition getErrorReport (errorHistory : list ErrorInfo) : list ErrorInfo * nat :=
  (slice_last 10 errorHistory, length errorHistory).

(** One call of [handleError]. *)
Record HandleCall : Type := mkHandleCall {
  hc_date : Z;
  hc_now : Z;
  hc_random : string;
  hc_error : JsError;
  hc_context : gmap string V
}.

Definition handle_all (errorHistory : list ErrorInfo) (cs : list HandleCall)
    : list ErrorInfo :=
  fold_left
    (fun h c =>
       snd (handleError_push h (hc_date c) (hc_now c) (hc_random c) (hc_error c)
              (hc_context c)))
    cs errorHistory.

End ErrorHistory.

End Route.

(** ** src/services/commission-validator.js *)

Module CommissionValidatorJs.

Definition ID_ERROR : string := "ID de streamer es requerido y debe ser string".
Definition LEVEL_ERROR : string := "Nivel de streamer es requerido".
Definition EARNINGS_ERROR : string := "Ganancias deben ser un número positivo".
Definition COUNTRY_WARNING : string :=
  "País no especificado, usando valor por defecto".

(** What [calculateCommission] resolves to. *)
Inductive CommissionResponse : Type :=
| CommissionSuccess (commission : JsNumber) (level multiplier baseEarnings : JsValue)
    (warnings : list string)
| CommissionError (error : option string) (commission : JsNumber).

Section CommissionValidator.
Context {E : Engine}.

(** [validateStreamerData].  The object is corrected in place and
    [correctedData] is that same object: the record returned under
    [correctedData] is the state of the caller's object after the call. *)
Definition validateStreamerData (sd : StreamerData) : ValidationResult :=
  let errs_id :=
    if negb (truthy (sd_id sd)) || negb (typeof_is (sd_id sd) TString)
    then [ID_ERROR] else [] in
  let '(errs_level, warns_level, sd1) :=
    if negb (truthy (sd_level sd)) then ([LEVEL_ERROR], [], sd)
    else if negb (array_includes validLevels (sd_level sd)) then
      let suggestedLevel := suggestLevelByEarnings (sd_earnings sd) in
      ([],
       ["Nivel inválido (" +:+ ToString (sd_level sd) +:+ "). Sugerido: "
          +:+ ToString suggestedLevel],
       set_level sd suggestedLevel)
    else ([], [], sd) in
  let errs_earnings :=
    if negb (truthy (sd_earnings sd1)) || lt_lit (sd_earnings sd1) 0
    then [EARNINGS_ERROR] else [] in
  let '(warns_country, sd2) :=
    if negb (truthy (sd_country sd1))
    then ([COUNTRY_WARNING], set_country sd1 (JStr "Colombia"))
    else ([], sd1) in
  let errs := errs_id ++ errs_level ++ errs_earnings in
  mkValidation (no_errors errs) errs (warns_level ++ warns_country) sd2.

(** The [try] block of [calculateCommission]. *)
Definition calculateCommission_try (sd : StreamerData) : Exc CommissionResponse :=
  let validation := validateStreamerData sd in
  if negb (isValid validation)
  then Throw (new_Error ("Datos de streamer inválidos: " +:+ join ", " (errors validation)))
  else
    let data := correctedData validation in
    let baseEarnings := sd_earnings data in
    let level := sd_level data in
    let multiplier := levelMultipliers level in
    if negb (truthy multiplier)
    then Throw (new_Error ("Multiplicador no encontrado para nivel " +:+ ToString level))
    else
      let commission := num_mul (ToNumber baseEarnings) (ToNumber multiplier) in
      Ok (CommissionSuccess commission level multiplier baseEarnings (warnings validation)).

(** [calculateCommission]: a thrown error becomes
    [{ success: false, error: error.message, commission: 0 }]. *)
Definition calculateCommission (sd : StreamerData) : CommissionResponse :=
  try_catch (calculateCommission_try sd)
    (fun error => CommissionError (e_message error) (Fin 0)).

End CommissionValidator.

(** *** validateMultipleStreamers

    The array holds references to streamer objects, and [calculateCommission]
    corrects the object it is given in place: the objects live in a heap and
    the array is a list of addresses, so that an object listed twice is seen
    corrected the second time.  An address outside the heap stands for a
    null element. *)

(** [{ streamerId: streamer.id, ...result }]. *)
Record BatchResult : Type := mkBatchResult {
  br_streamerId : JsValue;
  br_result : CommissionResponse
}.

(** [{ total, successful, failed, results }]. *)
Record BatchSummary : Type := mkBatchSummary {
  total : nat;
  successful : nat;
  failed : nat;
  results : list BatchResult
}.

(** [r.success]. *)
Definition success (r : CommissionResponse) : bool :=
  match r with
  | CommissionSuccess _ _ _ _ _ => true
  | CommissionError _ _ => false
  end.

Section ValidateMultiple.
Context {E : Engine}.

(** The [for] loop: the results pushed so far come first. *)
Fixpoint batch_loop (heap : gmap nat StreamerData) (streamersData : list nat)
    : Exc (list BatchResult) * gmap nat StreamerData :=
  match streamersData with
  | [] => (Ok [], heap)
  | a :: rest =>
      match heap !! a with
      | None =>
          (Throw (new_TypeError "Cannot read properties of null (reading 'id')"), heap)
      | Some streamer =>
          let result := calculateCommission streamer in
          let streamer' := correctedData (validateStreamerData streamer) in
          let heap' := <[a := streamer']> heap in
          match batch_loop heap' rest with
          | (Ok results, heap'') =>
              (Ok (mkBatchResult (sd_id streamer') result :: results), heap'')
          | (Throw e, heap'') => (Throw e, heap'')
          end
      end
  end.

Definition count_results (p : BatchResult -> bool) (rs : list BatchResult) : nat :=
  length (List.filter p rs).

Definition validateMultipleStreamers (heap : gmap nat StreamerData)
    (streamersData : list nat) : Exc BatchSummary * gmap nat StreamerData :=
  match batch_loop heap streamersData with
  | (Ok results, heap') =>
      (Ok (mkBatchSummary (length results)
             (count_results (fun r => success (br_result r)) results)
             (count_results (fun r => negb (success (br_result r))) results)
             results),
       heap')
  | (Throw e, heap') => (Throw e, heap')
  end.

End ValidateMultiple.

End CommissionValidatorJs.

(** ** src/services/streamer-validator.js *)

Module StreamerValidatorJs.

Definition LEVEL_WARNING : string := "Nivel inválido, asignando nivel 1 por defecto".

Section StreamerValidator.
Context {E : Engine}.

(** The level block of [validateStreamer].  [correctedData] starts as a
    copy of the input and this block is the only statement that writes its
    [level]; the function gives the warnings the block pushes and the value
    of [correctedData.level] when [validateStreamer] returns. *)
Definition validateStreamer_level (sd : StreamerData) : list string * JsValue :=
  if negb (truthy (sd_level sd)) || lt_lit (sd_level sd) 1 || gt_lit (sd_level sd) 5
  then ([LEVEL_WARNING], JNum (Fin 1))
  else ([], sd_level sd).

End StreamerValidator.

(** The table of [attemptEmailCorrection], the same in route.ts: each
    domain with the misspellings it replaces, in the order of
    [Object.entries]. *)
Definition corrections : list (string * list string) :=
  [("gmail.com", ["gmial.com"; "gmail.co"; "gmail.coom"]);
   ("hotmail.com", ["hotmial.com"; "hotmail.co"; "hotmail.coom"]);
   ("yahoo.com", ["yaho.com"; "yahoo.co"; "yahoo.coom"])].

(** The inner loop, over the misspellings of one domain. *)
Fixpoint try_typos (email correct : string) (typos : list string) : option string :=
  match typos with
  | [] => None
  | typo :: rest =>
      if str_includes email typo then Some (str_replace email typo correct)
      else try_typos email correct rest
  end.

(** The outer loop. *)
Fixpoint try_corrections (email : string) (table : list (string * list string))
    : option string :=
  match table with
  | [] => None
  | (correct, typos) :: rest =>
      match try_typos email correct typos with
      | Some corrected => Some corrected
      | None => try_corrections email rest
      end
  end.

(** [attemptEmailCorrection(email)]; [None] is [null]. *)
Definition attemptEmailCorrection (email : string) : option string :=
  try_corrections email corrections.

End StreamerValidatorJs.

(** ** src/services/network-resilience.js *)

Module NetworkResilience.

Inductive BreakerState : Type := CLOSED | OPEN | HALF_OPEN.

(** [this.circuitBreaker]. *)
Record CircuitBreaker : Type := mkBreaker {
  cb_state : BreakerState;
  failureCount : nat;
  lastFailureTime : option Z
}.

Inductive RetryStrategy : Type := exponential | linear | fixed.

(** [this.config], and the merged [{ ...this.config, ...options }]. *)
Record Config : Type := mkConfig {
  maxRetries : nat;
  baseDelay : Q;
  maxDelay : Q;
  timeout : Z;
  circuitBreakerThreshold : nat;
  circuitBreakerTimeout : Z;
  retryStrategy : option RetryStrategy
}.

(** The configuration set by the constructor. *)
Definition default_config : Config :=
  mkConfig 3 1000 10000 30000 5 60000 None.

(** The [options] argument: every property may be absent. *)
Record Options : Type := mkOptions {
  o_maxRetries : option nat;
  o_baseDelay : option Q;
  o_maxDelay : option Q;
  o_timeout : option Z;
  o_circuitBreakerThreshold : option nat;
  o_circuitBreakerTimeout : option Z;
  o_retryStrategy : option RetryStrategy
}.

Definition no_options : Options := mkOptions None None None None None None None.

(** [{ ...config, ...options }]. *)
Definition merge (c : Config) (o : Options) : Config :=
  mkConfig (default (maxRetries c) (o_maxRetries o))
    (default (baseDelay c) (o_baseDelay o))
    (default (maxDelay c) (o_maxDelay o))
    (default (timeout c) (o_timeout o))
    (default (circuitBreakerThreshold c) (o_circuitBreakerThreshold o))
    (default (circuitBreakerTimeout c) (o_circuitBreakerTimeout o))
    (match o_retryStrategy o with Some s => Some s | None => retryStrategy c end).

Definition CIRCUIT_OPEN_MESSAGE : string :=
  "Circuit breaker está ABIERTO - Servicio temporalmente no disponible".

(** What is observable of one call: the operation invoked (with the rank of
    the invocation), an attempt refused by the open breaker, a sleep. *)
Inductive Event : Type :=
| EvInvoke (k : nat)
| EvCircuitOpen
| EvSleep (ms : Q).

Definition is_invoke (ev : Event) : bool :=
  match ev with EvInvoke _ => true | _ => false end.

Definition is_sleep (ev : Event) : bool :=
  match ev with EvSleep _ => true | _ => false end.

Section ExecuteWithRetry.
(** The type of what the operation resolves to. *)
Context {A : Type}.

(** How one invocation of the operation ends under [executeWithTimeout]:
    it resolves, it rejects, or the timer fires first. *)
Inductive OpOutcome : Type :=
| Resolved (a : A)
| Rejected (e : JsError)
| TimedOut.

(** The surroundings of a call: the outcome of the [k]-th invocation of the
    operation, the [k]-th reading of [Date.now()] and the [k]-th draw of
    [Math.random()]. *)
Record World : Type := mkWorld {
  operation : nat -> OpOutcome;
  Date_now : nat -> Z;
  Math_random : nat -> Q
}.

(** The instance state and how far the oracles have been consumed. *)
Record State : Type := mkState {
  circuitBreaker : CircuitBreaker;
  calls : nat;
  reads : nat;
  draws : nat
}.

Definition initial_state : State := mkState (mkBreaker CLOSED 0 None) 0 0 0.

(** How the loop is left: by the [return] in the [try] block, or by running
    out of attempts with [lastError]. *)
Inductive LoopExit : Type :=
| Returned (a : A)
| Exhausted (lastError : option JsError).

Variable w : World.
(** [this.config], read by [updateCircuitBreaker]. *)
Variable this_config : Config.

Definition with_breaker (st : State) (cb : CircuitBreaker) : State :=
  mkState cb (calls st) (reads st) (draws st).

(** The circuit-breaker test that opens the [try] block. *)
Definition check_breaker (config : Config) (st : State) : Exc unit * State :=
  match cb_state (circuitBreaker st) with
  | OPEN =>
      let now := Date_now w (reads st) in
      let st' := mkState (circuitBreaker st) (calls st) (S (reads st)) (draws st) in
      let last := default 0%Z (lastFailureTime (circuitBreaker st)) in
      if (circuitBreakerTimeout config <? now - last)%Z
      then (Ok tt,
            with_breaker st' (mkBreaker HALF_OPEN (failureCount (circuitBreaker st))
                                (lastFailureTime (circuitBreaker st))))
      else (Throw (new_Error CIRCUIT_OPEN_MESSAGE), st')
  | _ => (Ok tt, st)
  end.

(** [executeWithTimeout(operation, timeout)]: one invocation. *)
Definition executeWithTimeout (tmo : Z) (st : State) : Exc A * State :=
  let st' := mkState (circuitBreaker st) (S (calls st)) (reads st) (draws st) in
  match operation w (calls st) with
  | Resolved a => (Ok a, st')
  | Rejected e => (Throw e, st')
  | TimedOut =>
      (Throw (new_Error ("Operación timeout después de " +:+ pretty tmo +:+ "ms")), st')
  end.

Definition updateCircuitBreaker (st : State) : State :=
  let cb := circuitBreaker st in
  let count := S (failureCount cb) in
  let now := Date_now w (reads st) in
  let state' :=
    if (circuitBreakerThreshold this_config <=? count)%nat then OPEN else cb_state cb in
  mkState (mkBreaker state' count (Some now)) (calls st) (S (reads st)) (draws st).

Definition resetCircuitBreaker (st : State) : State :=
  with_breaker st (mkBreaker CLOSED 0 None).

Definition exponentialBackoff (attempt : nat) (config : Config) (st : State) : Q * State :=
  let delay :=
    Qmin (baseDelay config * inject_Z (2 ^ Z.of_nat (attempt - 1))) (maxDelay config) in
  ((delay + Math_random w (draws st) * 1000)%Q,
   mkState (circuitBreaker st) (calls st) (reads st) (S (draws st))).

Definition linearBackoff (attempt : nat) (config : Config) : Q :=
  Qmin (baseDelay config * inject_Z (Z.of_nat attempt)) (maxDelay config).

Definition fixedDelay (attempt : nat) (config : Config) : Q := baseDelay config.

(** [config.retryStrategy || 'exponential'], then the strategy. *)
Definition calculateDelay (attempt : nat) (config : Config) (st : State) : Q * State :=
  match default exponential (retryStrategy config) with
  | exponential => exponentialBackoff attempt config st
  | linear => (linearBackoff attempt config, st)
  | fixed => (fixedDelay attempt config, st)
  end.

(** The [try] block of one attempt, with the event it leaves. *)
Definition attempt_once (config : Config) (st : State) : Event * Exc A * State :=
  match check_breaker config st with
  | (Throw e, st1) => (EvCircuitOpen, Throw e, st1)
  | (Ok _, st1) =>
      let '(r, st2) := executeWithTimeout (timeout config) st1 in
      (EvInvoke (calls st1), r, st2)
  end.

(** The [for] loop, from [attempt] on, with [remaining] iterations to go
    (the loop runs while [attempt <= config.maxRetries]). *)
Fixpoint retry_loop (config : Config) (remaining attempt : nat)
    (lastError : option JsError) (st : State) : list Event * LoopExit * State :=
  match remaining with
  | O => ([], Exhausted lastError, st)
  | S remaining' =>
      let '(ev, outcome, st1) := attempt_once config st in
      match outcome with
      | Ok result => ([ev], Returned result, resetCircuitBreaker st1)
      | Throw error =>
          let st2 := updateCircuitBreaker st1 in
          if (attempt <? maxRetries config)%nat then
            let '(delay, st3) := calculateDelay attempt config st2 in
            let '(evs, exit, st4) :=
              retry_loop config remaining' (S attempt) (Some error) st3 in
            (ev :: EvSleep delay :: evs, exit, st4)
          else
            let '(evs, exit, st3) :=
              retry_loop config remaining' (S attempt) (Some error) st2 in
            (ev :: evs, exit, st3)
      end
  end.

(** The text [`${lastError.message}`]. *)
Definition message_text (e : JsError) : string :=
  default "undefined" (e_message e).

Definition exhausted_message (config : Config) (lastError : JsError) : string :=
  "Operación falló después de " +:+ pretty (maxRetries config)
    +:+ " intentos. Último error: " +:+ message_text lastError.

(** [executeWithRetry(operation, options)]: the events of the call, what the
    promise settles to, and the state left behind.  With no attempt at all
    [lastError] is still undefined and reading its message is a TypeError. *)
Definition executeWithRetry (o : Options) (st : State) : list Event * Exc A * State :=
  let config := merge this_config o in
  let '(evs, exit, st') := retry_loop config (maxRetries config) 1 None st in
  match exit with
  | Returned a => (evs, Ok a, st')
  | Exhausted (Some lastError) =>
      (evs, Throw (new_Error (exhausted_message config lastError)), st')
  | Exhausted None =>
      (evs,
       Throw (new_TypeError "Cannot read properties of undefined (reading 'message')"),
       st')
  end.

(** The error an attempt event stands for, if the attempt failed. *)
Definition attempt_error (config : Config) (ev : Event) : option JsError :=
  match ev with
  | EvInvoke k =>
      match operation w k with
      | Resolved _ => None
      | Rejected e => Some e
      | TimedOut =>
          Some (new_Error ("Operación timeout después de " +:+ pretty (timeout config) +:+ "ms"))
      end
  | EvCircuitOpen => Some (new_Error CIRCUIT_OPEN_MESSAGE)
  | EvSleep _ => None
  end.

(** An event that is a sleep or a failed attempt. *)
Definition failed_or_sleep (config : Config) (ev : Event) : Prop :=
  is_sleep ev = true \/ attempt_error config ev <> None.

End ExecuteWithRetry.

(** No two attempts follow each other without a sleep in between. *)
Fixpoint sleeps_between (evs : list Event) : Prop :=
  match evs with
  | [] => True
  | ev :: rest =>
      match rest with
      | [] => True
      | ev' :: _ => (is_sleep ev = true \/ is_sleep ev' = true) /\ sleeps_between rest
      end
  end.

(** *** fetchWithResilience *)

(** What [fetchWithResilience] reads of a response. *)
Record HttpResponse : Type := mkHttpResponse {
  resp_ok : bool;
  resp_status : Z;
  resp_statusText : string
}.

(** How one [fetch] ends: it resolves to a response, it rejects, or it is
    still pending when the timers fire. *)
Inductive FetchOutcome : Type :=
| Fetched (r : HttpResponse)
| FetchFailed (e : JsError)
| FetchPending.

(** The operation [fetchWithResilience] hands to [executeWithRetry]: the
    [k]-th run does the [k]-th fetch, and a response that is not [ok] is
    thrown as [`HTTP ${status}: ${statusText}`]. *)
Definition fetch_operation (fetch : nat -> FetchOutcome) (k : nat)
    : OpOutcome (A := HttpResponse) :=
  match fetch k with
  | Fetched r =>
      if negb (resp_ok r)
      then Rejected (new_Error ("HTTP " +:+ pretty (resp_status r) +:+ ": "
                                  +:+ resp_statusText r))
      else Resolved r
  | FetchFailed e => Rejected e
  | FetchPending => TimedOut
  end.

(** [fetchWithResilience(url, options)]: [executeWithRetry] on that
    operation, with no options of its own. *)
Definition fetchWithResilience (fetch : nat -> FetchOutcome) (now : nat -> Z)
    (random : nat -> Q) (this_config : Config) (st : State)
    : list Event * Exc HttpResponse * State :=
  executeWithRetry (mkWorld (fetch_operation fetch) now random) this_config
    no_options st.

End NetworkResilience.

(** ** The Firestore service and the commission service

    A stored or transmitted object is a finite map from property names to
    primitive values; a [Date] is represented by its epoch milliseconds. *)

Module FirestoreService.

(** The document [createCommission] hands to [addDoc]:
    [{ ...commissionData, created_at, updated_at, status: 'pending' }]. *)
Definition createCommission_doc (commissionData : gmap string JsValue) (now : Z)
    : gmap string JsValue :=
  <["status" := JStr "pending"]>
    (<["updated_at" := JNum (num_of_Z now)]>
       (<["created_at" := JNum (num_of_Z now)]> commissionData)).

(** What [createCommission] settles to:
    [{ success: true, id: docRef.id, data: commissionData }] or
    [{ success: false, error: error.message }]. *)
Inductive CreateResult : Type :=
| Created (id : JsValue) (data : gmap string JsValue)
| NotCreated (error : option string).

(** [createCommission(commissionData)].  [addDoc] stands for the call of
    the Firestore SDK on the document: it settles to the id of the new
    document or rejects.  The [catch] block turns a rejection into a result
    that settles. *)
Definition createCommission (addDoc : gmap string JsValue -> Exc JsValue)
    (now : Z) (commissionData : gmap string JsValue) : CreateResult :=
  try_catch
    (docRef_id ← addDoc (createCommission_doc commissionData now);
     mret (Created docRef_id commissionData))
    (fun error => NotCreated (e_message error)).

End FirestoreService.

Module CommissionService.

(** The methods of [this.firestore] the service awaits.  A lookup settles
    to the object found, or to a falsy value ([None]). *)
Record Firestore : Type := mkFirestore {
  getStreamerById : JsValue -> Exc (option (gmap string JsValue));
  updateCommission : JsValue -> gmap string JsValue -> Exc (gmap string JsValue)
}.

(** [commissionRates = {1: 0.15, 2: 0.20, 3: 0.25, 4: 0.30, 5: 0.35}]. *)
Definition commissionRates : JsValue -> JsValue :=
  level_lookup 0.15 0.20 0.25 0.30 0.35.

(** [a || b]. *)
Definition js_or (a b : JsValue) : JsValue := if truthy a then a else b.

(** [obj.prop]: [undefined] when the property is absent. *)
Definition prop (obj : gmap string JsValue) (name : string) : JsValue :=
  default JUndefined (obj !! name).

Section CommissionService.
Context {E : Engine}.
Variable firestore : Firestore.

(** [calculateCommission(streamerId, amount, app)]; [now] is the clock
    reading used for the id and the two timestamps.  The [catch] block logs
    and rethrows. *)
Definition calculateCommission (now : Z) (streamerId amount app : JsValue)
    : Exc (gmap string JsValue) :=
  found ← getStreamerById firestore streamerId;
  match found with
  | None => Throw (new_Error ("Streamer " +:+ ToString streamerId +:+ " no encontrado"))
  | Some streamer =>
      let level := js_or (prop streamer "level") (JNum (Fin 1)) in
      let commissionRate := js_or (commissionRates level) (JNum (Fin 0.15)) in
      let commissionAmount := num_mul (ToNumber amount) (ToNumber commissionRate) in
      let netAmount := num_sub (ToNumber amount) commissionAmount in
      Ok (list_to_map
            [("id", JStr ("COMM_" +:+ pretty now +:+ "_" +:+ ToString streamerId));
             ("streamerId", streamerId);
             ("streamerName", prop streamer "name");
             ("agency", js_or (prop streamer "agency") (JStr "luxeryprime"));
             ("app", app);
             ("level", level);
             ("baseAmount", amount);
             ("commissionRate", commissionRate);
             ("commissionAmount", JNum commissionAmount);
             ("netAmount", JNum netAmount);
             ("status", JStr "pending");
             ("createdAt", JNum (num_of_Z now));
             ("updatedAt", JNum (num_of_Z now))])
  end.

(** The object literal of [updateCommissionStatus]:
    [{ status: status, updatedAt: ..., ...additionalData }]. *)
Definition updateData (now : Z) (status : JsValue)
    (additionalData : gmap string JsValue) : gmap string JsValue :=
  additionalData ∪
    <["updatedAt" := JNum (num_of_Z now)]> (<["status" := status]> ∅).

(** [updateCommissionStatus(commissionId, status, additionalData)]. *)
Definition updateCommissionStatus (now : Z) (commissionId status : JsValue)
    (additionalData : gmap string JsValue) : Exc (gmap string JsValue) :=
  updateCommission firestore commissionId (updateData now status additionalData).

End CommissionService.

(** The statuses of the data model. *)
Definition known_status (v : JsValue) : Prop :=
  v = JStr "pending" \/ v = JStr "paid" \/ v = JStr "failed".

(** *** Creating commissions, one by one and in a batch *)

Section Batch.
(** What [this.firestore.createCommission] settles to. *)
Context {R : Type}.
(** [this.firestore.createCommission] at its [n]-th call. *)
Variable firestore_createCommission : nat -> gmap string JsValue -> Exc R.

(** [notifyCommissionCreated(commission)] writes one line to the console
    inside a [try] of its own, whose [catch] only logs: it settles whatever
    the commission is. *)
Definition notifyCommissionCreated (commission : R) : unit := tt.

(** [createCommission(commissionData)]; the [catch] block logs and
    rethrows. *)
Definition createCommission (n : nat) (commissionData : gmap string JsValue) : Exc R :=
  commission ← firestore_createCommission n commissionData;
  let _ := notifyCommissionCreated commission in
  mret commission.

(** [{ commissionId: commission.id, error: error.message }]. *)
Record BatchError : Type := mkBatchError {
  be_commissionId : JsValue;
  be_error : option string
}.

(** [{ total, successful, failed, errors }]. *)
Record BatchResults : Type := mkResults {
  total : nat;
  successful : nat;
  failed : nat;
  errors : list BatchError
}.

(** The body of the [for] loop of [processCommissionBatch]: the [try]
    around [createCommission] and its [catch]. *)
Definition batch_step (n : nat) (results : BatchResults)
    (commission : gmap string JsValue) : BatchResults :=
  match createCommission n commission with
  | Ok _ =>
      mkResults (total results) (S (successful results)) (failed results)
        (errors results)
  | Throw error =>
      mkResults (total results) (successful results) (S (failed results))
        (errors results ++ [mkBatchError (prop commission "id") (e_message error)])
  end.

(** The loop; [n] counts the calls of [createCommission] made so far. *)
Fixpoint batch_loop (n : nat) (commissions : list (gmap string JsValue))
    (results : BatchResults) : BatchResults :=
  match commissions with
  | [] => results
  | commission :: rest => batch_loop (S n) rest (batch_step n results commission)
  end.

(** [processCommissionBatch(commissions)] on an array of commissions. *)
Definition processCommissionBatch (commissions : list (gmap string JsValue))
    : BatchResults :=
  batch_loop 0 commissions (mkResults (length commissions) 0 0 []).

End Batch.

End CommissionService.

(** ** src/unnamed/part_005: class IntelligentCache *)

Module IntelligentCache.

(** A JS [Map], or an object with string keys that are not array indices:
    the entries in insertion order.  Writing under a key that is present
    keeps its place. *)
Fixpoint alist_get {A : Type} (k : string) (l : list (string * A)) : option A :=
  match l with
  | [] => None
  | (k', a) :: l' => if String.eqb k' k then Some a else alist_get k l'
  end.

Fixpoint alist_set {A : Type} (k : string) (a : A) (l : list (string * A))
    : list (string * A) :=
  match l with
  | [] => [(k, a)]
  | (k', a') :: l' =>
      if String.eqb k' k then (k, a) :: l' else (k', a') :: alist_set k a l'
  end.

Fixpoint alist_delete {A : Type} (k : string) (l : list (string * A))
    : list (string * A) :=
  match l with
  | [] => []
  | (k', a') :: l' =>
      if String.eqb k' k then l' else (k', a') :: alist_delete k l'
  end.

(** One of [this.strategies]: [{ ttl, priority, maxSize, strategy }]. *)
Record Strategy : Type := mkStrategy {
  ttl : Q;
  priority : string;
  maxSize : Q;
  strategy : string
}.

(** [this.metrics]. *)
Record Metrics : Type := mkMetrics {
  hits : nat;
  misses : nat;
  evictions : nat;
  totalRequests : nat
}.

(** An element of [this.cursorAI.optimizations]:
    [{ category, type, timestamp, applied }], with [appliedAt] once it is
    applied. *)
Record Optimization : Type := mkOptimization {
  opt_category : string;
  opt_type : string;
  opt_timestamp : Z;
  applied : bool;
  appliedAt : option Z
}.

Section Cache.
(** What the cache holds. *)
Context {D : Type}.

(** [{ data, timestamp, ttl, category, priority, accessCount, lastAccess }]. *)
Record CacheEntry : Type := mkEntry {
  data : D;
  timestamp : Z;
  entry_ttl : Q;
  category : string;
  entry_priority : string;
  accessCount : nat;
  lastAccess : Z
}.

(** The fields of an instance that its methods read or write
    ([cursorAI.predictions] is never touched). *)
Record State : Type := mkState {
  cache : list (string * CacheEntry);
  metrics : Metrics;
  strategies : list (string * Strategy);
  learning : bool;
  patterns : gmap string nat;
  optimizations : list Optimization
}.

Definition set_cache (st : State) (c : list (string * CacheEntry)) : State :=
  mkState c (metrics st) (strategies st) (learning st) (patterns st) (optimizations st).

Definition set_metrics (st : State) (m : Metrics) : State :=
  mkState (cache st) m (strategies st) (learning st) (patterns st) (optimizations st).

Definition set_strategies (st : State) (s : list (string * Strategy)) : State :=
  mkState (cache st) (metrics st) s (learning st) (patterns st) (optimizations st).

Definition set_patterns (st : State) (p : gmap string nat) : State :=
  mkState (cache st) (metrics st) (strategies st) (learning st) p (optimizations st).

Definition set_optimizations (st : State) (o : list Optimization) : State :=
  mkState (cache st) (metrics st) (strategies st) (learning st) (patterns st) o.

(** The strategies the constructor installs. *)
Definition initial_strategies : list (string * Strategy) :=
  [("streamers", mkStrategy 300 "high" 1000 "write-through");
   ("commissions", mkStrategy 600 "medium" 500 "write-behind");
   ("agencies", mkStrategy 1800 "low" 100 "read-through")].

(** [new IntelligentCache()]. *)
Definition new_cache : State :=
  mkState [] (mkMetrics 0 0 0 0) initial_strategies true ∅ [].

(** A method that may throw after it has changed the instance: the outcome
    and the instance as it is left. *)
Definition and_then {A : Type} (r : Exc unit * State)
    (k : State -> Exc A * State) : Exc A * State :=
  match r with
  | (Ok _, st) => k st
  | (Throw e, st) => (Throw e, st)
  end.

(** [isExpired(entry)]: [(now - entry.timestamp) > entry.ttl]. *)
Definition isExpired (now : Z) (entry : CacheEntry) : bool :=
  Qlt_bool (entry_ttl entry) (inject_Z (now - timestamp entry)).

(** Head of the entries sorted by [lastAccess] with a stable sort: the
    first entry among those with the least [lastAccess]. *)
Fixpoint least_recent (entries : list (string * CacheEntry))
    : option (string * CacheEntry) :=
  match entries with
  | [] => None
  | e :: rest =>
      match least_recent rest with
      | Some m => if (lastAccess (snd m) <? lastAccess (snd e))%Z then Some m else Some e
      | None => Some e
      end
  end.

(** [evictLeastUsed(category)]. *)
Definition evictLeastUsed (st : State) (cat : string) : State :=
  let entries :=
    List.filter (fun e => String.eqb (category (snd e)) cat) (cache st) in
  match least_recent entries with
  | Some (keyToEvict, _) =>
      let m := metrics st in
      set_metrics (set_cache st (alist_delete keyToEvict (cache st)))
        (mkMetrics (hits m) (misses m) (S (evictions m)) (totalRequests m))
  | None => st
  end.

(** [isSafeOptimization(optimization)]. *)
Definition isSafeOptimization (optimization : Optimization) : bool :=
  array_includes [JStr "increase_ttl"; JStr "increase_size"]
    (JStr (opt_type optimization)).

(** [applyOptimization(optimization)], as a function of the strategies:
    the strategies and the optimization object as it leaves them.  Reading
    [strategy.ttl] or [strategy.maxSize] throws when
    [this.strategies[optimization.category]] is undefined. *)
Definition applyOptimization (strats : list (string * Strategy)) (now : Z)
    (optimization : Optimization)
    : Exc (list (string * Strategy) * Optimization) :=
  let cat := opt_category optimization in
  let found := alist_get cat strats in
  strats' ←
    (if String.eqb (opt_type optimization) "increase_ttl" then
       match found with
       | Some s =>
           Ok (alist_set cat
                 (mkStrategy (Qmin (ttl s * 1.5) 3600) (priority s) (maxSize s)
                    (strategy s))
                 strats)
       | None =>
           Throw (new_TypeError "Cannot read properties of undefined (reading 'ttl')")
       end
     else if String.eqb (opt_type optimization) "increase_size" then
       match found with
       | Some s =>
           Ok (alist_set cat
                 (mkStrategy (ttl s) (priority s) (Qmin (maxSize s * 1.5) 5000)
                    (strategy s))
                 strats)
       | None =>
           Throw
             (new_TypeError "Cannot read properties of undefined (reading 'maxSize')")
       end
     else Ok strats);
  mret (strats',
        mkOptimization cat (opt_type optimization) (opt_timestamp optimization)
          true (Some now)).

(** [suggestOptimization(category, type)]: the optimization is pushed, then
    applied when it is safe; applying it changes the object pushed. *)
Definition suggestOptimization (st : State) (now : Z) (cat type : string)
    : Exc unit * State :=
  let optimization := mkOptimization cat type now false None in
  let st1 := set_optimizations st (optimizations st ++ [optimization]) in
  if isSafeOptimization optimization then
    match applyOptimization (strategies st1) now optimization with
    | Ok (strats', optimization') =>
        (Ok tt,
         set_optimizations (set_strategies st1 strats')
           (optimizations st ++ [optimization']))
    | Throw e => (Throw e, st1)
    end
  else (Ok tt, st1).

(** [detectUsagePatterns(key, category)]. *)
Definition detectUsagePatterns (st : State) (now : Z) (key cat : string)
    : Exc unit * State :=
  let hitRate :=
    num_div (num_of_Z (Z.of_nat (hits (metrics st))))
      (num_of_Z (Z.of_nat (totalRequests (metrics st)))) in
  and_then
    (if num_lt hitRate (Fin 0.7)
     then suggestOptimization st now cat "increase_ttl"
     else (Ok tt, st))
    (fun st =>
       if num_gt (num_of_Z (Z.of_nat (evictions (metrics st))))
            (num_mul (num_of_Z (Z.of_nat (hits (metrics st)))) (Fin 0.1))
       then suggestOptimization st now cat "increase_size"
       else (Ok tt, st)).

(** [updateCursorAIPatterns(key, action, category)]. *)
Definition updateCursorAIPatterns (st : State) (now : Z) (key action cat : string)
    : Exc unit * State :=
  if negb (learning st) then (Ok tt, st)
  else
    let patternKey := cat +:+ ":" +:+ action in
    let current := default 0 (patterns st !! patternKey) in
    detectUsagePatterns
      (set_patterns st (<[patternKey := current + 1]> (patterns st))) now key cat.

(** [set(key, data, category)]. *)
Definition set (st : State) (now : Z) (key : string) (d : D) (cat : string)
    : Exc unit * State :=
  let found :=
    match alist_get cat (strategies st) with
    | Some s => Some s
    | None => alist_get "streamers" (strategies st)
    end in
  match found with
  | None =>
      (Throw (new_TypeError "Cannot read properties of undefined (reading 'ttl')"), st)
  | Some s =>
      let cacheEntry := mkEntry d now (ttl s * 1000) cat (priority s) 0 now in
      let st1 :=
        if Qle_bool (maxSize s) (inject_Z (Z.of_nat (length (cache st))))
        then evictLeastUsed st cat else st in
      let st2 := set_cache st1 (alist_set key cacheEntry (cache st1)) in
      updateCursorAIPatterns st2 now key "set" cat
  end.

(** [get(key, fetcher, category)]; [now] is the clock when the method is
    entered and [now'] the clock once the fetcher has settled, no other
    method of the instance running in between.  The [catch] around the
    fetcher logs and rethrows. *)
Definition get (st : State) (now now' : Z) (key : string)
    (fetcher : unit -> Exc D) (cat : string) : Exc D * State :=
  let m := metrics st in
  let st := set_metrics st (mkMetrics (hits m) (misses m) (evictions m)
                              (S (totalRequests m))) in
  let miss (st : State) : Exc D * State :=
    let m := metrics st in
    let st := set_metrics st (mkMetrics (hits m) (S (misses m)) (evictions m)
                                (totalRequests m)) in
    and_then (updateCursorAIPatterns st now key "miss" cat) (fun st =>
      match fetcher tt with
      | Ok d => and_then (set st now' key d cat) (fun st => (Ok d, st))
      | Throw error => (Throw error, st)
      end) in
  match alist_get key (cache st) with
  | Some cached =>
      if negb (isExpired now cached) then
        let m := metrics st in
        let st := set_metrics st (mkMetrics (S (hits m)) (misses m) (evictions m)
                                    (totalRequests m)) in
        and_then (updateCursorAIPatterns st now key "hit" cat)
          (fun st => (Ok (data cached), st))
      else miss st
  | None => miss st
  end.

(** One turn of the loop of [performIntelligentOptimization]. *)
Definition optimize_category (now : Z) (r : Exc unit * State) (cat : string)
    : Exc unit * State :=
  and_then r (fun st =>
    let categoryHits := default 0 (patterns st !! (cat +:+ ":hit")) in
    let categoryMisses := default 0 (patterns st !! (cat +:+ ":miss")) in
    let ratio :=
      num_div (num_of_Z (Z.of_nat categoryHits))
        (num_of_Z (Z.of_nat (categoryHits + categoryMisses))) in
    let categoryHitRate := if truthy (JNum ratio) then ratio else Fin 0 in
    if num_lt categoryHitRate (Fin 0.6)
    then suggestOptimization st now cat "increase_ttl"
    else (Ok tt, st)).

(** [performIntelligentOptimization()], which the timer of the constructor
    runs every five minutes: one turn for each key of [this.strategies]. *)
Definition performIntelligentOptimization (st : State) (now : Z) : Exc unit * State :=
  fold_left (optimize_category now) (map fst (strategies st)) (Ok tt, st).

(** [clear()]. *)
Definition clear (st : State) : State :=
  set_metrics (set_cache st []) (mkMetrics 0 0 0 0).

(** What can happen to an instance: calls of [get], [set] and [clear], and
    runs of the timer. *)
Inductive Op : Type :=
| OpGet (now now' : Z) (key : string) (fetcher : unit -> Exc D) (cat : string)
| OpSet (now : Z) (key : string) (d : D) (cat : string)
| OpTimer (now : Z)
| OpClear.

Definition run_op (st : State) (o : Op) : State :=
  match o with
  | OpGet now now' key fetcher cat => snd (get st now now' key fetcher cat)
  | OpSet now key d cat => snd (set st now key d cat)
  | OpTimer now => snd (performIntelligentOptimization st now)
  | OpClear => clear st
  end.

Definition run_ops (st : State) (os : list Op) : State := fold_left run_op os st.

(** [this.strategies] is a plain object: a category that names a property
    every object inherits from [Object.prototype] finds that property, not
    [undefined].  The lookups above are those of the other categories. *)
Definition Object_prototype_names : list string :=
  ["constructor"; "__proto__"; "hasOwnProperty"; "isPrototypeOf";
   "propertyIsEnumerable"; "toLocaleString"; "toString"; "valueOf";
   "__defineGetter__"; "__defineSetter__"; "__lookupGetter__"; "__lookupSetter__"].

(** A category under which the strategies of the constructor have nothing,
    own or inherited. *)
Definition no_strategy (cat : string) : bool :=
  negb (existsb (String.eqb cat) (map fst initial_strategies ++ Object_prototype_names)).

(** What happens to an instance that is only asked, through [get], for
    categories without a strategy. *)
Definition foreign_op (o : Op) : bool :=
  match o with
  | OpGet _ _ _ _ cat => no_strategy cat
  | OpSet _ _ _ _ => false
  | OpTimer _ => true
  | OpClear => true
  end.

End Cache.

End IntelligentCache.

(** ** Predicates used in the statements *)

(** Earnings the route validator accepts: a finite number from 0 to
    1,000,000. *)
Definition earnings_accepted (v : JsValue) : Prop :=
  exists q : Q, v = JNum (Fin q) /\ (0 <= q)%Q /\ (q <= 1000000)%Q.

(** What holds of every result the route validator builds. *)
Definition result_wf (r : ValidationResult) : Prop :=
  (isValid r = true <-> errors r = []) /\
  level_in_range (sd_level (correctedData r)) /\
  (isValid r = true -> earnings_accepted (sd_earnings (correctedData r))).

Definition cache_wf (cache : gmap string Route.CacheEntry) : Prop :=
  map_Forall (fun _ e => result_wf (Route.ce_result e)) cache.

(** One of the level's rates of the validators' table. *)
Definition is_rate (r : Q) : Prop :=
  (r = 0.05 \/ r = 0.10 \/ r = 0.15 \/ r = 0.20 \/ r = 0.25)%Q.

(** The reasons [validateEarnings] has to reject a value. *)
Definition not_a_number (v : JsValue) : Prop := typeof v <> TNumber.
Definition is_NaN (v : JsValue) : Prop := v = JNum NaN.
Definition is_negative (v : JsValue) : Prop :=
  exists n, v = JNum n /\ num_lt n (Fin 0) = true.
Definition exceeds_limit (v : JsValue) : Prop :=
  exists n, v = JNum n /\ num_gt n (Fin 1000000) = true.

Section RoutePredicates.
Context {E : Engine}.

(** The reasons an id is malformed: missing or not a string, empty once
    trimmed, or holding a character outside [[a-zA-Z0-9_-]]. *)
Definition malformed_id (id : JsValue) : Prop :=
  typeof id <> TString \/
  (exists s, id = JStr s /\ trim s = "") \/
  (exists s c, id = JStr s /\ In c (list_ascii_of_string s) /\ Route.id_char c = false).

(** What happens to a validator between two calls. *)
Inductive CacheOp : Type :=
| OpValidate (now now' : Z) (sd : StreamerData)
| OpClear (now : Z).

Definition run_op (cache : gmap string Route.CacheEntry) (o : CacheOp)
    : gmap string Route.CacheEntry :=
  match o with
  | OpValidate now now' sd => snd (Route.validateStreamerData cache now now' sd)
  | OpClear now => Route.clearExpiredCache cache now
  end.

Definition run_ops (ops : list CacheOp) (cache : gmap string Route.CacheEntry)
    : gmap string Route.CacheEntry :=
  fold_left run_op ops cache.

End RoutePredicates.

(** The operation reads the clock inside the expiry window of an entry
    stamped [ts]. *)
Definition within_window (ts : Z) (o : CacheOp) : Prop :=
  match o with
  | OpValidate now _ _ => (now - ts < Route.cacheExpiry)%Z
  | OpClear now => (now - ts < Route.cacheExpiry)%Z
  end.

(** The classifier as the specification words it: substring tests on the
    lowered message, in a fixed order. *)
Definition contains_any (m : string) (needles : list string) : bool :=
  existsb (str_includes m) needles.

Definition classify_by_text (m : string) : Route.ErrorType :=
  if contains_any m ["network"; "connection"; "timeout"] then Route.NETWORK_ERROR
  else if contains_any m ["api"; "http"; "500"; "404"] then Route.API_ERROR
  else if contains_any m ["validation"; "invalid"] then Route.VALIDATION_ERROR
  else if contains_any m ["auth"; "unauthorized"] then Route.AUTH_ERROR
  else Route.UNKNOWN_ERROR.

(** Every query parameter of the request is written on the URL. *)
Definition forwards_all_params (request : Route.Request) (url : string) : Prop :=
  forall kv : string * string,
    In kv (Route.req_query request) -> In kv (Route.url_searchParams url).

(** The environment with another [fetch]. *)
Definition with_fetch (env : Route.Env)
    (f : Route.FetchCall -> Exc Route.FetchResponse) : Route.Env :=
  Route.mkEnv f (Route.intelligentCache_get env) (Route.executeWithOptimization env)
    (Route.clock env) (Route.random_suffix env).

(** Counting the events of a call. *)
Fixpoint count_events (p : NetworkResilience.Event -> bool)
    (evs : list NetworkResilience.Event) : nat :=
  match evs with
  | [] => 0
  | ev :: rest => (if p ev then 1 else 0) + count_events p rest
  end.

(** An attempt: an invocation or a refusal by the open breaker. *)
Definition is_attempt (ev : NetworkResilience.Event) : bool :=
  negb (NetworkResilience.is_sleep ev).

Section BatchPredicates.
Context {E : Engine}.

(** Two heaps that hold, at every address, objects with the same id and the
    same verdict. *)
Definition same_verdicts (h1 h2 : gmap nat StreamerData) : Prop :=
  forall a : nat,
    match h1 !! a, h2 !! a with
    | Some x, Some y =>
        sd_id x = sd_id y /\
        isValid (CommissionValidatorJs.validateStreamerData x)
        = isValid (CommissionValidatorJs.validateStreamerData y)
    | None, None => True
    | _, _ => False
    end.

(** What the result at one place of the batch says about the object the
    array holds there, as it was before the call. *)
Definition batch_result_of (heap : gmap nat StreamerData) (a : nat)
    (r : CommissionValidatorJs.BatchResult) : Prop :=
  exists sd : StreamerData,
    heap !! a = Some sd /\
    CommissionValidatorJs.br_streamerId r = sd_id sd /\
    CommissionValidatorJs.success (CommissionValidatorJs.br_result r)
    = isValid (CommissionValidatorJs.validateStreamerData sd).

End BatchPredicates.

(** How many calls of a list satisfy a test. *)
Definition count_calls {C : Type} (p : C -> bool) (cs : list C) : nat :=
  length (List.filter p cs).

Section CachePredicates.
Context {D : Type}.

(** An instance of the cache that has stored nothing and served nothing,
    with the strategies under the keys the constructor gave them. *)
Definition cache_unused (st : IntelligentCache.State (D := D)) : Prop :=
  IntelligentCache.cache st = [] /\
  IntelligentCache.hits (IntelligentCache.metrics st) = 0 /\
  IntelligentCache.learning st = true /\
  map fst (IntelligentCache.strategies st)
  = map fst (IntelligentCache.initial_strategies).

(** The strategies [s'] are those of [s] after some optimizations: the same
    keys in the same order, every lifetime and size at least what it was and
    within the caps, the rest unchanged. *)
Definition strategies_grown (s s' : list (string * IntelligentCache.Strategy)) : Prop :=
  Forall2
    (fun a b =>
       fst a = fst b /\
       (0 <= IntelligentCache.ttl (snd a))%Q /\
       (0 <= IntelligentCache.maxSize (snd a))%Q /\
       (IntelligentCache.ttl (snd a) <= IntelligentCache.ttl (snd b))%Q /\
       (IntelligentCache.ttl (snd b) <= 3600)%Q /\
       (IntelligentCache.maxSize (snd a) <= IntelligentCache.maxSize (snd b))%Q /\
       (IntelligentCache.maxSize (snd b) <= 5000)%Q /\
       IntelligentCache.priority (snd a) = IntelligentCache.priority (snd b) /\
       IntelligentCache.strategy (snd a) = IntelligentCache.strategy (snd b))
    s s'.

(** What the learning part of the cache leaves alone: the entries, the
    metrics and the switch, while the strategies only grow. *)
Definition learning_frame (st st' : IntelligentCache.State (D := D)) : Prop :=
  IntelligentCache.cache st' = IntelligentCache.cache st /\
  IntelligentCache.metrics st' = IntelligentCache.metrics st /\
  IntelligentCache.learning st' = IntelligentCache.learning st /\
  map fst (IntelligentCache.strategies st') = map fst (IntelligentCache.strategies st) /\
  forall s0, strategies_grown s0 (IntelligentCache.strategies st) ->
             strategies_grown s0 (IntelligentCache.strategies st').

(** An operation whose category is not a name inherited from
    [Object.prototype]. *)
Definition plain_op (o : IntelligentCache.Op (D := D)) : bool :=
  match o with
  | IntelligentCache.OpGet _ _ _ _ cat | IntelligentCache.OpSet _ _ _ cat =>
      negb (existsb (String.eqb cat) IntelligentCache.Object_prototype_names)
  | IntelligentCache.OpTimer _ => true
  | IntelligentCache.OpClear => true
  end.

End CachePredicates.

(** * Properties *)

(** ** Numbers and levels *)

Lemma no_errors_nil (errs : list string) : no_errors errs = true <-> errs = [].
Proof.
  unfold no_errors. destruct errs; simpl; split; congruence.
Qed.

Lemma Qeq_bool_int (q : Q) (n k : Z) :
  q == inject_Z n -> Qeq_bool q (inject_Z k) = (n =? k)%Z.
Proof.
  intros Hq. destruct (Z.eqb_spec n k) as [->|Hne].
  - now apply Qeq_bool_iff.
  - destruct (Qeq_bool q (inject_Z k)) eqn:Hb; [|reflexivity].
    apply Qeq_bool_iff in Hb. rewrite Hq in Hb.
    unfold Qeq in Hb. cbn in Hb. lia.
Qed.

Lemma Qlt_bool_int (q : Q) (n k : Z) :
  q == inject_Z n -> Qlt_bool q (inject_Z k) = (n <? k)%Z.
Proof.
  intros Hq. unfold Qlt_bool.
  destruct (Z.ltb_spec n k) as [Hlt|Hge].
  - destruct (Qle_bool (inject_Z k) q) eqn:Hb; [|reflexivity].
    apply Qle_bool_iff in Hb. rewrite Hq in Hb.
    rewrite <- Zle_Qle in Hb. lia.
  - assert (Qle_bool (inject_Z k) q = true) as ->; [|reflexivity].
    apply Qle_bool_iff. rewrite Hq. now rewrite <- Zle_Qle.
Qed.

Lemma Qlt_bool_int_l (q : Q) (n k : Z) :
  q == inject_Z n -> Qlt_bool (inject_Z k) q = (k <? n)%Z.
Proof.
  intros Hq. unfold Qlt_bool.
  destruct (Z.ltb_spec k n) as [Hlt|Hge].
  - destruct (Qle_bool q (inject_Z k)) eqn:Hb; [|reflexivity].
    apply Qle_bool_iff in Hb. rewrite Hq in Hb.
    rewrite <- Zle_Qle in Hb. lia.
  - assert (Qle_bool q (inject_Z k) = true) as ->; [|reflexivity].
    apply Qle_bool_iff. rewrite Hq. now rewrite <- Zle_Qle.
Qed.

Lemma level_in_range_intro (q : Q) (n : Z) :
  (1 <= n <= 5)%Z -> q == inject_Z n -> level_in_range (JNum (Fin q)).
Proof. intros Hn Hq. exists q. split; [reflexivity|]. now exists n. Qed.

Lemma includes_validLevels (v : JsValue) :
  array_includes validLevels v = true <-> level_in_range v.
Proof.
  split.
  - destruct v as [| |b|[| | |q]|s]; try discriminate.
    unfold array_includes, validLevels. cbn [existsb same_value_zero strict_eq num_eq].
    intros H.
    repeat (apply orb_prop in H as [H|H]); try discriminate;
      apply Qeq_bool_iff in H; symmetry in H.
    + now apply (level_in_range_intro q 1).
    + now apply (level_in_range_intro q 2).
    + now apply (level_in_range_intro q 3).
    + now apply (level_in_range_intro q 4).
    + now apply (level_in_range_intro q 5).
  - intros (q & -> & n & Hn & Hq).
    unfold array_includes, validLevels. cbn [existsb same_value_zero strict_eq num_eq].
    assert (Hk : forall k : Z, Qeq_bool (inject_Z k) q = (n =? k)%Z).
    { intros k. rewrite <- (Qeq_bool_int q n k Hq).
      destruct (Qeq_bool q (inject_Z k)) eqn:Hb.
      - apply Qeq_bool_iff. symmetry. now apply Qeq_bool_iff.
      - destruct (Qeq_bool (inject_Z k) q) eqn:Hb'; [|reflexivity].
        apply Qeq_bool_iff in Hb'. symmetry in Hb'. apply Qeq_bool_iff in Hb'. congruence. }
    change (Qeq_bool 1 q) with (Qeq_bool (inject_Z 1) q).
    change (Qeq_bool 2 q) with (Qeq_bool (inject_Z 2) q).
    change (Qeq_bool 3 q) with (Qeq_bool (inject_Z 3) q).
    change (Qeq_bool 4 q) with (Qeq_bool (inject_Z 4) q).
    change (Qeq_bool 5 q) with (Qeq_bool (inject_Z 5) q).
    rewrite !Hk.
    assert (n = 1 \/ n = 2 \/ n = 3 \/ n = 4 \/ n = 5)%Z as [->|[->|[->|[->| ->]]]] by lia;
      reflexivity.
Qed.

Lemma level_in_range_truthy (v : JsValue) : level_in_range v -> truthy v = true.
Proof.
  intros (q & -> & n & Hn & Hq). cbn [truthy].
  change (Qeq_bool q 0) with (Qeq_bool q (inject_Z 0)).
  rewrite (Qeq_bool_int q n 0 Hq).
  destruct (Z.eqb_spec n 0); [lia|reflexivity].
Qed.

Lemma level_lookup_in_range (r1 r2 r3 r4 r5 : Q) (v : JsValue) :
  level_in_range v ->
  exists r, level_lookup r1 r2 r3 r4 r5 v = JNum (Fin r) /\
            (r = r1 \/ r = r2 \/ r = r3 \/ r = r4 \/ r = r5).
Proof.
  intros (q & -> & n & Hn & Hq). unfold level_lookup.
  change (Qeq_bool q 1) with (Qeq_bool q (inject_Z 1)).
  change (Qeq_bool q 2) with (Qeq_bool q (inject_Z 2)).
  change (Qeq_bool q 3) with (Qeq_bool q (inject_Z 3)).
  change (Qeq_bool q 4) with (Qeq_bool q (inject_Z 4)).
  change (Qeq_bool q 5) with (Qeq_bool q (inject_Z 5)).
  rewrite !(Qeq_bool_int q n _ Hq).
  assert (n = 1 \/ n = 2 \/ n = 3 \/ n = 4 \/ n = 5)%Z as [->|[->|[->|[->| ->]]]] by lia;
    cbn; eexists; (split; [reflexivity|]); tauto.
Qed.

Lemma levelMultipliers_in_range (v : JsValue) :
  level_in_range v -> exists r, levelMultipliers v = JNum (Fin r) /\ is_rate r.
Proof. apply level_lookup_in_range. Qed.

Lemma is_rate_truthy (r : Q) : is_rate r -> truthy (JNum (Fin r)) = true.
Proof. intros [->|[->|[->|[->| ->]]]]; reflexivity. Qed.

Section ValidatorFacts.
Context {E : Engine}.

Lemma suggestLevel_in_range (earnings : JsValue) :
  level_in_range (suggestLevelByEarnings earnings).
Proof.
  unfold suggestLevelByEarnings.
  repeat match goal with |- context [if ?b then _ else _] => destruct b end.
  - now apply (level_in_range_intro 5 5).
  - now apply (level_in_range_intro 4 4).
  - now apply (level_in_range_intro 3 3).
  - now apply (level_in_range_intro 2 2).
  - now apply (level_in_range_intro 1 1).
Qed.

Lemma validateAndCorrectLevel_in_range (level earnings : JsValue) :
  level_in_range (Route.validateAndCorrectLevel level earnings).
Proof.
  unfold Route.validateAndCorrectLevel.
  destruct (truthy level && array_includes validLevels level) eqn:Hb.
  - apply andb_prop in Hb as [_ Hb]. now apply includes_validLevels.
  - apply suggestLevel_in_range.
Qed.

End ValidatorFacts.

(** ** The cached validator of the route *)

Section RouteValidator.
Context {E : Engine}.

Lemma validateEarnings_isValid (v : JsValue) :
  Route.ev_isValid (Route.validateEarnings v) = true <->
  Route.ev_errors (Route.validateEarnings v) = [].
Proof. unfold Route.validateEarnings. cbn. apply no_errors_nil. Qed.

Lemma validateEarnings_accepted (v : JsValue) :
  Route.ev_errors (Route.validateEarnings v) = [] -> earnings_accepted v.
Proof.
  unfold Route.validateEarnings. cbn.
  destruct v as [| |b|[| | |q]|s]; cbn; try discriminate.
  unfold Qlt_bool.
  destruct (Qle_bool 0 q) eqn:H0; cbn; [|discriminate].
  destruct (Qle_bool q 1000000) eqn:H1; cbn; [|discriminate].
  intros _. exists q. split; [reflexivity|].
  split; now apply Qle_bool_iff.
Qed.

Lemma validate_uncached_wf (sd : StreamerData) :
  result_wf (Route.validate_uncached sd).
Proof.
  unfold result_wf, Route.validate_uncached.
  cbn -[Route.validateEarnings Route.validateAndCorrectLevel Route.isValidId].
  split; [apply no_errors_nil|]. split.
  - apply validateAndCorrectLevel_in_range.
  - intros Hv. apply no_errors_nil in Hv.
    apply app_eq_nil in Hv as [_ Hv].
    assert (Hsame : forall (b : bool) l,
               sd_earnings (if b then set_level sd l else sd) = sd_earnings sd)
      by (intros [] ?; reflexivity).
    rewrite Hsame in *.
    apply validateEarnings_accepted.
    destruct (Route.ev_isValid (Route.validateEarnings (sd_earnings sd))) eqn:Hb.
    + now apply validateEarnings_isValid.
    + exact Hv.
Qed.

Lemma validateStreamerData_wf (cache : gmap string Route.CacheEntry)
    (now now' : Z) (sd : StreamerData) :
  cache_wf cache ->
  result_wf (fst (Route.validateStreamerData cache now now' sd)) /\
  cache_wf (snd (Route.validateStreamerData cache now now' sd)).
Proof.
  intros Hwf. unfold Route.validateStreamerData.
  destruct (cache !! Route.cacheKey sd) as [cached|] eqn:Hlook.
  - destruct (now - Route.ce_timestamp cached <? Route.cacheExpiry)%Z; cbn.
    + split; [|exact Hwf]. exact (Hwf _ _ Hlook).
    + split; [apply validate_uncached_wf|].
      apply map_Forall_insert_2; [apply validate_uncached_wf|exact Hwf].
  - cbn. split; [apply validate_uncached_wf|].
    apply map_Forall_insert_2; [apply validate_uncached_wf|exact Hwf].
Qed.

Lemma reachable_wf (cache : gmap string Route.CacheEntry) :
  Route.reachable cache -> cache_wf cache.
Proof.
  induction 1 as [|cache now now' sd _ IH|cache now _ IH].
  - apply map_Forall_empty.
  - now apply validateStreamerData_wf.
  - unfold Route.clearExpiredCache.
    intros k e Hk. apply map_lookup_filter_Some in Hk as [Hk _]. exact (IH k e Hk).
Qed.

Lemma all_chars_false (p : ascii -> bool) (s : string) (c : ascii) :
  In c (list_ascii_of_string s) -> p c = false -> Route.all_chars p s = false.
Proof.
  induction s as [|d s IH]; cbn; [contradiction|].
  intros [->|Hin] Hc.
  - now rewrite Hc.
  - rewrite (IH Hin Hc). apply andb_false_r.
Qed.

Lemma isValidId_malformed (id : JsValue) :
  malformed_id id -> Route.isValidId id = false.
Proof.
  intros [Hty|[(s & -> & Ht)|(s & c & -> & Hin & Hc)]].
  - destruct id; try reflexivity. now contradiction Hty.
  - cbn. now rewrite Ht.
  - cbn. unfold Route.id_regex_test. rewrite (all_chars_false _ s c Hin Hc).
    now rewrite !andb_false_r.
Qed.

Lemma validate_uncached_flags_id (sd : StreamerData) :
  Route.isValidId (sd_id sd) = false ->
  In Route.ID_ERROR (errors (Route.validate_uncached sd)) /\
  isValid (Route.validate_uncached sd) = false.
Proof.
  intros Hid. unfold Route.validate_uncached.
  cbn -[Route.validateEarnings Route.validateAndCorrectLevel Route.isValidId].
  rewrite Hid. split; [now left|reflexivity].
Qed.

Lemma validateStreamerData_miss (cache : gmap string Route.CacheEntry)
    (now now' : Z) (sd : StreamerData) :
  Route.served_from_cache cache now sd = false ->
  Route.validateStreamerData cache now now' sd =
    (Route.validate_uncached sd,
     <[Route.cacheKey sd := Route.mkEntry (Route.validate_uncached sd) now']> cache).
Proof.
  unfold Route.served_from_cache, Route.validateStreamerData.
  destruct (cache !! Route.cacheKey sd) as [cached|]; [|reflexivity].
  now intros ->.
Qed.

Lemma validateStreamerData_hit (cache : gmap string Route.CacheEntry)
    (now now' : Z) (sd : StreamerData) (cached : Route.CacheEntry) :
  cache !! Route.cacheKey sd = Some cached ->
  (now - Route.ce_timestamp cached < Route.cacheExpiry)%Z ->
  Route.validateStreamerData cache now now' sd = (Route.ce_result cached, cache).
Proof.
  intros Hlook Hfresh. unfold Route.validateStreamerData. rewrite Hlook.
  now apply Z.ltb_lt in Hfresh as ->.
Qed.

(** After a call, the cache holds the returned result under the key. *)
Lemma validateStreamerData_stored (cache : gmap string Route.CacheEntry)
    (now now' : Z) (sd : StreamerData) :
  exists e,
    snd (Route.validateStreamerData cache now now' sd) !! Route.cacheKey sd = Some e /\
    Route.ce_result e = fst (Route.validateStreamerData cache now now' sd) /\
    (Route.served_from_cache cache now sd = false -> Route.ce_timestamp e = now').
Proof.
  unfold Route.validateStreamerData, Route.served_from_cache.
  destruct (cache !! Route.cacheKey sd) as [cached|] eqn:Hlook.
  - destruct (now - Route.ce_timestamp cached <? Route.cacheExpiry)%Z; cbn.
    + exists cached. split; [exact Hlook|]. split; [reflexivity|discriminate].
    + eexists. split; [apply lookup_insert_eq|]. now split.
  - cbn. eexists. split; [apply lookup_insert_eq|]. now split.
Qed.

(** An entry survives whatever happens inside its expiry window. *)
Lemma run_ops_keeps_entry (ops : list CacheOp) (cache : gmap string Route.CacheEntry)
    (key : string) (e : Route.CacheEntry) :
  cache !! key = Some e ->
  Forall (within_window (Route.ce_timestamp e)) ops ->
  run_ops ops cache !! key = Some e.
Proof.
  revert cache. induction ops as [|o ops IH]; intros cache Hlook Hall; [exact Hlook|].
  apply Forall_cons in Hall as [Ho Hall]. cbn. apply IH; [|exact Hall].
  destruct o as [now now' sd|now]; cbn in *.
  - unfold Route.validateStreamerData.
    destruct (decide (Route.cacheKey sd = key)) as [<-|Hne].
    + rewrite Hlook. apply Z.ltb_lt in Ho. rewrite Ho. exact Hlook.
    + destruct (cache !! Route.cacheKey sd) as [cached|].
      * destruct (now - Route.ce_timestamp cached <? Route.cacheExpiry)%Z; cbn;
          [exact Hlook|]. now rewrite lookup_insert_ne.
      * cbn. now rewrite lookup_insert_ne.
  - unfold Route.clearExpiredCache. apply map_lookup_filter_Some. split; [exact Hlook|].
    cbn. apply negb_true_iff. apply Z.ltb_ge. lia.
Qed.

End RouteValidator.

(** ** The validators of commission-validator.js and streamer-validator.js *)

Section JsValidators.
Context {E : Engine}.

(** The three ways through the level block and the two through the country
    block of [validateStreamerData]. *)
Ltac js_validate_cases sd :=
  unfold CommissionValidatorJs.validateStreamerData;
  destruct (negb (truthy (sd_level sd)));
    [|destruct (negb (array_includes validLevels (sd_level sd)))];
    cbn [set_level sd_earnings sd_country];
    destruct (negb (truthy (sd_country sd))).

Lemma js_validate_level (sd : StreamerData) :
  truthy (sd_level sd) = true ->
  level_in_range (sd_level (correctedData (CommissionValidatorJs.validateStreamerData sd))).
Proof.
  intros Ht. unfold CommissionValidatorJs.validateStreamerData. rewrite Ht. cbn [negb].
  destruct (array_includes validLevels (sd_level sd)) eqn:Hinc; cbn [negb].
  - apply includes_validLevels in Hinc.
    destruct (negb (truthy (sd_country sd))); exact Hinc.
  - cbn [set_level sd_country].
    destruct (negb (truthy (sd_country sd))); cbn; apply suggestLevel_in_range.
Qed.

Lemma js_validate_errors (sd : StreamerData) :
  errors (CommissionValidatorJs.validateStreamerData sd) =
    (if negb (truthy (sd_id sd)) || negb (typeof_is (sd_id sd) TString)
     then [CommissionValidatorJs.ID_ERROR] else []) ++
    (if negb (truthy (sd_level sd)) then [CommissionValidatorJs.LEVEL_ERROR] else []) ++
    (if negb (truthy (sd_earnings sd)) || lt_lit (sd_earnings sd) 0
     then [CommissionValidatorJs.EARNINGS_ERROR] else []).
Proof.
  now js_validate_cases sd.
Qed.

Lemma js_validate_isValid (sd : StreamerData) :
  isValid (CommissionValidatorJs.validateStreamerData sd) =
  no_errors (errors (CommissionValidatorJs.validateStreamerData sd)).
Proof.
  now js_validate_cases sd.
Qed.

Lemma js_validate_earnings (sd : StreamerData) :
  sd_earnings (correctedData (CommissionValidatorJs.validateStreamerData sd)) = sd_earnings sd.
Proof.
  now js_validate_cases sd.
Qed.

Lemma js_valid_level_truthy (sd : StreamerData) :
  isValid (CommissionValidatorJs.validateStreamerData sd) = true ->
  truthy (sd_level sd) = true.
Proof.
  rewrite js_validate_isValid, js_validate_errors. intros Hv.
  apply no_errors_nil in Hv.
  apply app_eq_nil in Hv as [_ Hv]. apply app_eq_nil in Hv as [Hv _].
  destruct (truthy (sd_level sd)); [reflexivity|discriminate].
Qed.

Lemma js_rejects_earnings (sd : StreamerData) :
  truthy (sd_earnings sd) = false \/ lt_lit (sd_earnings sd) 0 = true ->
  In CommissionValidatorJs.EARNINGS_ERROR
     (errors (CommissionValidatorJs.validateStreamerData sd)) /\
  isValid (CommissionValidatorJs.validateStreamerData sd) = false.
Proof.
  intros H. rewrite js_validate_isValid, js_validate_errors.
  assert (negb (truthy (sd_earnings sd)) || lt_lit (sd_earnings sd) 0 = true) as ->.
  { destruct H as [-> | ->]; [reflexivity|apply orb_true_r]. }
  split.
  - apply in_or_app. right. apply in_or_app. right. now left.
  - destruct (no_errors _) eqn:Hn; [|reflexivity].
    apply no_errors_nil in Hn.
    apply app_eq_nil in Hn as [_ Hn]. apply app_eq_nil in Hn as [_ Hn]. discriminate.
Qed.

Lemma streamer_level_kept (sd : StreamerData) :
  level_in_range (sd_level sd) ->
  StreamerValidatorJs.validateStreamer_level sd = ([], sd_level sd).
Proof.
  intros Hr. unfold StreamerValidatorJs.validateStreamer_level.
  rewrite (level_in_range_truthy _ Hr).
  destruct Hr as (q & Hq & n & Hn & Hqn). rewrite Hq.
  unfold lt_lit, gt_lit, num_gt. cbn [ToNumber num_lt num_of_Z negb orb].
  rewrite (Qlt_bool_int q n 1 Hqn), (Qlt_bool_int_l q n 5 Hqn).
  destruct (Z.ltb_spec n 1); [lia|]. destruct (Z.ltb_spec 5 n); [lia|]. reflexivity.
Qed.

End JsValidators.

(** ** Claims about the validators *)

Section ValidatorClaims.
Context {E : Engine}.

(** C3, as amended.  The route validator, started with an empty cache,
    always answers with a [correctedData.level] among the integers 1 to 5.
    The validator of commission-validator.js does so whenever the given
    level is not missing (falsy), in particular whenever it accepts the
    record; a missing level is reported as an error and left as it is.  The
    level block of [validateStreamer] replaces a level that is missing,
    below 1 or above 5 by 1 and keeps a level that is an integer from 1 to
    5. *)
Theorem corrected_level_in_range :
  (forall (cache : gmap string Route.CacheEntry) (now now' : Z) (sd : StreamerData),
     Route.reachable cache ->
     level_in_range
       (sd_level (correctedData (fst (Route.validateStreamerData cache now now' sd))))) /\
  (forall sd : StreamerData,
     truthy (sd_level sd) = true ->
     level_in_range
       (sd_level (correctedData (CommissionValidatorJs.validateStreamerData sd)))) /\
  (forall sd : StreamerData,
     isValid (CommissionValidatorJs.validateStreamerData sd) = true ->
     level_in_range
       (sd_level (correctedData (CommissionValidatorJs.validateStreamerData sd)))) /\
  (forall sd : StreamerData,
     truthy (sd_level sd) = false \/ lt_lit (sd_level sd) 1 = true
       \/ gt_lit (sd_level sd) 5 = true ->
     snd (StreamerValidatorJs.validateStreamer_level sd) = JNum (Fin 1)) /\
  (forall sd : StreamerData,
     level_in_range (sd_level sd) ->
     snd (StreamerValidatorJs.validateStreamer_level sd) = sd_level sd).
Proof.
  repeat split.
  - intros cache now now' sd Hr.
    apply (validateStreamerData_wf cache now now' sd (reachable_wf cache Hr)).
  - apply js_validate_level.
  - intros sd Hv. apply js_validate_level. now apply js_valid_level_truthy.
  - intros sd H. unfold StreamerValidatorJs.validateStreamer_level.
    assert (negb (truthy (sd_level sd)) || lt_lit (sd_level sd) 1
              || gt_lit (sd_level sd) 5 = true) as ->; [|reflexivity].
    destruct H as [-> |[-> | ->]]; rewrite ?orb_true_r; reflexivity.
  - intros sd Hr. now rewrite streamer_level_kept.
Qed.


(** C9.  The route validator memoizes on the id and the earnings alone.
    After a call on [sd1] the cache holds the returned result under the key
    of [sd1], stamped with the time of that call when it was computed.  As
    long as every later use of the validator, and the second call itself,
    reads the clock inside the expiry window of that entry, a call on any
    [sd2] with the same id and the same earnings returns that result: the
    level of [sd2] has no influence. *)
Theorem memoized_on_id_and_earnings
    (cache : gmap string Route.CacheEntry) (t1 t1' t2 t2' : Z)
    (sd1 sd2 : StreamerData) (ops : list CacheOp) :
  sd_id sd1 = sd_id sd2 ->
  sd_earnings sd1 = sd_earnings sd2 ->
  exists e : Route.CacheEntry,
    snd (Route.validateStreamerData cache t1 t1' sd1) !! Route.cacheKey sd1 = Some e /\
    Route.ce_result e = fst (Route.validateStreamerData cache t1 t1' sd1) /\
    (Route.served_from_cache cache t1 sd1 = false -> Route.ce_timestamp e = t1') /\
    (Forall (within_window (Route.ce_timestamp e)) ops ->
     (t2 - Route.ce_timestamp e < Route.cacheExpiry)%Z ->
     fst (Route.validateStreamerData
            (run_ops ops (snd (Route.validateStreamerData cache t1 t1' sd1))) t2 t2' sd2)
     = fst (Route.validateStreamerData cache t1 t1' sd1)).
Proof.
  intros Hid Hearn.
  destruct (validateStreamerData_stored cache t1 t1' sd1) as (e & Hlook & Hres & Hts).
  exists e. repeat split; try assumption.
  intros Hops Hfresh.
  assert (Hkey : Route.cacheKey sd2 = Route.cacheKey sd1).
  { unfold Route.cacheKey. now rewrite Hid, Hearn. }
  pose proof (run_ops_keeps_entry ops _ _ e Hlook Hops) as Hkept.
  rewrite <- Hkey in Hkept.
  rewrite (validateStreamerData_hit _ t2 t2' sd2 e Hkept Hfresh). exact Hres.
Qed.

(** C10.  In commission-validator.js, earnings that are falsy (0 among
    them) or negative are rejected with the earnings error, and
    [calculateCommission] then answers [success: false] with a commission
    of 0 and the message built from the errors. *)
Theorem zero_earnings_rejected (sd : StreamerData) :
  truthy (sd_earnings sd) = false \/ lt_lit (sd_earnings sd) 0 = true ->
  In CommissionValidatorJs.EARNINGS_ERROR
     (errors (CommissionValidatorJs.validateStreamerData sd)) /\
  isValid (CommissionValidatorJs.validateStreamerData sd) = false /\
  CommissionValidatorJs.calculateCommission sd =
    CommissionValidatorJs.CommissionError
      (Some ("Datos de streamer inválidos: " +:+
             join ", " (errors (CommissionValidatorJs.validateStreamerData sd))))
      (Fin 0).
Proof.
  intros H. destruct (js_rejects_earnings sd H) as [Hin Hinv].
  repeat split; try assumption.
  unfold CommissionValidatorJs.calculateCommission,
    CommissionValidatorJs.calculateCommission_try.
  now rewrite Hinv.
Qed.

End ValidatorClaims.

(** ** Commission amounts *)

Section CommissionAmount.
Context {E : Engine}.

Lemma calculateCommissionAmount_finite (e r : Q) :
  Route.calculateCommissionAmount (Fin e) (Fin r) =
  Fin (inject_Z (Qfloor (e * r * 100 + (1 # 2))) / 100).
Proof. reflexivity. Qed.


End CommissionAmount.

(** ** Worked examples for the validators, on the reference engine *)



(** C3, the claim as stated fails: commission-validator.js reports a
    missing level as an error and leaves [correctedData.level] undefined. *)
Lemma corrected_level_missing_counterexample :
  let sd := mkStreamer (JStr "s1") JUndefined (JNum (Fin 100)) (JStr "Colombia") in
  errors (CommissionValidatorJs.validateStreamerData (E := reference_engine) sd) =
    [CommissionValidatorJs.LEVEL_ERROR] /\
  ~ level_in_range
      (sd_level (correctedData
         (CommissionValidatorJs.validateStreamerData (E := reference_engine) sd))).
Proof.
  split; [reflexivity|]. cbn. intros (q & Hq & _). discriminate.
Qed.

(** The level block of [validateStreamer] keeps a level inside the bounds
    that is not an integer. *)
Example validateStreamer_keeps_fractional_level :
  StreamerValidatorJs.validateStreamer_level (E := reference_engine)
    (mkStreamer (JStr "s1") (JNum (Fin 2.5)) (JNum (Fin 100)) (JStr "Colombia"))
  = ([], JNum (Fin 2.5)).
Proof. reflexivity. Qed.

Lemma corrected_level_in_range_witness :
  level_in_range
    (sd_level (correctedData (fst (Route.validateStreamerData (E := reference_engine)
       ∅ 0 0 (mkStreamer (JStr "s1") (JStr "gold") (JNum (Fin 700)) JUndefined))))) /\
  level_in_range
    (sd_level (correctedData (CommissionValidatorJs.validateStreamerData
       (E := reference_engine)
       (mkStreamer (JStr "s1") (JNum (Fin 9)) (JNum (Fin 700)) JUndefined)))) /\
  level_in_range
    (sd_level (correctedData (CommissionValidatorJs.validateStreamerData
       (E := reference_engine)
       (mkStreamer (JStr "s1") (JNum (Fin 3)) (JNum (Fin 700)) JUndefined)))) /\
  snd (StreamerValidatorJs.validateStreamer_level (E := reference_engine)
         (mkStreamer (JStr "s1") (JStr "7") (JNum (Fin 700)) JUndefined)) = JNum (Fin 1) /\
  snd (StreamerValidatorJs.validateStreamer_level (E := reference_engine)
         (mkStreamer (JStr "s1") (JNum (Fin 4)) (JNum (Fin 700)) JUndefined)) = JNum (Fin 4).
Proof.
  destruct (corrected_level_in_range (E := reference_engine)) as (H1 & H2 & H3 & H4 & H5).
  split; [|split; [|split; [|split]]].
  - apply H1. apply Route.reach_new.
  - apply H2. reflexivity.
  - apply H3. reflexivity.
  - apply H4. right. right. reflexivity.
  - apply (H5 (mkStreamer (JStr "s1") (JNum (Fin 4)) (JNum (Fin 700)) JUndefined)).
    now apply (level_in_range_intro 4 4).
Defined.



Lemma memoized_on_id_and_earnings_witness :
  let sd1 := mkStreamer (JStr "s1") (JNum (Fin 1)) (JNum (Fin 100)) JUndefined in
  let sd2 := mkStreamer (JStr "s1") (JNum (Fin 5)) (JNum (Fin 100)) JUndefined in
  let other := mkStreamer (JStr "s2") (JNum (Fin 2)) (JNum (Fin 50)) JUndefined in
  let ops := [OpValidate 10 10 other; OpClear 20] in
  fst (Route.validateStreamerData (E := reference_engine)
         (run_ops (E := reference_engine) ops
            (snd (Route.validateStreamerData (E := reference_engine) ∅ 0 0 sd1)))
         1000 1000 sd2)
  = fst (Route.validateStreamerData (E := reference_engine) ∅ 0 0 sd1).
Proof.
  intros sd1 sd2 other ops.
  destruct (memoized_on_id_and_earnings (E := reference_engine) ∅ 0 0 1000 1000
              sd1 sd2 ops eq_refl eq_refl) as (e & _ & _ & Hts & Hmain).
  specialize (Hts eq_refl).
  apply Hmain.
  - rewrite Hts. repeat constructor.
  - rewrite Hts. reflexivity.
Defined.

Lemma zero_earnings_rejected_witness :
  let sd := mkStreamer (JStr "s1") (JNum (Fin 1)) (JNum (Fin 0)) (JStr "Colombia") in
  CommissionValidatorJs.calculateCommission (E := reference_engine) sd =
    CommissionValidatorJs.CommissionError
      (Some "Datos de streamer inválidos: Ganancias deben ser un número positivo")
      (Fin 0).
Proof.
  intros sd.
  destruct (zero_earnings_rejected (E := reference_engine) sd) as (_ & _ & Heq).
  - left. reflexivity.
  - exact Heq.
Defined.

(** ** The error classifier *)

Lemma prefix_spec (n s : string) :
  String.prefix n s = true <-> exists post, s = n +:+ post.
Proof.
  revert s. induction n as [|c n IH]; intros s.
  - split; [intros _; now exists s|intros _; now destruct s].
  - destruct s as [|d s]; cbn.
    + split; [discriminate|intros (post & Hp); discriminate].
    + destruct (ascii_dec c d) as [->|Hne].
      * rewrite IH. split; intros (post & Hp); exists post;
          [now rewrite Hp|now injection Hp].
      * split; [discriminate|intros (post & Hp); injection Hp; intros; congruence].
Qed.

(** [str_includes] is the substring test. *)
Lemma str_includes_spec (s n : string) :
  str_includes s n = true <-> exists pre post, s = pre +:+ n +:+ post.
Proof.
  split.
  - induction s as [|c s IH]; cbn [str_includes]; intros H;
      apply orb_prop in H as [H|H].
    + apply prefix_spec in H as (post & ->). now exists "", post.
    + discriminate.
    + apply prefix_spec in H as (post & Hp). rewrite Hp. now exists "", post.
    + destruct (IH H) as (pre & post & ->). now exists (String c pre), post.
  - intros (pre & post & ->). induction pre as [|c pre IH].
    + assert (Hp : String.prefix n (n +:+ post) = true)
        by (apply prefix_spec; now exists post).
      change (str_includes (n +:+ post) n = true).
      destruct (n +:+ post); cbn [str_includes]; now rewrite Hp.
    + change (str_includes (String c (pre +:+ n +:+ post)) n = true).
      cbn [str_includes]. rewrite IH. apply orb_true_r.
Qed.

Section Classifier.
Context {E : Engine}.

(** C6.  [classifyError] is decided by the lowered message alone: it tests
    substrings in the fixed order network/connection/timeout, then
    api/http/500/404, then validation/invalid, then auth/unauthorized, and
    answers UNKNOWN_ERROR otherwise; two errors with the same message get the
    same class. *)
Theorem classifyError_by_message_text :
  (forall error : JsError,
     Route.classifyError error =
     classify_by_text
       (match e_message error with Some m => toLowerCase m | None => "" end)) /\
  (forall error error' : JsError,
     e_message error = e_message error' ->
     Route.classifyError error = Route.classifyError error') /\
  (forall m needle : string,
     str_includes m needle = true <-> exists pre post, m = pre +:+ needle +:+ post).
Proof.
  split; [|split].
  - intros error. unfold Route.classifyError, Route.lowered_message, classify_by_text,
      contains_any. cbn [existsb]. now rewrite !orb_false_r, !orb_assoc.
  - intros error error' Hm. unfold Route.classifyError, Route.lowered_message.
    now rewrite Hm.
  - apply str_includes_spec.
Qed.

End Classifier.

Lemma classifyError_by_message_text_witness :
  Route.classifyError (E := reference_engine)
    (mkError "TypeError" (Some "Network request failed: HTTP 500"))
  = Route.classifyError (E := reference_engine)
      (mkError "Error" (Some "Network request failed: HTTP 500")) /\
  Route.classifyError (E := reference_engine)
    (mkError "Error" (Some "Network request failed: HTTP 500")) = Route.NETWORK_ERROR.
Proof.
  destruct (classifyError_by_message_text (E := reference_engine)) as (H1 & H2 & _).
  split.
  - apply H2. reflexivity.
  - rewrite H1. reflexivity.
Defined.

(** ** The proxy handlers *)

Section ProxyHandlers.
Context {E : Engine}.


(** C4.  Whatever is thrown inside the [try] block of a handler is caught:
    the handler answers with status 500 and a body holding [success: false]
    and the message of the error (GET adds the error id and class).  When
    nothing is thrown the answer has status 200 and [success: true].  For
    POST the block throws exactly when reading the body, the fetch, the
    status test or reading the answer throws; for GET when the cache lookup
    around the fetch throws. *)
Theorem handlers_catch_errors (env : Route.Env) (request : Route.Request) :
  (forall e : JsError,
     Route.GET_try env request = Throw e ->
     Route.GET env request =
     Route.mkResponse 500
       (Route.mkBody false None (e_message e)
          (Some (Route.he_id (Route.handleError (Route.clock env 1)
                                (Route.random_suffix env) e)))
          (Some (Route.classifyError e)) (Route.clock env 2) None)) /\
  (forall r : Route.Response,
     Route.GET_try env request = Ok r ->
     Route.GET env request = r /\ Route.status r = 200%Z /\
     Route.success (Route.body r) = true /\ Route.error (Route.body r) = None) /\
  (forall e : JsError,
     Route.POST_try env request = Throw e ->
     Route.POST env request =
     Route.mkResponse 500
       (Route.mkBody false None (e_message e) None None (Route.clock env 0) None)) /\
  (forall r : Route.Response,
     Route.POST_try env request = Ok r ->
     Route.POST env request = r /\ Route.status r = 200%Z /\
     Route.success (Route.body r) = true /\ Route.error (Route.body r) = None) /\
  (forall e : JsError,
     Route.intelligentCache_get env
       ("gas_api:" +:+ Route.action_or (Route.req_query request) "health")
       (Route.GET_fetcher env request) "api" = Throw e ->
     Route.GET_try env request = Throw e) /\
  (forall e : JsError,
     Route.req_json request = Throw e -> Route.POST_try env request = Throw e) /\
  (forall (b : Route.Json) (e : JsError),
     Route.req_json request = Ok b ->
     Route.fetch env (Route.POST_fetch_call request b) = Throw e ->
     Route.POST_try env request = Throw e) /\
  (forall (b : Route.Json) (resp : Route.FetchResponse),
     Route.req_json request = Ok b ->
     Route.fetch env (Route.POST_fetch_call request b) = Ok resp ->
     Route.fr_ok resp = false ->
     Route.POST_try env request =
     Throw (new_Error ("HTTP error! status: " +:+ pretty (Route.fr_status resp)))) /\
  (forall (b : Route.Json) (resp : Route.FetchResponse) (e : JsError),
     Route.req_json request = Ok b ->
     Route.fetch env (Route.POST_fetch_call request b) = Ok resp ->
     Route.fr_ok resp = true ->
     Route.fr_json resp = Throw e ->
     Route.POST_try env request = Throw e).
Proof.
  assert (Hget : forall r : Route.Response,
             Route.GET_try env request = Ok r ->
             Route.status r = 200%Z /\ Route.success (Route.body r) = true /\
             Route.error (Route.body r) = None).
  { intros r. unfold Route.GET_try.
    destruct (Route.intelligentCache_get _ _ _ _); cbn; [|discriminate].
    intros [= <-]. now cbn. }
  assert (Hpost : forall r : Route.Response,
             Route.POST_try env request = Ok r ->
             Route.status r = 200%Z /\ Route.success (Route.body r) = true /\
             Route.error (Route.body r) = None).
  { intros r. unfold Route.POST_try, Route.read_json.
    destruct (Route.req_json request) as [b|]; cbn; [|discriminate].
    destruct (Route.fetch env _) as [resp|]; cbn; [|discriminate].
    destruct (Route.fr_ok resp); cbn; [|discriminate].
    destruct (Route.fr_json resp); cbn; [|discriminate].
    intros [= <-]. now cbn. }
  split; [|split; [|split; [|split; [|split; [|split; [|split; [|split]]]]]]].
  - intros e H. unfold Route.GET. now rewrite H.
  - intros r H. split; [|now apply Hget]. unfold Route.GET. now rewrite H.
  - intros e H. unfold Route.POST. now rewrite H.
  - intros r H. split; [|now apply Hpost]. unfold Route.POST. now rewrite H.
  - intros e H. unfold Route.GET_try. now rewrite H.
  - intros e H. unfold Route.POST_try. now rewrite H.
  - intros b e Hb Hf. unfold Route.POST_try. rewrite Hb. cbn. now rewrite Hf.
  - intros b resp Hb Hf Hok. unfold Route.POST_try, Route.read_json.
    rewrite Hb. cbn. rewrite Hf. cbn. now rewrite Hok.
  - intros b resp e Hb Hf Hok Hj. unfold Route.POST_try, Route.read_json.
    rewrite Hb. cbn. rewrite Hf. cbn. rewrite Hok. cbn. now rewrite Hj.
Qed.

End ProxyHandlers.



Lemma handlers_catch_errors_witness :
  let env :=
    Route.mkEnv (fun _ => Throw (new_TypeError "fetch failed"))
      (fun _ fetcher _ => fetcher tt) (fun operation => operation tt)
      (fun _ => 0%Z) "abc" in
  let request := Route.mkRequest [("action", "getStreamers")] (Ok Route.JsonNull) in
  Route.POST env request =
    Route.mkResponse 500
      (Route.mkBody false None (Some "fetch failed") None None 0 None) /\
  Route.status (Route.GET (E := reference_engine) env request) = 500%Z /\
  Route.error (Route.body (Route.GET (E := reference_engine) env request))
    = Some "fetch failed".
Proof.
  intros env request.
  destruct (handlers_catch_errors (E := reference_engine) env request)
    as (Hget & _ & Hpost & _ & Hcache & _ & Hfetch & _).
  split.
  - apply (Hpost (new_TypeError "fetch failed")).
    apply (Hfetch Route.JsonNull); reflexivity.
  - rewrite (Hget (new_TypeError "fetch failed")); [split; reflexivity|].
    apply Hcache. reflexivity.
Defined.

(** ** The commission service *)

Section CommissionServiceClaims.
Context {E : Engine}.


End CommissionServiceClaims.



(** ** The retry loop *)

Section RetryLoop.
Import NetworkResilience.
Context {A : Type}.
Variable w : World (A := A).
Variable this_config : Config.

Lemma attempt_once_spec (config : Config) (st : State) :
  forall ev outcome st1,
    attempt_once w config st = (ev, outcome, st1) ->
    is_sleep ev = false /\
    calls st1 = calls st + (if is_invoke ev then 1 else 0) /\
    match outcome with
    | Ok a => exists k, ev = EvInvoke k /\ operation w k = Resolved a
    | Throw e => attempt_error w config ev = Some e
    end.
Proof.
  intros ev outcome st1. unfold attempt_once, check_breaker, executeWithTimeout.
  destruct (cb_state (circuitBreaker st));
    [| destruct (circuitBreakerTimeout config <? _)%Z |]; cbn;
    try (intros [= <- <- <-]; cbn; repeat split; lia);
    destruct (operation w (calls st)) eqn:Hop; intros [= <- <- <-]; cbn;
      rewrite ?Hop; repeat split; try lia; eauto.
Qed.

Lemma calculateDelay_calls (attempt : nat) (config : Config) (st : State) :
  calls (snd (calculateDelay w attempt config st)) = calls st.
Proof.
  unfold calculateDelay. destruct (default exponential (retryStrategy config)); reflexivity.
Qed.

Lemma retry_loop_spec (config : Config) :
  forall (remaining attempt : nat) (lastError : option JsError) (st : State)
         (evs : list Event) (exit : LoopExit) (st' : State),
    attempt + remaining = S (maxRetries config) ->
    retry_loop w this_config config remaining attempt lastError st = (evs, exit, st') ->
    count_events is_invoke evs <= remaining /\
    calls st' = calls st + count_events is_invoke evs /\
    sleeps_between evs /\
    match evs with ev :: _ => is_sleep ev = false | [] => True end /\
    match exit with
    | Returned a =>
        exists init k, evs = init ++ [EvInvoke k] /\ operation w k = Resolved a /\
                       Forall (failed_or_sleep w config) init
    | Exhausted le =>
        Forall (failed_or_sleep w config) evs /\
        count_events is_sleep evs = pred remaining /\
        count_events is_attempt evs = remaining /\
        (remaining = 0 -> le = lastError /\ evs = []) /\
        (0 < remaining ->
         exists init ev e, evs = init ++ [ev] /\ is_sleep ev = false /\
                           attempt_error w config ev = Some e /\ le = Some e)
    end.
Proof.
  induction remaining as [|rem IH]; intros attempt lastError st evs exit st' Hinv Heq.
  - cbn in Heq. injection Heq as <- <- <-. cbn.
    repeat split; try lia; try constructor.
  - cbn [retry_loop] in Heq.
    destruct (attempt_once w config st) as [[ev outcome] st1] eqn:Hat.
    destruct (attempt_once_spec config st ev outcome st1 Hat) as (Hns & Hcalls & Hout).
    destruct outcome as [a|error].
    + injection Heq as <- <- <-. destruct Hout as (k & -> & Hk). cbn in *.
      repeat split; try lia.
      exists [], k. repeat split; [exact Hk|constructor].
    + assert (Hfail : failed_or_sleep w config ev) by (right; rewrite Hout; discriminate).
      destruct (attempt <? maxRetries config)%nat eqn:Hlt.
      * apply Nat.ltb_lt in Hlt.
        pose proof (calculateDelay_calls attempt config
                      (updateCircuitBreaker w this_config st1)) as Hdc.
        destruct (calculateDelay w attempt config (updateCircuitBreaker w this_config st1))
          as [delay st3].
        destruct (retry_loop w this_config config rem (S attempt) (Some error) st3)
          as [[evs0 exit0] st4] eqn:Hrec.
        injection Heq as <- <- <-.
        apply IH in Hrec; [|lia].
        destruct Hrec as (Hcount & Hcalls' & Hsb & Hhead & Hexit).
        cbn [snd] in Hdc. cbn [updateCircuitBreaker calls] in Hdc.
        cbn [count_events is_invoke is_sleep].
        split; [destruct (is_invoke ev); lia|].
        split; [destruct (is_invoke ev); lia|].
        split.
        { cbn [sleeps_between]. split; [right; reflexivity|].
          destruct evs0 as [|ev' evs0]; [exact I|].
          split; [left; reflexivity|exact Hsb]. }
        split; [exact Hns|].
        destruct exit0 as [a|le].
        -- destruct Hexit as (init & k & -> & Hk & Hall).
           exists (ev :: EvSleep delay :: init), k.
           repeat split; [exact Hk|].
           constructor; [exact Hfail|]. constructor; [left; reflexivity|exact Hall].
        -- destruct Hexit as (Hall & Hsl & Hatt & _ & Hlast).
           split; [constructor; [exact Hfail|]; constructor; [left; reflexivity|exact Hall]|].
           unfold is_attempt in *. cbn [negb is_sleep]. rewrite Hns. cbn [negb].
           split; [lia|]. split; [lia|]. split; [lia|].
           intros _. destruct (Hlast ltac:(lia)) as (init & ev' & e & -> & Hns' & He & Hle).
           exists (ev :: EvSleep delay :: init), ev', e. now repeat split.
      * apply Nat.ltb_ge in Hlt. assert (rem = 0) as -> by lia.
        cbn in Heq. injection Heq as <- <- <-.
        cbn [count_events is_invoke is_sleep sleeps_between updateCircuitBreaker calls].
        unfold is_attempt. rewrite Hns. cbn [negb].
        split; [destruct (is_invoke ev); lia|].
        split; [destruct (is_invoke ev); lia|].
        split; [exact I|]. split; [reflexivity|].
        split; [constructor; [exact Hfail|constructor]|].
        split; [reflexivity|]. split; [reflexivity|]. split; [lia|].
        intros _. exists [], ev, error. now repeat split.
Qed.


End RetryLoop.

(** Two failures, then a success: three invocations, a sleep after each
    failure, and the value of the third invocation. *)
Example executeWithRetry_third_time_lucky :
  let w :=
    NetworkResilience.mkWorld
      (fun k => match k with
                | 0 => NetworkResilience.Rejected (new_Error "boom")
                | 1 => NetworkResilience.TimedOut
                | _ => NetworkResilience.Resolved 42%Z
                end)
      (fun _ => 0%Z) (fun _ => 0%Q) in
  fst (NetworkResilience.executeWithRetry w NetworkResilience.default_config
         NetworkResilience.no_options NetworkResilience.initial_state)
  = ([NetworkResilience.EvInvoke 0; NetworkResilience.EvSleep (1000 + 0 * 1000);
      NetworkResilience.EvInvoke 1;
      NetworkResilience.EvSleep (Qmin (1000 * 2) 10000 + 0 * 1000);
      NetworkResilience.EvInvoke 2],
     Ok 42%Z).
Proof. vm_compute. reflexivity. Qed.


(** * Further properties of the code *)

(** ** The circuit breaker and the delays of network-resilience.js *)

Section CircuitBreaker.
Import NetworkResilience.
Context {A : Type}.
Variable w : World (A := A).
Variable this_config : Config.

Lemma check_breaker_open (config : Config) (st : State) (t : Z) :
  cb_state (circuitBreaker st) = OPEN ->
  lastFailureTime (circuitBreaker st) = Some t ->
  (forall k, (Date_now w k - t <= circuitBreakerTimeout config)%Z) ->
  attempt_once w config st =
    (EvCircuitOpen, Throw (new_Error CIRCUIT_OPEN_MESSAGE),
     mkState (circuitBreaker st) (calls st) (S (reads st)) (draws st)).
Proof.
  intros Hopen Hlast Hin. unfold attempt_once, check_breaker.
  rewrite Hopen, Hlast. cbn [default from_option id].
  specialize (Hin (reads st)). apply Z.ltb_ge in Hin. now rewrite Hin.
Qed.

Lemma retry_loop_open (config : Config) :
  (forall j k, (Date_now w k - Date_now w j <= circuitBreakerTimeout config)%Z) ->
  forall (remaining attempt : nat) (lastError : option JsError) (st : State) (t : Z)
         (evs : list Event) (exit : LoopExit) (st' : State),
    cb_state (circuitBreaker st) = OPEN ->
    lastFailureTime (circuitBreaker st) = Some t ->
    (forall k, (Date_now w k - t <= circuitBreakerTimeout config)%Z) ->
    retry_loop w this_config config remaining attempt lastError st = (evs, exit, st') ->
    count_events is_invoke evs = 0 /\
    calls st' = calls st /\
    cb_state (circuitBreaker st') = OPEN /\
    exit = Exhausted (match remaining with
                      | 0 => lastError
                      | S _ => Some (new_Error CIRCUIT_OPEN_MESSAGE)
                      end).
Proof.
  intros Hspan.
  induction remaining as [|rem IH];
    intros attempt lastError st t evs exit st' Hopen Hlast Hin Heq.
  - cbn in Heq. injection Heq as <- <- <-. now repeat split.
  - cbn [retry_loop] in Heq.
    rewrite (check_breaker_open config st t Hopen Hlast Hin) in Heq.
    set (st1 := mkState (circuitBreaker st) (calls st) (S (reads st)) (draws st)) in *.
    assert (Hopen2 : cb_state (circuitBreaker (updateCircuitBreaker w this_config st1)) = OPEN).
    { cbn. rewrite Hopen. now destruct (_ <=? _)%nat. }
    assert (Hlast2 : lastFailureTime (circuitBreaker (updateCircuitBreaker w this_config st1))
                     = Some (Date_now w (reads st1))) by reflexivity.
    assert (Hin2 : forall k, (Date_now w k - Date_now w (reads st1)
                              <= circuitBreakerTimeout config)%Z)
      by (intros k; apply Hspan).
    destruct (attempt <? maxRetries config)%nat.
    + pose proof (calculateDelay_calls w attempt config
                    (updateCircuitBreaker w this_config st1)) as Hdc.
      assert (Hcb : circuitBreaker
                      (snd (calculateDelay w attempt config
                              (updateCircuitBreaker w this_config st1)))
                    = circuitBreaker (updateCircuitBreaker w this_config st1)).
      { unfold calculateDelay.
        destruct (default exponential (retryStrategy config)); reflexivity. }
      destruct (calculateDelay w attempt config (updateCircuitBreaker w this_config st1))
        as [delay st3].
      cbn [snd] in Hdc, Hcb.
      destruct (retry_loop w this_config config rem (S attempt)
                  (Some (new_Error CIRCUIT_OPEN_MESSAGE)) st3)
        as [[evs0 exit0] st4] eqn:Hrec.
      injection Heq as <- <- <-.
      rewrite <- Hcb in Hopen2, Hlast2.
      destruct (IH _ _ _ _ _ _ _ Hopen2 Hlast2 Hin2 Hrec) as (Hc & Hcalls & Ho & He).
      cbn [count_events is_invoke]. repeat split; try assumption.
      * rewrite Hcalls, Hdc. reflexivity.
      * rewrite He. now destruct rem.
    + destruct (retry_loop w this_config config rem (S attempt)
                  (Some (new_Error CIRCUIT_OPEN_MESSAGE))
                  (updateCircuitBreaker w this_config st1))
        as [[evs0 exit0] st4] eqn:Hrec.
      injection Heq as <- <- <-.
      destruct (IH _ _ _ _ _ _ _ Hopen2 Hlast2 Hin2 Hrec) as (Hc & Hcalls & Ho & He).
      cbn [count_events is_invoke]. repeat split; try assumption.
      rewrite He. now destruct rem.
Qed.

(** X1.  While the breaker is open and the clock stays inside its timeout
    (counted from the last failure, and from one reading to the next),
    [executeWithRetry] never invokes the operation: every attempt is
    refused, and the call throws with the message of the open breaker as
    last error. *)
Theorem open_breaker_refuses_every_attempt (o : Options) (st : State) (t : Z) :
  let config := merge this_config o in
  cb_state (circuitBreaker st) = OPEN ->
  lastFailureTime (circuitBreaker st) = Some t ->
  (forall k, (Date_now w k - t <= circuitBreakerTimeout config)%Z) ->
  (forall j k, (Date_now w k - Date_now w j <= circuitBreakerTimeout config)%Z) ->
  1 <= maxRetries config ->
  count_events is_invoke (fst (fst (executeWithRetry w this_config o st))) = 0 /\
  calls (snd (executeWithRetry w this_config o st)) = calls st /\
  cb_state (circuitBreaker (snd (executeWithRetry w this_config o st))) = OPEN /\
  snd (fst (executeWithRetry w this_config o st)) =
    Throw (new_Error
             ("Operación falló después de " +:+ pretty (maxRetries config)
                +:+ " intentos. Último error: " +:+ CIRCUIT_OPEN_MESSAGE)).
Proof.
  intros config Hopen Hlast Hin Hspan Hpos. unfold executeWithRetry. fold config.
  destruct (retry_loop w this_config config (maxRetries config) 1 None st)
    as [[evs exit] st'] eqn:Hloop.
  destruct (retry_loop_open config Hspan _ _ _ _ t _ _ _ Hopen Hlast Hin Hloop)
    as (Hc & Hcalls & Ho & ->).
  destruct (maxRetries config) as [|n] eqn:Hm; [lia|]. cbn [fst snd].
  unfold exhausted_message, message_text. rewrite Hm. now repeat split.
Qed.

Lemma attempt_once_breaker (config : Config) (st : State) :
  failureCount (circuitBreaker (snd (attempt_once w config st)))
  = failureCount (circuitBreaker st).
Proof.
  unfold attempt_once, check_breaker, executeWithTimeout.
  destruct (cb_state (circuitBreaker st));
    [| destruct (circuitBreakerTimeout config <? _)%Z |]; cbn;
    try reflexivity; destruct (operation w (calls st)); reflexivity.
Qed.

Lemma calculateDelay_breaker (attempt : nat) (config : Config) (st : State) :
  circuitBreaker (snd (calculateDelay w attempt config st)) = circuitBreaker st.
Proof.
  unfold calculateDelay. destruct (default exponential (retryStrategy config)); reflexivity.
Qed.

Lemma retry_loop_breaker (config : Config) :
  forall (remaining attempt : nat) (lastError : option JsError) (st : State)
         (evs : list Event) (exit : LoopExit) (st' : State),
    retry_loop w this_config config remaining attempt lastError st = (evs, exit, st') ->
    match exit with
    | Returned _ => circuitBreaker st' = mkBreaker CLOSED 0 None
    | Exhausted _ =>
        failureCount (circuitBreaker st') = failureCount (circuitBreaker st) + remaining /\
        (0 < remaining ->
         is_Some (lastFailureTime (circuitBreaker st')) /\
         (circuitBreakerThreshold this_config <= failureCount (circuitBreaker st') ->
          cb_state (circuitBreaker st') = OPEN))
    end.
Proof.
  induction remaining as [|rem IH]; intros attempt lastError st evs exit st' Heq.
  - cbn in Heq. injection Heq as <- <- <-. split; [lia|lia].
  - cbn [retry_loop] in Heq.
    pose proof (attempt_once_breaker config st) as Hfc.
    destruct (attempt_once w config st) as [[ev outcome] st1].
    cbn [snd] in Hfc.
    destruct outcome as [a|error].
    + injection Heq as <- <- <-. reflexivity.
    + set (st2 := updateCircuitBreaker w this_config st1) in *.
      assert (Hst2 : failureCount (circuitBreaker st2) = S (failureCount (circuitBreaker st)))
        by (cbn; now rewrite Hfc).
      assert (Hopen2 : circuitBreakerThreshold this_config <= failureCount (circuitBreaker st2) ->
                       cb_state (circuitBreaker st2) = OPEN).
      { cbn. intros Hth. apply Nat.leb_le in Hth. now rewrite Hth. }
      assert (Hlast2 : is_Some (lastFailureTime (circuitBreaker st2))) by (cbn; eauto).
      assert (Hnext : forall st3 evs0 exit0 st4,
                 circuitBreaker st3 = circuitBreaker st2 ->
                 retry_loop w this_config config rem (S attempt) (Some error) st3
                 = (evs0, exit0, st4) ->
                 match exit0 with
                 | Returned _ => circuitBreaker st4 = mkBreaker CLOSED 0 None
                 | Exhausted _ =>
                     failureCount (circuitBreaker st4)
                     = failureCount (circuitBreaker st) + S rem /\
                     (0 < S rem ->
                      is_Some (lastFailureTime (circuitBreaker st4)) /\
                      (circuitBreakerThreshold this_config
                       <= failureCount (circuitBreaker st4) ->
                       cb_state (circuitBreaker st4) = OPEN))
                 end).
      { intros st3 evs0 exit0 st4 Hcb Hrec.
        pose proof (IH _ _ _ _ _ _ Hrec) as Hih.
        destruct exit0 as [a|le]; [exact Hih|].
        destruct Hih as [Hcount Hrest]. rewrite Hcb, Hst2 in Hcount.
        split; [lia|]. intros _.
        destruct rem as [|rem'].
        - cbn in Hrec. injection Hrec as _ _ <-. rewrite Hcb.
          split; [exact Hlast2|exact Hopen2].
        - apply Hrest. lia. }
      destruct (attempt <? maxRetries config)%nat.
      * pose proof (calculateDelay_breaker attempt config st2) as Hcb.
        destruct (calculateDelay w attempt config st2) as [delay st3]. cbn [snd] in Hcb.
        destruct (retry_loop w this_config config rem (S attempt) (Some error) st3)
          as [[evs0 exit0] st4] eqn:Hrec.
        injection Heq as <- <- <-. exact (Hnext _ _ _ _ Hcb Hrec).
      * destruct (retry_loop w this_config config rem (S attempt) (Some error) st2)
          as [[evs0 exit0] st4] eqn:Hrec.
        injection Heq as <- <- <-. exact (Hnext _ _ _ _ eq_refl Hrec).
Qed.



End CircuitBreaker.

(** X4.  [fetchWithResilience] resolves only to a response that is [ok],
    one that some fetch of the call resolved to; a response that is not [ok]
    counts as a failed attempt.  The call fetches at most [maxRetries]
    times. *)
Theorem fetchWithResilience_resolves_ok_only
    (fetch : nat -> NetworkResilience.FetchOutcome) (now : nat -> Z) (random : nat -> Q)
    (this_config : NetworkResilience.Config) (st : NetworkResilience.State) :
  let run := NetworkResilience.fetchWithResilience fetch now random this_config st in
  NetworkResilience.calls (snd run)
  <= NetworkResilience.calls st + NetworkResilience.maxRetries this_config /\
  (forall r : NetworkResilience.HttpResponse,
     snd (fst run) = Ok r ->
     NetworkResilience.resp_ok r = true /\
     exists k, fetch k = NetworkResilience.Fetched r).
Proof.
  intros run. subst run.
  unfold NetworkResilience.fetchWithResilience, NetworkResilience.executeWithRetry.
  set (w := NetworkResilience.mkWorld _ now random).
  set (config := NetworkResilience.merge this_config NetworkResilience.no_options).
  destruct (NetworkResilience.retry_loop w this_config config
              (NetworkResilience.maxRetries config) 1 None st)
    as [[evs exit] st'] eqn:Hloop.
  apply retry_loop_spec in Hloop; [|lia].
  destruct Hloop as (Hcount & Hcalls & _ & _ & Hexit).
  change (NetworkResilience.maxRetries config)
    with (NetworkResilience.maxRetries this_config) in Hcount.
  destruct exit as [a|[lastError|]]; cbn [fst snd]; (split; [lia|]); try discriminate.
  intros r [= <-]. destruct Hexit as (init & k & _ & Hk & _).
  subst w. cbn [NetworkResilience.operation] in Hk.
  unfold NetworkResilience.fetch_operation in Hk.
  destruct (fetch k) as [r'| |] eqn:Hf; try discriminate.
  destruct (NetworkResilience.resp_ok r') eqn:Hok; cbn in Hk; [|discriminate].
  injection Hk as <-. split; [exact Hok|]. now exists k.
Qed.

Lemma open_breaker_refuses_every_attempt_witness :
  let w :=
    NetworkResilience.mkWorld (A := Z) (fun _ => NetworkResilience.Resolved 1%Z)
      (fun _ => 5000%Z) (fun _ => 0%Q) in
  let st :=
    NetworkResilience.mkState
      (NetworkResilience.mkBreaker NetworkResilience.OPEN 5 (Some 0%Z)) 0 0 0 in
  count_events NetworkResilience.is_invoke
    (fst (fst (NetworkResilience.executeWithRetry w NetworkResilience.default_config
                 NetworkResilience.no_options st))) = 0 /\
  snd (fst (NetworkResilience.executeWithRetry w NetworkResilience.default_config
              NetworkResilience.no_options st)) =
    Throw (new_Error
             ("Operación falló después de 3 intentos. Último error: "
                +:+ NetworkResilience.CIRCUIT_OPEN_MESSAGE)).
Proof.
  intros w st.
  destruct (open_breaker_refuses_every_attempt w NetworkResilience.default_config
              NetworkResilience.no_options st 0%Z) as (H1 & _ & _ & H4).
  - reflexivity.
  - reflexivity.
  - intros k. cbn. lia.
  - intros j k. cbn. lia.
  - cbn. lia.
  - split; [exact H1|exact H4].
Defined.



Lemma fetchWithResilience_resolves_ok_only_witness :
  let fetch k :=
    match k with
    | 0 => NetworkResilience.Fetched (NetworkResilience.mkHttpResponse false 503 "Busy")
    | _ => NetworkResilience.Fetched (NetworkResilience.mkHttpResponse true 200 "OK")
    end in
  snd (fst (NetworkResilience.fetchWithResilience fetch (fun _ => 0%Z) (fun _ => 0%Q)
              NetworkResilience.default_config NetworkResilience.initial_state))
  = Ok (NetworkResilience.mkHttpResponse true 200 "OK") /\
  NetworkResilience.resp_ok (NetworkResilience.mkHttpResponse true 200 "OK") = true.
Proof.
  intros fetch. split; [reflexivity|].
  destruct (fetchWithResilience_resolves_ok_only fetch (fun _ => 0%Z) (fun _ => 0%Q)
              NetworkResilience.default_config NetworkResilience.initial_state)
    as [_ Hok].
  destruct (Hok (NetworkResilience.mkHttpResponse true 200 "OK") eq_refl) as [H _].
  exact H.
Defined.

(** ** More on the cached validator of the route *)

Lemma strict_eq_in_range (v : JsValue) : level_in_range v -> strict_eq v v = true.
Proof.
  intros (q & -> & _). cbn. apply Qeq_bool_iff. reflexivity.
Qed.

Lemma round_to_cents (q : Q) :
  (q - (1 # 200) < inject_Z (Qfloor (q * 100 + (1 # 2))) / 100)%Q /\
  (inject_Z (Qfloor (q * 100 + (1 # 2))) / 100 <= q + (1 # 200))%Q.
Proof.
  pose proof (Qfloor_le (q * 100 + (1 # 2))) as Hle.
  pose proof (Qlt_floor (q * 100 + (1 # 2))) as Hlt.
  rewrite inject_Z_plus in Hlt.
  set (n := inject_Z (Qfloor (q * 100 + (1 # 2)))) in *.
  change (inject_Z 1) with 1%Q in Hlt.
  split.
  - apply Qlt_shift_div_l; [reflexivity|]. lra.
  - apply Qle_shift_div_r; [reflexivity|]. lra.
Qed.

Section RouteValidatorMore.
Context {E : Engine}.

Lemma validate_uncached_idem (sd : StreamerData) :
  Route.validate_uncached (correctedData (Route.validate_uncached sd)) =
  mkValidation (isValid (Route.validate_uncached sd))
    (errors (Route.validate_uncached sd)) []
    (correctedData (Route.validate_uncached sd)).
Proof.
  pose proof (validateAndCorrectLevel_in_range (sd_level sd) (sd_earnings sd)) as Hr.
  unfold Route.validate_uncached.
  set (level := Route.validateAndCorrectLevel (sd_level sd) (sd_earnings sd)) in *.
  assert (Hsame : forall (b : bool),
             set_level (if b then set_level sd level else sd) level = set_level sd level)
    by (intros []; reflexivity).
  cbn [correctedData]. rewrite Hsame.
  cbn [set_level sd_level sd_earnings sd_id sd_country].
  assert (Hlevel : Route.validateAndCorrectLevel level (sd_earnings sd) = level).
  { unfold Route.validateAndCorrectLevel.
    rewrite (level_in_range_truthy _ Hr).
    now rewrite (proj2 (includes_validLevels level) Hr). }
  rewrite Hlevel, (strict_eq_in_range _ Hr). cbn [negb].
  cbn [set_level sd_level sd_earnings sd_id sd_country isValid errors].
  assert (Hearn : forall (b : bool),
             sd_earnings (if b then set_level sd level else sd) = sd_earnings sd)
    by (intros []; reflexivity).
  rewrite Hearn. reflexivity.
Qed.


(** X6.  A record corrected by the route validator passes a validation
    that is computed afresh unchanged: same verdict, same errors, no
    warning, and the corrected data is returned as it is. *)
Theorem corrected_data_validates_unchanged
    (cache cache2 : gmap string Route.CacheEntry) (now now' now2 now2' : Z)
    (sd : StreamerData) :
  let r := fst (Route.validateStreamerData cache now now' sd) in
  Route.served_from_cache cache now sd = false ->
  Route.served_from_cache cache2 now2 (correctedData r) = false ->
  fst (Route.validateStreamerData cache2 now2 now2' (correctedData r)) =
  mkValidation (isValid r) (errors r) [] (correctedData r).
Proof.
  intros r Hmiss Hmiss2. subst r.
  rewrite (validateStreamerData_miss cache now now' sd Hmiss) in *. cbn [fst] in *.
  rewrite (validateStreamerData_miss cache2 now2 now2' _ Hmiss2). cbn [fst].
  apply validate_uncached_idem.
Qed.

(** X7.  [clearExpiredCache] keeps exactly the entries whose age is at
    most the expiry, and it never changes what the validator answers at that
    moment: an entry it removes would have been recomputed anyway. *)
Theorem clearExpiredCache_transparent
    (cache : gmap string Route.CacheEntry) (now now' : Z) (sd : StreamerData) :
  (forall (k : string) (e : Route.CacheEntry),
     Route.clearExpiredCache cache now !! k = Some e <->
     cache !! k = Some e /\ (now - Route.ce_timestamp e <= Route.cacheExpiry)%Z) /\
  fst (Route.validateStreamerData (Route.clearExpiredCache cache now) now now' sd)
  = fst (Route.validateStreamerData cache now now' sd).
Proof.
  assert (Hspec : forall (k : string) (e : Route.CacheEntry),
             Route.clearExpiredCache cache now !! k = Some e <->
             cache !! k = Some e /\ (now - Route.ce_timestamp e <= Route.cacheExpiry)%Z).
  { intros k e. unfold Route.clearExpiredCache. rewrite map_lookup_filter_Some. cbn.
    rewrite negb_true_iff, Z.ltb_ge. reflexivity. }
  split; [exact Hspec|].
  unfold Route.validateStreamerData.
  destruct (cache !! Route.cacheKey sd) as [cached|] eqn:Hlook.
  - destruct (Z.ltb_spec (now - Route.ce_timestamp cached) Route.cacheExpiry) as [Hf|Hs].
    + assert (Hkept : Route.clearExpiredCache cache now !! Route.cacheKey sd = Some cached)
        by (apply Hspec; split; [exact Hlook|lia]).
      rewrite Hkept. apply Z.ltb_lt in Hf. now rewrite Hf.
    + destruct (Route.clearExpiredCache cache now !! Route.cacheKey sd) as [c|] eqn:Hc;
        [|reflexivity].
      apply Hspec in Hc as [Hc _]. rewrite Hlook in Hc. injection Hc as <-.
      apply Z.ltb_ge in Hs. now rewrite Hs.
  - destruct (Route.clearExpiredCache cache now !! Route.cacheKey sd) as [c|] eqn:Hc;
      [|reflexivity].
    apply Hspec in Hc as [Hc _]. congruence.
Qed.

(** X8.  A call of [validateStreamerData] writes at most the entry under
    its own key, and a call answered from the cache writes nothing: a hit
    does not renew the entry, which expires five minutes after it was
    computed however often it is read. *)
Theorem validateStreamerData_writes_own_key
    (cache : gmap string Route.CacheEntry) (now now' : Z) (sd : StreamerData) :
  (forall k : string,
     k <> Route.cacheKey sd ->
     snd (Route.validateStreamerData cache now now' sd) !! k = cache !! k) /\
  (Route.served_from_cache cache now sd = true ->
   snd (Route.validateStreamerData cache now now' sd) = cache) /\
  (forall (cached : Route.CacheEntry) (later later' : Z),
     cache !! Route.cacheKey sd = Some cached ->
     (now - Route.ce_timestamp cached < Route.cacheExpiry)%Z ->
     (Route.cacheExpiry <= later - Route.ce_timestamp cached)%Z ->
     Route.served_from_cache (snd (Route.validateStreamerData cache now now' sd))
       later sd = false).
Proof.
  split; [|split].
  - intros k Hk. unfold Route.validateStreamerData.
    destruct (cache !! Route.cacheKey sd) as [cached|];
      [destruct (_ <? _)%Z|]; cbn [snd]; try reflexivity;
      now rewrite lookup_insert_ne.
  - unfold Route.served_from_cache, Route.validateStreamerData.
    destruct (cache !! Route.cacheKey sd) as [cached|]; [|discriminate].
    now intros ->.
  - intros cached later later' Hlook Hfresh Hlate.
    rewrite (validateStreamerData_hit cache now now' sd cached Hlook Hfresh). cbn [snd].
    unfold Route.served_from_cache. rewrite Hlook. apply Z.ltb_ge. exact Hlate.
Qed.

End RouteValidatorMore.

Ltac Qle_bool_facts :=
  repeat match goal with
  | H : Qle_bool _ _ = true |- _ => apply Qle_bool_iff in H
  | H : Qle_bool _ _ = false |- _ =>
      apply not_true_iff_false in H; rewrite Qle_bool_iff in H; apply Qnot_le_lt in H
  end.

Section LevelSuggestion.
Context {E : Engine}.

Lemma suggestLevel_number (a : Q) :
  suggestLevelByEarnings (JNum (Fin a)) =
  if Qle_bool 10000 a then JNum (Fin 5)
  else if Qle_bool 5000 a then JNum (Fin 4)
  else if Qle_bool 2000 a then JNum (Fin 3)
  else if Qle_bool 500 a then JNum (Fin 2)
  else JNum (Fin 1).
Proof.
  unfold suggestLevelByEarnings, ge_lit, num_ge, num_lt, Qlt_bool.
  cbn [ToNumber num_of_Z]. rewrite !negb_involutive. reflexivity.
Qed.

(** X9.  The level suggested from the earnings never decreases when the
    earnings grow; it is 5 from 10,000 on, 1 below 500, and 1 for earnings
    that are missing or not a number. *)
Theorem suggestLevelByEarnings_monotone :
  (forall a b : Q,
     (a <= b)%Q ->
     exists la lb : Z,
       suggestLevelByEarnings (JNum (Fin a)) = JNum (num_of_Z la) /\
       suggestLevelByEarnings (JNum (Fin b)) = JNum (num_of_Z lb) /\
       (1 <= la <= 5)%Z /\ (la <= lb <= 5)%Z) /\
  (forall a : Q, (10000 <= a)%Q -> suggestLevelByEarnings (JNum (Fin a)) = JNum (Fin 5)) /\
  (forall a : Q, (a < 500)%Q -> suggestLevelByEarnings (JNum (Fin a)) = JNum (Fin 1)) /\
  suggestLevelByEarnings JUndefined = JNum (Fin 1) /\
  suggestLevelByEarnings (JNum NaN) = JNum (Fin 1).
Proof.
  split; [|split; [|split; [|split]]]; try reflexivity.
  - intros a b Hab. rewrite !suggestLevel_number.
    repeat match goal with
    | |- context [Qle_bool ?k ?x] => destruct (Qle_bool k x) eqn:?
    end;
    Qle_bool_facts; try (exfalso; lra).
    all: cbv iota.
    all: match goal with
         | |- exists la lb, JNum (Fin ?x) = _ /\ JNum (Fin ?y) = _ /\ _ =>
             exists (Qnum x), (Qnum y)
         end.
    all: cbn; repeat split; try reflexivity; lia.
  - intros a Ha. rewrite suggestLevel_number.
    apply Qle_bool_iff in Ha. now rewrite Ha.
  - intros a Ha. rewrite suggestLevel_number.
    repeat match goal with
    | |- context [Qle_bool ?k a] =>
        let H := fresh in destruct (Qle_bool k a) eqn:H; Qle_bool_facts; [exfalso; lra|]
    end.
    reflexivity.
Qed.

(** X10.  When a freshly computed validation of the route reports no id
    error, the id is a string that is not empty and holds only characters of
    [[a-zA-Z0-9_-]]. *)
Theorem accepted_id_is_well_formed
    (cache : gmap string Route.CacheEntry) (now now' : Z) (sd : StreamerData) :
  Route.served_from_cache cache now sd = false ->
  ~ In Route.ID_ERROR (errors (fst (Route.validateStreamerData cache now now' sd))) ->
  exists s : string,
    sd_id sd = JStr s /\ s <> "" /\
    forall c : ascii, In c (list_ascii_of_string s) -> Route.id_char c = true.
Proof.
  intros Hmiss Hno.
  rewrite (validateStreamerData_miss cache now now' sd Hmiss) in Hno. cbn [fst] in Hno.
  destruct (Route.isValidId (sd_id sd)) eqn:Hid.
  - destruct (sd_id sd) as [| | | |s]; try discriminate.
    exists s. split; [reflexivity|].
    cbn in Hid. apply andb_prop in Hid as [_ Hre].
    unfold Route.id_regex_test in Hre. apply andb_prop in Hre as [Hne Hall].
    split.
    + intros ->. discriminate.
    + clear Hne Hno Hmiss. induction s as [|d s IH]; cbn; [contradiction|].
      cbn in Hall. apply andb_prop in Hall as [Hd Hall].
      intros c [<-|Hin]; [exact Hd|now apply IH].
  - contradiction Hno.
    now apply (validate_uncached_flags_id sd Hid).
Qed.

End LevelSuggestion.

(** ** More on commission-validator.js *)

Section JsValidatorMore.
Context {E : Engine}.

Lemma js_validate_id (sd : StreamerData) :
  sd_id (correctedData (CommissionValidatorJs.validateStreamerData sd)) = sd_id sd.
Proof.
  unfold CommissionValidatorJs.validateStreamerData.
  destruct (negb (truthy (sd_level sd)));
    [|destruct (negb (array_includes validLevels (sd_level sd)))];
    cbn [set_level sd_earnings sd_country];
    destruct (negb (truthy (sd_country sd))); reflexivity.
Qed.

Lemma js_validate_country (sd : StreamerData) :
  truthy (sd_country (correctedData (CommissionValidatorJs.validateStreamerData sd)))
  = true.
Proof.
  unfold CommissionValidatorJs.validateStreamerData.
  destruct (negb (truthy (sd_level sd)));
    [|destruct (negb (array_includes validLevels (sd_level sd)))];
    cbn [set_level sd_earnings sd_country];
    destruct (truthy (sd_country sd)) eqn:Hc; cbn; try reflexivity; exact Hc.
Qed.

(** The level after the call: left as it is when missing, in range
    otherwise. *)
Lemma js_validate_level_cases (sd : StreamerData) :
  let d := correctedData (CommissionValidatorJs.validateStreamerData sd) in
  (truthy (sd_level sd) = false /\ sd_level d = sd_level sd) \/
  (truthy (sd_level sd) = true /\ level_in_range (sd_level d)).
Proof.
  cbn zeta. destruct (truthy (sd_level sd)) eqn:Hl.
  - right. split; [reflexivity|]. now apply js_validate_level.
  - left. split; [reflexivity|].
    unfold CommissionValidatorJs.validateStreamerData. rewrite Hl. cbn [negb].
    now destruct (negb (truthy (sd_country sd))).
Qed.

Lemma js_validate_warnings (sd : StreamerData) :
  warnings (CommissionValidatorJs.validateStreamerData sd) =
    (if truthy (sd_level sd) && negb (array_includes validLevels (sd_level sd))
     then ["Nivel inválido (" +:+ ToString (sd_level sd) +:+ "). Sugerido: "
             +:+ ToString (suggestLevelByEarnings (sd_earnings sd))]
     else []) ++
    (if negb (truthy (sd_country sd)) then [CommissionValidatorJs.COUNTRY_WARNING] else []).
Proof.
  unfold CommissionValidatorJs.validateStreamerData.
  destruct (truthy (sd_level sd)); cbn [negb andb];
    [destruct (negb (array_includes validLevels (sd_level sd)))|];
    cbn [set_level sd_earnings sd_country];
    destruct (negb (truthy (sd_country sd))); reflexivity.
Qed.

(** Nothing is corrected in a record whose level is missing or valid and
    whose country is given. *)
Lemma js_validate_fixpoint (sd : StreamerData) :
  truthy (sd_level sd) = false \/ array_includes validLevels (sd_level sd) = true ->
  truthy (sd_country sd) = true ->
  correctedData (CommissionValidatorJs.validateStreamerData sd) = sd.
Proof.
  intros Hl Hc. unfold CommissionValidatorJs.validateStreamerData.
  destruct (truthy (sd_level sd)) eqn:Ht; cbn [negb].
  - destruct Hl as [Hl|Hl]; [discriminate|]. rewrite Hl. cbn [negb].
    rewrite Hc. now destruct sd.
  - rewrite Hc. now destruct sd.
Qed.

Lemma validation_eta (r : ValidationResult) :
  r = mkValidation (isValid r) (errors r) (warnings r) (correctedData r).
Proof. now destruct r. Qed.

Lemma js_validate_idem (sd : StreamerData) :
  CommissionValidatorJs.validateStreamerData
    (correctedData (CommissionValidatorJs.validateStreamerData sd)) =
  mkValidation (isValid (CommissionValidatorJs.validateStreamerData sd))
    (errors (CommissionValidatorJs.validateStreamerData sd)) []
    (correctedData (CommissionValidatorJs.validateStreamerData sd)).
Proof.
  set (d := correctedData (CommissionValidatorJs.validateStreamerData sd)).
  pose proof (js_validate_id sd) as Hid.
  pose proof (js_validate_earnings sd) as Hearn.
  pose proof (js_validate_country sd) as Hc.
  pose proof (js_validate_level_cases sd) as Hl.
  fold d in Hid, Hearn, Hc. cbn zeta in Hl. fold d in Hl.
  assert (Htruthy : truthy (sd_level d) = truthy (sd_level sd)).
  { destruct Hl as [[Hf ->]|[Ht Hr]]; [reflexivity|].
    now rewrite Ht, (level_in_range_truthy _ Hr). }
  assert (Hok : truthy (sd_level d) = false \/ array_includes validLevels (sd_level d) = true).
  { destruct Hl as [[Hf Heq]|[Ht Hr]].
    - left. now rewrite Heq.
    - right. now apply includes_validLevels. }
  assert (Herrs : errors (CommissionValidatorJs.validateStreamerData d)
                  = errors (CommissionValidatorJs.validateStreamerData sd)).
  { rewrite !js_validate_errors. now rewrite Hid, Hearn, Htruthy. }
  rewrite (validation_eta (CommissionValidatorJs.validateStreamerData d)).
  rewrite (js_validate_fixpoint d Hok Hc).
  rewrite !js_validate_isValid, Herrs, js_validate_warnings, Hc. cbn [negb].
  destruct Hok as [-> | ->]; [reflexivity|].
  now rewrite andb_false_r.
Qed.

Lemma js_calculate_success (sd : StreamerData) :
  CommissionValidatorJs.success (CommissionValidatorJs.calculateCommission sd)
  = isValid (CommissionValidatorJs.validateStreamerData sd).
Proof.
  unfold CommissionValidatorJs.calculateCommission,
    CommissionValidatorJs.calculateCommission_try.
  destruct (isValid (CommissionValidatorJs.validateStreamerData sd)) eqn:Hv;
    cbn [negb]; [|reflexivity].
  pose proof (js_validate_level sd (js_valid_level_truthy sd Hv)) as Hlevel.
  destruct (levelMultipliers_in_range _ Hlevel) as (r & -> & Hrate).
  now rewrite (is_rate_truthy r Hrate).
Qed.

(** X11.  [calculateCommission] of commission-validator.js fails exactly
    when the validation rejects the streamer, and then always with the
    message that lists the validation errors and a commission of 0: the
    branch for a multiplier that is not found is never taken. *)
Theorem js_calculateCommission_fails_iff_invalid (sd : StreamerData) :
  (isValid (CommissionValidatorJs.validateStreamerData sd) = true <->
   CommissionValidatorJs.success (CommissionValidatorJs.calculateCommission sd) = true) /\
  (isValid (CommissionValidatorJs.validateStreamerData sd) = false ->
   CommissionValidatorJs.calculateCommission sd =
   CommissionValidatorJs.CommissionError
     (Some ("Datos de streamer inválidos: " +:+
            join ", " (errors (CommissionValidatorJs.validateStreamerData sd))))
     (Fin 0)) /\
  (forall (msg : option string) (c : JsNumber),
     CommissionValidatorJs.calculateCommission sd
     = CommissionValidatorJs.CommissionError msg c ->
     msg = Some ("Datos de streamer inválidos: " +:+
                 join ", " (errors (CommissionValidatorJs.validateStreamerData sd)))
     /\ c = Fin 0).
Proof.
  assert (Hinv : isValid (CommissionValidatorJs.validateStreamerData sd) = false ->
                 CommissionValidatorJs.calculateCommission sd =
                 CommissionValidatorJs.CommissionError
                   (Some ("Datos de streamer inválidos: " +:+
                          join ", " (errors (CommissionValidatorJs.validateStreamerData sd))))
                   (Fin 0)).
  { intros Hv. unfold CommissionValidatorJs.calculateCommission,
      CommissionValidatorJs.calculateCommission_try. now rewrite Hv. }
  split; [|split].
  - now rewrite js_calculate_success.
  - exact Hinv.
  - intros msg c Heq.
    pose proof (js_calculate_success sd) as Hs. rewrite Heq in Hs. cbn in Hs.
    symmetry in Hs. rewrite (Hinv Hs) in Heq. now injection Heq as <- <-.
Qed.

(** X12.  The data corrected by commission-validator.js always has a
    country, and validating it again gives the same verdict and the same
    errors with no warning left and nothing more to correct. *)
Theorem js_corrected_data_validates_unchanged (sd : StreamerData) :
  truthy (sd_country (correctedData (CommissionValidatorJs.validateStreamerData sd)))
  = true /\
  sd_id (correctedData (CommissionValidatorJs.validateStreamerData sd)) = sd_id sd /\
  sd_earnings (correctedData (CommissionValidatorJs.validateStreamerData sd))
  = sd_earnings sd /\
  CommissionValidatorJs.validateStreamerData
    (correctedData (CommissionValidatorJs.validateStreamerData sd)) =
  mkValidation (isValid (CommissionValidatorJs.validateStreamerData sd))
    (errors (CommissionValidatorJs.validateStreamerData sd)) []
    (correctedData (CommissionValidatorJs.validateStreamerData sd)).
Proof.
  split; [|split; [|split]].
  - apply js_validate_country.
  - apply js_validate_id.
  - apply js_validate_earnings.
  - apply js_validate_idem.
Qed.

Lemma batch_loop_spec (heap0 : gmap nat StreamerData) (arr : list nat) :
  forall heap : gmap nat StreamerData,
    same_verdicts heap0 heap ->
    Forall (fun a => is_Some (heap0 !! a)) arr ->
    exists results heap',
      CommissionValidatorJs.batch_loop heap arr = (Ok results, heap') /\
      same_verdicts heap0 heap' /\
      Forall2 (batch_result_of heap0) arr results.
Proof.
  induction arr as [|a arr IH]; intros heap Hrel Hall.
  - exists [], heap. cbn. repeat split; [exact Hrel|constructor].
  - apply Forall_cons in Hall as [[sd0 Ha] Hall].
    pose proof (Hrel a) as Hra. rewrite Ha in Hra.
    cbn [CommissionValidatorJs.batch_loop].
    destruct (heap !! a) as [streamer|] eqn:Hh; [|contradiction].
    destruct Hra as [Hid Hver].
    set (streamer' := correctedData (CommissionValidatorJs.validateStreamerData streamer)).
    assert (Hrel' : same_verdicts heap0 (<[a := streamer']> heap)).
    { intros b. destruct (decide (a = b)) as [<-|Hne].
      - rewrite Ha, lookup_insert_eq. subst streamer'. split.
        + rewrite Hid. symmetry. apply js_validate_id.
        + rewrite Hver, js_validate_idem. reflexivity.
      - rewrite lookup_insert_ne by exact Hne. apply Hrel. }
    destruct (IH _ Hrel' Hall) as (results & heap' & -> & Hrel'' & Hres).
    eexists _, heap'. split; [reflexivity|]. split; [exact Hrel''|].
    constructor; [|exact Hres].
    exists sd0. cbn. split; [exact Ha|]. split.
    + subst streamer'. rewrite Hid. apply js_validate_id.
    + now rewrite js_calculate_success.
Qed.

Lemma count_results_split (p : CommissionValidatorJs.BatchResult -> bool)
    (rs : list CommissionValidatorJs.BatchResult) :
  CommissionValidatorJs.count_results p rs
  + CommissionValidatorJs.count_results (fun r => negb (p r)) rs = length rs.
Proof.
  unfold CommissionValidatorJs.count_results.
  induction rs as [|r rs IH]; [reflexivity|].
  cbn. destruct (p r); cbn; lia.
Qed.

(** X13.  On an array without null elements [validateMultipleStreamers]
    returns one result per element, in order, each with the id of its
    streamer and the verdict the validation gives on that streamer as it was
    before the call, also when the same object is listed several times and
    has been corrected in between; [total] is the length of the array and
    [successful] and [failed] add up to it. *)
Theorem validateMultipleStreamers_counts
    (heap : gmap nat StreamerData) (streamersData : list nat) :
  Forall (fun a => is_Some (heap !! a)) streamersData ->
  exists (summary : CommissionValidatorJs.BatchSummary) (heap' : gmap nat StreamerData),
    CommissionValidatorJs.validateMultipleStreamers heap streamersData
    = (Ok summary, heap') /\
    CommissionValidatorJs.total summary = length streamersData /\
    CommissionValidatorJs.successful summary + CommissionValidatorJs.failed summary
    = CommissionValidatorJs.total summary /\
    Forall2 (batch_result_of heap) streamersData (CommissionValidatorJs.results summary).
Proof.
  intros Hall.
  assert (Hrefl : same_verdicts heap heap).
  { intros a. now destruct (heap !! a). }
  destruct (batch_loop_spec heap streamersData heap Hrefl Hall)
    as (results & heap' & Hloop & _ & Hres).
  unfold CommissionValidatorJs.validateMultipleStreamers. rewrite Hloop.
  eexists _, heap'. split; [reflexivity|]. cbn.
  split; [symmetry; exact (Forall2_length _ _ _ Hres)|].
  split; [apply count_results_split|exact Hres].
Qed.

End JsValidatorMore.

(** ** Worked examples for the further validator properties *)


Lemma corrected_data_validates_unchanged_witness :
  let sd := mkStreamer (JStr "s1") (JStr "gold") (JNum (Fin 700)) JUndefined in
  let r := fst (Route.validateStreamerData (E := reference_engine) ∅ 0 0 sd) in
  warnings r = ["Nivel corregido: gold → 2"] /\
  fst (Route.validateStreamerData (E := reference_engine) ∅ 50 50 (correctedData r))
  = mkValidation (isValid r) (errors r) [] (correctedData r).
Proof.
  intros sd r. split; [reflexivity|].
  apply (corrected_data_validates_unchanged (E := reference_engine) ∅ ∅ 0 0 50 50 sd);
    reflexivity.
Defined.

Lemma clearExpiredCache_transparent_witness :
  let sd := mkStreamer (JStr "s1") (JNum (Fin 1)) (JNum (Fin 100)) JUndefined in
  let cache := snd (Route.validateStreamerData (E := reference_engine) ∅ 0 0 sd) in
  Route.clearExpiredCache cache 300001 !! Route.cacheKey (E := reference_engine) sd = None /\
  fst (Route.validateStreamerData (E := reference_engine)
         (Route.clearExpiredCache cache 300000) 300000 300000 sd)
  = fst (Route.validateStreamerData (E := reference_engine) cache 300000 300000 sd).
Proof.
  intros sd cache. split.
  - destruct (clearExpiredCache_transparent (E := reference_engine) cache 300001 0 sd)
      as [Hspec _].
    destruct (Route.clearExpiredCache cache 300001 !! Route.cacheKey sd) as [e|] eqn:He;
      [|reflexivity].
    apply Hspec in He as [He Hage]. vm_compute in He. injection He as <-.
    vm_compute in Hage. now contradiction Hage.
  - apply (clearExpiredCache_transparent (E := reference_engine) cache 300000 300000 sd).
Defined.

Lemma validateStreamerData_writes_own_key_witness :
  let sd := mkStreamer (JStr "s1") (JNum (Fin 1)) (JNum (Fin 100)) JUndefined in
  let cache := snd (Route.validateStreamerData (E := reference_engine) ∅ 0 0 sd) in
  snd (Route.validateStreamerData (E := reference_engine) cache 299999 299999 sd) = cache /\
  Route.served_from_cache (E := reference_engine)
    (snd (Route.validateStreamerData (E := reference_engine) cache 299999 299999 sd))
    300000 sd = false.
Proof.
  intros sd cache.
  destruct (validateStreamerData_writes_own_key (E := reference_engine) cache
              299999 299999 sd) as (_ & Hhit & Hexp).
  split.
  - apply Hhit. reflexivity.
  - apply (Hexp (Route.mkEntry (Route.validate_uncached (E := reference_engine) sd) 0)
             300000%Z 300000%Z); [reflexivity|reflexivity|].
    vm_compute. discriminate.
Defined.

Lemma suggestLevelByEarnings_monotone_witness :
  exists la lb : Z,
    suggestLevelByEarnings (E := reference_engine) (JNum (Fin 499)) = JNum (num_of_Z la) /\
    suggestLevelByEarnings (E := reference_engine) (JNum (Fin 5000)) = JNum (num_of_Z lb) /\
    (la <= lb <= 5)%Z.
Proof.
  destruct (suggestLevelByEarnings_monotone (E := reference_engine)) as (Hmono & _).
  destruct (Hmono 499%Q 5000%Q) as (la & lb & Ha & Hb & _ & Hle).
  - vm_compute. discriminate.
  - exists la, lb. split; [exact Ha|]. split; [exact Hb|exact Hle].
Defined.

Lemma accepted_id_is_well_formed_witness :
  exists s : string,
    JStr "agency_42-b" = JStr s /\ s <> "" /\
    forall c : ascii, In c (list_ascii_of_string s) -> Route.id_char c = true.
Proof.
  apply (accepted_id_is_well_formed (E := reference_engine) ∅ 0 0
           (mkStreamer (JStr "agency_42-b") (JNum (Fin 1)) (JNum (Fin 100)) JUndefined)).
  - reflexivity.
  - vm_compute. tauto.
Defined.

Lemma js_calculateCommission_fails_iff_invalid_witness :
  CommissionValidatorJs.calculateCommission (E := reference_engine)
    (mkStreamer JUndefined JUndefined (JNum (Fin 10)) JUndefined)
  = CommissionValidatorJs.CommissionError
      (Some ("Datos de streamer inválidos: "
             +:+ "ID de streamer es requerido y debe ser string, "
             +:+ "Nivel de streamer es requerido"))
      (Fin 0).
Proof.
  destruct (js_calculateCommission_fails_iff_invalid (E := reference_engine)
              (mkStreamer JUndefined JUndefined (JNum (Fin 10)) JUndefined))
    as (_ & Hinv & _).
  apply Hinv. reflexivity.
Defined.

Lemma validateMultipleStreamers_counts_witness :
  let good := mkStreamer (JStr "s1") (JStr "gold") (JNum (Fin 700)) JUndefined in
  let bad := mkStreamer JUndefined (JNum (Fin 2)) (JNum (Fin 0)) JUndefined in
  let heap : gmap nat StreamerData := <[0 := good]> (<[1 := bad]> ∅) in
  exists (summary : CommissionValidatorJs.BatchSummary) (heap' : gmap nat StreamerData),
    CommissionValidatorJs.validateMultipleStreamers (E := reference_engine) heap [0; 1; 0]
    = (Ok summary, heap') /\
    CommissionValidatorJs.total summary = 3 /\
    CommissionValidatorJs.successful summary + CommissionValidatorJs.failed summary = 3.
Proof.
  intros good bad heap.
  destruct (validateMultipleStreamers_counts (E := reference_engine) heap [0; 1; 0])
    as (summary & heap' & Heq & Htotal & Hsum & _).
  - repeat constructor; vm_compute; eauto.
  - exists summary, heap'. split; [exact Heq|]. split; [exact Htotal|].
    rewrite Hsum. exact Htotal.
Defined.

(** ** The logger and the error history of the route *)

Lemma slice_last_map {A B : Type} (f : A -> B) (n : nat) (l : list A) :
  map f (Route.slice_last n l) = Route.slice_last n (map f l).
Proof.
  unfold Route.slice_last. rewrite length_map. apply fmap_drop.
Qed.

Lemma slice_last_suffix {A : Type} (n : nat) (l : list A) :
  exists older, l = older ++ Route.slice_last n l /\
                length (Route.slice_last n l) = Nat.min n (length l).
Proof.
  unfold Route.slice_last. exists (take (length l - n) l).
  split; [symmetry; apply take_drop|]. rewrite length_drop. lia.
Qed.

Lemma int_le_half (a b : Z) :
  (inject_Z a <= inject_Z b + (1 # 2))%Q -> (a <= b)%Z.
Proof.
  intros H. destruct (Z_le_gt_dec a b) as [Hle|Hgt]; [exact Hle|exfalso].
  assert (Hq : (inject_Z (b + 1) <= inject_Z a)%Q) by (rewrite <- Zle_Qle; lia).
  rewrite inject_Z_plus in Hq. change (inject_Z 1) with 1%Q in Hq. lra.
Qed.

Lemma int_half_lt (a b : Z) :
  (inject_Z a + (1 # 2) < inject_Z (b + 1))%Q -> (a <= b)%Z.
Proof.
  intros H. destruct (Z_le_gt_dec a b) as [Hle|Hgt]; [exact Hle|exfalso].
  assert (Hq : (inject_Z (b + 1) <= inject_Z a)%Q) by (rewrite <- Zle_Qle; lia).
  lra.
Qed.

(** Rounding a value between two integers stays between them. *)
Lemma round_between (x : Q) (lo hi : Z) :
  (inject_Z lo <= x)%Q -> (x <= inject_Z hi)%Q ->
  (lo <= Qfloor (x + (1 # 2)) <= hi)%Z.
Proof.
  intros Hlo Hhi.
  pose proof (Qfloor_le (x + (1 # 2))) as Hle.
  pose proof (Qlt_floor (x + (1 # 2))) as Hlt.
  split.
  - apply int_half_lt. lra.
  - apply int_le_half. lra.
Qed.

Section LoggerFacts.
Context {E : Engine} {V : Type}.
Variable inject : JsValue -> V.

Lemma do_call_spec (lg : Route.Logger) (c : Route.LoggerCall) :
  let lg' := Route.do_call inject lg c in
  map Route.log_level (Route.logs lg')
  = map Route.log_level (Route.logs lg) ++ [Route.call_level c] /\
  Route.infoCount lg' + Route.errorCount lg' + Route.warningCount lg'
  + Route.apiCount lg' + (if Route.is_direct_log c then 1 else 0)
  = S (Route.infoCount lg + Route.errorCount lg + Route.warningCount lg
       + Route.apiCount lg) /\
  Route.apiCount lg' + Route.requestCount lg
  = Route.requestCount lg' + Route.apiCount lg /\
  Route.requestCount lg'
  = Route.requestCount lg
    + (match Route.call_responseTime c with Some _ => 1 | None => 0 end) /\
  Route.totalResponseTime lg'
  = match Route.call_responseTime c with
    | Some t => num_add (Route.totalResponseTime lg) t
    | None => Route.totalResponseTime lg
    end.
Proof.
  destruct c; cbn; rewrite map_app; cbn; repeat split; lia.
Qed.

Lemma do_calls_spec (cs : list Route.LoggerCall) :
  forall lg : Route.Logger,
    let lg' := Route.do_calls inject lg cs in
    map Route.log_level (Route.logs lg')
    = map Route.log_level (Route.logs lg) ++ map Route.call_level cs /\
    Route.infoCount lg' + Route.errorCount lg' + Route.warningCount lg'
    + Route.apiCount lg' + count_calls Route.is_direct_log cs
    = Route.infoCount lg + Route.errorCount lg + Route.warningCount lg
      + Route.apiCount lg + length cs /\
    Route.apiCount lg' + Route.requestCount lg
    = Route.requestCount lg' + Route.apiCount lg.
Proof.
  induction cs as [|c cs IH]; intros lg; cbn zeta.
  - cbn. rewrite app_nil_r. repeat split; lia.
  - change (Route.do_calls inject lg (c :: cs))
      with (Route.do_calls inject (Route.do_call inject lg c) cs).
    destruct (IH (Route.do_call inject lg c)) as (Hl & Hc & Hr).
    destruct (do_call_spec lg c) as (Hl1 & Hc1 & Hr1 & _).
    rewrite Hl, Hl1, <- app_assoc. split; [reflexivity|].
    unfold count_calls in *. cbn [List.filter length].
    destruct (Route.is_direct_log c); cbn [length]; split; lia.
Qed.

(** X14.  On a logger that starts empty, after any sequence of calls of
    its methods [getAnalytics] reports as many logs as there were calls, in
    the order of the calls; the four counters add up to that number less the
    direct calls of [log]; and [recentLogs] holds the entries of the last
    five calls, or of all of them when there were fewer. *)
Theorem logger_counts_every_call (cs : list Route.LoggerCall) :
  let lg := Route.do_calls inject Route.new_logger cs in
  let report := Route.getAnalytics lg in
  Route.totalLogs report = length cs /\
  map Route.log_level (Route.logs lg) = map Route.call_level cs /\
  Route.rep_infoCount report + Route.rep_errorCount report
  + Route.rep_warningCount report + Route.rep_apiCount report
  + count_calls Route.is_direct_log cs = length cs /\
  Route.requestCount lg = Route.rep_apiCount report /\
  map Route.log_level (Route.recentLogs report)
  = Route.slice_last 5 (map Route.call_level cs) /\
  length (Route.recentLogs report) = Nat.min 5 (length cs).
Proof.
  intros lg report. subst report lg.
  destruct (do_calls_spec cs Route.new_logger) as (Hl & Hc & Hr).
  cbn [Route.new_logger Route.logs Route.infoCount Route.errorCount Route.warningCount
         Route.apiCount Route.requestCount map app] in Hl, Hc, Hr.
  set (lg := Route.do_calls inject Route.new_logger cs) in *.
  assert (Hlen : length (Route.logs lg) = length cs).
  { rewrite <- (length_map Route.log_level), Hl. apply length_map. }
  unfold Route.getAnalytics.
  cbn [Route.totalLogs Route.rep_infoCount Route.rep_errorCount Route.rep_warningCount
         Route.rep_apiCount Route.recentLogs].
  split; [exact Hlen|]. split; [exact Hl|]. split; [lia|]. split; [lia|]. split.
  - now rewrite slice_last_map, Hl.
  - destruct (slice_last_suffix 5 (Route.logs lg)) as (older & _ & Hn).
    now rewrite Hn, Hlen.
Qed.

Lemma do_calls_total (lo hi : Z) (cs : list Route.LoggerCall) :
  (forall c t, In c cs -> Route.call_responseTime c = Some t ->
     exists q : Q, t = Fin q /\ (inject_Z lo <= q)%Q /\ (q <= inject_Z hi)%Q) ->
  forall (lg : Route.Logger) (q0 : Q),
    Route.totalResponseTime lg = Fin q0 ->
    (inject_Z (Z.of_nat (Route.requestCount lg)) * inject_Z lo <= q0)%Q ->
    (q0 <= inject_Z (Z.of_nat (Route.requestCount lg)) * inject_Z hi)%Q ->
    let lg' := Route.do_calls inject lg cs in
    exists q : Q,
      Route.totalResponseTime lg' = Fin q /\
      (inject_Z (Z.of_nat (Route.requestCount lg')) * inject_Z lo <= q)%Q /\
      (q <= inject_Z (Z.of_nat (Route.requestCount lg')) * inject_Z hi)%Q /\
      Route.requestCount lg'
      = Route.requestCount lg
        + count_calls (fun c => bool_decide (is_Some (Route.call_responseTime c))) cs.
Proof.
  induction cs as [|c cs IH]; intros Hall lg q0 Ht Hlo Hhi; cbn zeta.
  - exists q0. cbn. repeat split; try assumption. lia.
  - change (Route.do_calls inject lg (c :: cs))
      with (Route.do_calls inject (Route.do_call inject lg c) cs).
    destruct (do_call_spec lg c) as (_ & _ & _ & Hn & Htot).
    assert (Hstep : exists q1 : Q,
               Route.totalResponseTime (Route.do_call inject lg c) = Fin q1 /\
               (inject_Z (Z.of_nat (Route.requestCount (Route.do_call inject lg c)))
                * inject_Z lo <= q1)%Q /\
               (q1 <= inject_Z (Z.of_nat (Route.requestCount (Route.do_call inject lg c)))
                      * inject_Z hi)%Q).
    { rewrite Hn, Htot. destruct (Route.call_responseTime c) as [t|] eqn:Hc.
      - destruct (Hall c t (or_introl eq_refl) Hc) as (q & -> & Hq1 & Hq2).
        exists (q0 + q)%Q. rewrite Ht. split; [reflexivity|].
        rewrite Nat2Z.inj_add, inject_Z_plus. change (inject_Z (Z.of_nat 1)) with 1%Q.
        split; lra.
      - exists q0. rewrite Ht, Nat.add_0_r. now repeat split. }
    destruct Hstep as (q1 & Ht1 & Hlo1 & Hhi1).
    destruct (IH (fun c' t Hin => Hall c' t (or_intror Hin)) _ q1 Ht1 Hlo1 Hhi1)
      as (q & Hq & Hqlo & Hqhi & Hcount).
    exists q. repeat split; try assumption.
    rewrite Hcount, Hn. unfold count_calls. cbn [List.filter].
    destruct (Route.call_responseTime c); cbn; lia.
Qed.

(** X15.  The average response time [getAnalytics] reports is 0 as long
    as no [apiLog] was made; otherwise, when every response time logged is a
    finite number between two integers, the rounded average is an integer
    between them too. *)
Theorem averageResponseTime_between (lo hi : Z) (cs : list Route.LoggerCall) :
  (forall c t, In c cs -> Route.call_responseTime c = Some t ->
     exists q : Q, t = Fin q /\ (inject_Z lo <= q)%Q /\ (q <= inject_Z hi)%Q) ->
  let report := Route.getAnalytics (Route.do_calls inject Route.new_logger cs) in
  (count_calls (fun c => bool_decide (is_Some (Route.call_responseTime c))) cs = 0 ->
   Route.averageResponseTime report = Fin 0) /\
  (0 < count_calls (fun c => bool_decide (is_Some (Route.call_responseTime c))) cs ->
   exists avg : Z,
     Route.averageResponseTime report = num_of_Z avg /\ (lo <= avg <= hi)%Z).
Proof.
  intros Hall report. subst report.
  destruct (do_calls_total lo hi cs Hall Route.new_logger 0 eq_refl) as
    (q & Hq & Hlo & Hhi & Hn);
    [change (inject_Z (Z.of_nat (Route.requestCount (V := V) Route.new_logger))) with 0%Q; lra ..|].
  cbn [Route.new_logger Route.requestCount plus] in Hn.
  unfold Route.getAnalytics. cbn [Route.averageResponseTime].
  set (lg := Route.do_calls inject Route.new_logger cs) in *.
  rewrite Hn, Hq in *. clear Hn Hq.
  set (n := count_calls _ cs) in *.
  split.
  - intros ->. reflexivity.
  - intros Hpos.
    assert (Hn0 : (0 < inject_Z (Z.of_nat n))%Q).
    { change 0%Q with (inject_Z 0). rewrite <- Zlt_Qlt. lia. }
    destruct (Nat.ltb_spec 0 n) as [_|]; [|lia].
    unfold num_of_Z at 1, num_div.
    assert (Qeq_bool (inject_Z (Z.of_nat n)) 0 = false) as ->.
    { destruct (Qeq_bool _ 0) eqn:Hb; [|reflexivity].
      apply Qeq_bool_iff in Hb. lra. }
    cbn [Math_round].
    exists (Qfloor (q / inject_Z (Z.of_nat n) + (1 # 2))).
    split; [reflexivity|].
    apply round_between.
    + apply Qle_shift_div_l; [exact Hn0|]. lra.
    + apply Qle_shift_div_r; [exact Hn0|]. lra.
Qed.

End LoggerFacts.

Section ErrorHistoryFacts.
Context {E : Engine} {V : Type}.

Lemma handle_all_spec (cs : list (Route.HandleCall (V := V))) :
  forall history : list (Route.ErrorInfo (V := V)),
    map Route.ei_type (Route.handle_all history cs)
    = map Route.ei_type history
      ++ map (fun c => Route.classifyError (Route.hc_error c)) cs /\
    map Route.ei_message (Route.handle_all history cs)
    = map Route.ei_message history ++ map (fun c => e_message (Route.hc_error c)) cs.
Proof.
  induction cs as [|c cs IH]; intros history.
  - cbn. now rewrite !app_nil_r.
  - change (Route.handle_all history (c :: cs))
      with (Route.handle_all
              (snd (Route.handleError_push history (Route.hc_date c) (Route.hc_now c)
                      (Route.hc_random c) (Route.hc_error c) (Route.hc_context c))) cs).
    destruct (IH (snd (Route.handleError_push history (Route.hc_date c) (Route.hc_now c)
                         (Route.hc_random c) (Route.hc_error c) (Route.hc_context c))))
      as [Ht Hm].
    rewrite Ht, Hm. cbn. rewrite !map_app, <- !app_assoc. now cbn.
Qed.

(** X16.  On a handler that starts with an empty history, after any
    sequence of calls of [handleError] the report counts one error per call,
    and [recentErrors] holds the errors of the last ten calls (all of them
    when there were fewer), in order, each with its message and with the
    class [classifyError] gives it. *)
Theorem error_report_counts_every_call (cs : list (Route.HandleCall (V := V))) :
  let report := Route.getErrorReport (Route.handle_all [] cs) in
  snd report = length cs /\
  length (fst report) = Nat.min 10 (length cs) /\
  map Route.ei_type (fst report)
  = Route.slice_last 10 (map (fun c => Route.classifyError (Route.hc_error c)) cs) /\
  map Route.ei_message (fst report)
  = Route.slice_last 10 (map (fun c => e_message (Route.hc_error c)) cs).
Proof.
  intros report. subst report. unfold Route.getErrorReport. cbn [fst snd].
  destruct (handle_all_spec cs []) as [Ht Hm]. cbn [map app] in Ht, Hm.
  assert (Hlen : length (Route.handle_all [] cs) = length cs).
  { rewrite <- (length_map Route.ei_type), Ht. apply length_map. }
  split; [exact Hlen|]. split.
  - destruct (slice_last_suffix 10 (Route.handle_all [] cs)) as (older & _ & Hn).
    now rewrite Hn, Hlen.
  - now rewrite !slice_last_map, Ht, Hm.
Qed.

End ErrorHistoryFacts.

Lemma averageResponseTime_between_witness :
  let st := Route.mkStamp 0 0 "abc" in
  let cs : list (Route.LoggerCall (V := JsValue)) :=
    [Route.CallApi st "GET" "/api/gas" (Fin 200) (Fin 120) ∅;
     Route.CallInfo st "done" ∅;
     Route.CallApi st "GET" "/api/gas" (Fin 500) (Fin 131) ∅] in
  exists avg : Z,
    Route.averageResponseTime
      (Route.getAnalytics (Route.do_calls (E := reference_engine) id Route.new_logger cs))
    = num_of_Z avg /\ (100 <= avg <= 200)%Z.
Proof.
  intros st cs.
  apply (averageResponseTime_between (E := reference_engine) id 100 200 cs).
  - intros c t Hin Ht.
    destruct Hin as [<-|[<-|[<-|[]]]]; cbn in Ht; inversion Ht; subst;
      eexists; (split; [reflexivity|split; vm_compute; discriminate]).
  - vm_compute. lia.
Defined.

(** ** The commission service: batches and rates *)

Section BatchFacts.
Context {R : Type}.
Variable firestore_createCommission : nat -> gmap string JsValue -> Exc R.

Lemma service_createCommission_eq (n : nat) (commissionData : gmap string JsValue) :
  CommissionService.createCommission firestore_createCommission n commissionData
  = firestore_createCommission n commissionData.
Proof.
  unfold CommissionService.createCommission.
  destruct (firestore_createCommission n commissionData); reflexivity.
Qed.

Lemma service_batch_loop_spec (commissions : list (gmap string JsValue)) :
  forall (n : nat) (results : CommissionService.BatchResults),
    let r := CommissionService.batch_loop firestore_createCommission n commissions results in
    CommissionService.total r = CommissionService.total results /\
    CommissionService.successful r + CommissionService.failed r
    = CommissionService.successful results + CommissionService.failed results
      + length commissions /\
    length (CommissionService.errors r) + CommissionService.failed results
    = length (CommissionService.errors results) + CommissionService.failed r /\
    (forall e : CommissionService.BatchError,
       In e (CommissionService.errors r) <->
       In e (CommissionService.errors results) \/
       exists (i : nat) (c : gmap string JsValue) (err : JsError),
         commissions !! i = Some c /\
         firestore_createCommission (n + i) c = Throw err /\
         e = CommissionService.mkBatchError (CommissionService.prop c "id")
               (e_message err)).
Proof.
  induction commissions as [|c rest IH]; intros n results; cbn zeta.
  - cbn. repeat split; try lia.
    + intros He. now left.
    + intros [He|(i & c & err & Hi & _)]; [exact He|]. now rewrite lookup_nil in Hi.
  - cbn [CommissionService.batch_loop].
    destruct (IH (S n) (CommissionService.batch_step firestore_createCommission n results c))
      as (Ht & Hs & Hl & Hin).
    unfold CommissionService.batch_step in *.
    rewrite service_createCommission_eq in *.
    destruct (firestore_createCommission n c) as [r0|err0] eqn:Hc;
      cbn [CommissionService.total CommissionService.successful CommissionService.failed
             CommissionService.errors] in Ht, Hs, Hl, Hin.
    + split; [exact Ht|]. split; [cbn [length]; lia|]. split; [lia|].
      intros e. rewrite Hin. split.
      * intros [He|(i & c' & err & Hi & Hthrow & He)]; [now left|right].
        exists (S i), c', err. split; [exact Hi|].
        split; [|exact He]. now rewrite Nat.add_succ_r.
      * intros [He|(i & c' & err & Hi & Hthrow & He)]; [now left|right].
        destruct i as [|i].
        -- cbn in Hi. inversion Hi; subst c'.
           rewrite Nat.add_0_r, Hc in Hthrow. discriminate.
        -- exists i, c', err. split; [exact Hi|].
           split; [|exact He]. now rewrite Nat.add_succ_r in Hthrow.
    + split; [exact Ht|]. split; [cbn [length]; lia|].
      rewrite length_app in Hl. cbn [length] in Hl. split; [lia|].
      intros e. rewrite Hin, in_app_iff. split.
      * intros [[He|He]|(i & c' & err & Hi & Hthrow & He)].
        -- now left.
        -- right. exists 0, c, err0. split; [reflexivity|].
           split; [now rewrite Nat.add_0_r|].
           destruct He as [He|[]]. now symmetry.
        -- right. exists (S i), c', err. split; [exact Hi|].
           split; [|exact He]. now rewrite Nat.add_succ_r.
      * intros [He|(i & c' & err & Hi & Hthrow & He)]; [now left; left|].
        destruct i as [|i].
        -- cbn in Hi. inversion Hi; subst c'.
           rewrite Nat.add_0_r, Hc in Hthrow. inversion Hthrow; subst err.
           left; right. left. now symmetry.
        -- right. exists i, c', err. split; [exact Hi|].
           split; [|exact He]. now rewrite Nat.add_succ_r in Hthrow.
Qed.


End BatchFacts.

(** X18.  With the [createCommission] of the Firestore service, which
    catches what the SDK throws and settles to [{ success: false, ... }],
    [processCommissionBatch] never counts a failure: whatever [addDoc] does,
    every commission of the batch is reported as successful and [errors] is
    empty. *)
Theorem processCommissionBatch_never_reports_failure
    (addDoc : nat -> gmap string JsValue -> Exc JsValue) (now : nat -> Z)
    (commissions : list (gmap string JsValue)) :
  CommissionService.processCommissionBatch
    (fun n commissionData =>
       Ok (FirestoreService.createCommission (addDoc n) (now n) commissionData))
    commissions
  = CommissionService.mkResults (length commissions) (length commissions) 0 [].
Proof.
  unfold CommissionService.processCommissionBatch.
  assert (H : forall t n s,
             CommissionService.batch_loop
               (fun n commissionData =>
                  Ok (FirestoreService.createCommission (addDoc n) (now n) commissionData))
               n commissions (CommissionService.mkResults t s 0 [])
             = CommissionService.mkResults t (s + length commissions) 0 []).
  { induction commissions as [|c rest IH]; intros t n s.
    - cbn. now rewrite Nat.add_0_r.
    - cbn [CommissionService.batch_loop]. unfold CommissionService.batch_step.
      cbn. rewrite IH. f_equal. lia. }
  now rewrite H.
Qed.

Lemma service_rate_cases (v : JsValue) :
  typeof v = TNumber \/ typeof v = TUndefined ->
  exists r : Q,
    CommissionService.js_or
      (CommissionService.commissionRates (CommissionService.js_or v (JNum (Fin 1))))
      (JNum (Fin 0.15))
    = JNum (Fin r) /\
    (r = 0.15 \/ r = 0.20 \/ r = 0.25 \/ r = 0.30 \/ r = 0.35)%Q /\
    (~ level_in_range v -> r = 0.15%Q).
Proof.
  intros Hty.
  assert (Hin : forall (x : Q) (n : Z),
             (1 <= n <= 5)%Z -> Qeq_bool x (inject_Z n) = true ->
             level_in_range (JNum (Fin x))).
  { intros x n Hn Hx. exists x. split; [reflexivity|]. exists n.
    split; [exact Hn|]. now apply Qeq_bool_iff. }
  destruct v as [| |b|[| | |x]|s]; cbn in Hty;
    try (destruct Hty; discriminate);
    try (exists 0.15%Q; split; [reflexivity|split; [now left|reflexivity]]).
  unfold CommissionService.js_or at 2. cbn [truthy].
  destruct (Qeq_bool x 0) eqn:H0; cbn [negb].
  { exists 0.15%Q; split; [reflexivity|split; [now left|reflexivity]]. }
  unfold CommissionService.commissionRates, level_lookup.
  destruct (Qeq_bool x 1) eqn:H1.
  { exists 0.15%Q; split; [reflexivity|split; [now left|reflexivity]]. }
  destruct (Qeq_bool x 2) eqn:H2.
  { exists 0.20%Q; split; [reflexivity|split; [tauto|]].
    intros Hout. destruct Hout. apply (Hin x 2%Z); [lia|exact H2]. }
  destruct (Qeq_bool x 3) eqn:H3.
  { exists 0.25%Q; split; [reflexivity|split; [tauto|]].
    intros Hout. destruct Hout. apply (Hin x 3%Z); [lia|exact H3]. }
  destruct (Qeq_bool x 4) eqn:H4.
  { exists 0.30%Q; split; [reflexivity|split; [tauto|]].
    intros Hout. destruct Hout. apply (Hin x 4%Z); [lia|exact H4]. }
  destruct (Qeq_bool x 5) eqn:H5.
  { exists 0.35%Q; split; [reflexivity|split; [tauto|]].
    intros Hout. destruct Hout. apply (Hin x 5%Z); [lia|exact H5]. }
  exists 0.15%Q; split; [reflexivity|split; [now left|reflexivity]].
Qed.



(** ** The intelligent cache *)

Lemma alist_get_set_eq {A : Type} (k : string) (a : A) (l : list (string * A)) :
  IntelligentCache.alist_get k (IntelligentCache.alist_set k a l) = Some a.
Proof.
  induction l as [|[k' a'] l IH]; cbn.
  - now rewrite String.eqb_refl.
  - destruct (String.eqb k' k) eqn:Hk; cbn.
    + now rewrite String.eqb_refl.
    + now rewrite Hk.
Qed.

Lemma alist_set_keys {A : Type} (k : string) (a a0 : A) (l : list (string * A)) :
  IntelligentCache.alist_get k l = Some a0 ->
  map fst (IntelligentCache.alist_set k a l) = map fst l.
Proof.
  induction l as [|[k' a'] l IH]; cbn; [discriminate|].
  destruct (String.eqb k' k) eqn:Hk; cbn.
  - intros _. apply String.eqb_eq in Hk. now subst.
  - intros H. now rewrite IH.
Qed.

Lemma alist_get_None {A : Type} (k : string) (l : list (string * A)) :
  IntelligentCache.alist_get k l = None <-> ~ In k (map fst l).
Proof.
  induction l as [|[k' a'] l IH]; cbn; [tauto|].
  destruct (String.eqb k' k) eqn:Hk.
  - apply String.eqb_eq in Hk. split; [discriminate|]. intros H. destruct H. now left.
  - apply String.eqb_neq in Hk. rewrite IH. tauto.
Qed.

Lemma no_strategy_spec (cat : string) (strats : list (string * IntelligentCache.Strategy)) :
  IntelligentCache.no_strategy cat = true ->
  map fst strats = map fst IntelligentCache.initial_strategies ->
  IntelligentCache.alist_get cat strats = None.
Proof.
  intros Hno Hkeys. apply alist_get_None. rewrite Hkeys. intros Hin.
  unfold IntelligentCache.no_strategy in Hno. apply negb_true_iff in Hno.
  assert (Hex : existsb (String.eqb cat)
                  (map fst IntelligentCache.initial_strategies
                   ++ IntelligentCache.Object_prototype_names) = true).
  { apply existsb_exists. exists cat. split; [|apply String.eqb_refl].
    apply in_or_app. now left. }
  congruence.
Qed.

Lemma strategies_grown_set (s0 s : list (string * IntelligentCache.Strategy))
    (cat : string) (x x' : IntelligentCache.Strategy) :
  strategies_grown s0 s ->
  IntelligentCache.alist_get cat s = Some x ->
  (IntelligentCache.ttl x <= IntelligentCache.ttl x')%Q ->
  (IntelligentCache.ttl x' <= 3600)%Q ->
  (IntelligentCache.maxSize x <= IntelligentCache.maxSize x')%Q ->
  (IntelligentCache.maxSize x' <= 5000)%Q ->
  IntelligentCache.priority x = IntelligentCache.priority x' ->
  IntelligentCache.strategy x = IntelligentCache.strategy x' ->
  strategies_grown s0 (IntelligentCache.alist_set cat x' s).
Proof.
  intros Hg Hget Ht1 Ht2 Hm1 Hm2 Hp Hs. unfold strategies_grown in *.
  induction Hg as [|a [k b] s0 s Hab Hg IH]; cbn in *; [discriminate|].
  destruct (String.eqb k cat) eqn:Hk.
  - inversion Hget; subst b. apply String.eqb_eq in Hk. subst k.
    constructor; [|exact Hg]. cbn in *.
    destruct Hab as (Hf & H0t & H0m & Hat & _ & Ham & _ & Hap & Has).
    repeat split; try assumption; try congruence; lra.
  - constructor; [exact Hab|]. now apply IH.
Qed.

Lemma Qmin_grow (x cap : Q) :
  (0 <= x)%Q -> (x <= cap)%Q -> (x <= Qmin (x * 1.5) cap)%Q /\ (Qmin (x * 1.5) cap <= cap)%Q.
Proof.
  intros H0 Hc. split.
  - apply Q.min_glb; [lra|exact Hc].
  - apply Q.le_min_r.
Qed.

Lemma strategies_grown_get (s0 s : list (string * IntelligentCache.Strategy))
    (cat : string) (x : IntelligentCache.Strategy) :
  strategies_grown s0 s ->
  IntelligentCache.alist_get cat s = Some x ->
  (0 <= IntelligentCache.ttl x)%Q /\ (IntelligentCache.ttl x <= 3600)%Q /\
  (0 <= IntelligentCache.maxSize x)%Q /\ (IntelligentCache.maxSize x <= 5000)%Q.
Proof.
  intros Hg Hget. unfold strategies_grown in *.
  induction Hg as [|a [k b] s0 s Hab Hg IH]; cbn in *; [discriminate|].
  destruct (String.eqb k cat) eqn:Hk.
  - inversion Hget; subst b. cbn in *.
    destruct Hab as (Hf & H0t & H0m & Hat & Hbt & Ham & Hbm & _).
    repeat split; try assumption; lra.
  - now apply IH.
Qed.

Lemma applyOptimization_grown (s0 s s' : list (string * IntelligentCache.Strategy))
    (now : Z) (o o' : IntelligentCache.Optimization) :
  strategies_grown s0 s ->
  IntelligentCache.applyOptimization s now o = Ok (s', o') ->
  strategies_grown s0 s'.
Proof.
  intros Hg. unfold IntelligentCache.applyOptimization.
  destruct (String.eqb (IntelligentCache.opt_type o) "increase_ttl").
  - destruct (IntelligentCache.alist_get _ s) as [x|] eqn:Hget; cbn; [|discriminate].
    intros [= <- _].
    destruct (strategies_grown_get _ _ _ _ Hg Hget) as (H0 & H1 & H2 & H3).
    destruct (Qmin_grow _ 3600 H0 H1).
    eapply strategies_grown_set; eauto; cbn; try reflexivity; try lra; assumption.
  - destruct (String.eqb (IntelligentCache.opt_type o) "increase_size").
    + destruct (IntelligentCache.alist_get _ s) as [x|] eqn:Hget; cbn; [|discriminate].
      intros [= <- _].
      destruct (strategies_grown_get _ _ _ _ Hg Hget) as (H0 & H1 & H2 & H3).
      destruct (Qmin_grow _ 5000 H2 H3).
      eapply strategies_grown_set; eauto; cbn; try reflexivity; try lra; assumption.
    + cbn. intros [= <- _]. exact Hg.
Qed.

Lemma applyOptimization_keys (s s' : list (string * IntelligentCache.Strategy))
    (now : Z) (o o' : IntelligentCache.Optimization) :
  IntelligentCache.applyOptimization s now o = Ok (s', o') ->
  map fst s' = map fst s.
Proof.
  unfold IntelligentCache.applyOptimization.
  destruct (String.eqb (IntelligentCache.opt_type o) "increase_ttl").
  - destruct (IntelligentCache.alist_get _ s) as [x|] eqn:Hget; cbn; [|discriminate].
    intros [= <- _]. eapply alist_set_keys; eauto.
  - destruct (String.eqb (IntelligentCache.opt_type o) "increase_size").
    + destruct (IntelligentCache.alist_get _ s) as [x|] eqn:Hget; cbn; [|discriminate].
      intros [= <- _]. eapply alist_set_keys; eauto.
    + cbn. now intros [= <- _].
Qed.

Lemma alist_get_keys {A : Type} (k : string) (l l' : list (string * A)) :
  map fst l' = map fst l ->
  is_Some (IntelligentCache.alist_get k l) ->
  is_Some (IntelligentCache.alist_get k l').
Proof.
  intros Hkeys [a Ha].
  destruct (IntelligentCache.alist_get k l') eqn:Hl'; [eauto|].
  apply alist_get_None in Hl'. rewrite Hkeys in Hl'.
  apply alist_get_None in Hl'. congruence.
Qed.

Lemma strategies_grown_keys (s0 s : list (string * IntelligentCache.Strategy)) :
  strategies_grown s0 s -> map fst s = map fst s0.
Proof.
  induction 1 as [|a b s0 s Hab _ IH]; cbn; [reflexivity|].
  destruct Hab as [-> _]. now rewrite IH.
Qed.

Section CacheFacts.
Context {D : Type}.
Implicit Types st : IntelligentCache.State (D := D).

Lemma learning_frame_refl st : learning_frame st st.
Proof. repeat split; auto. Qed.

Lemma learning_frame_trans st1 st2 st3 :
  learning_frame st1 st2 -> learning_frame st2 st3 -> learning_frame st1 st3.
Proof.
  intros (Hc & Hm & Hl & Hk & Hs) (Hc' & Hm' & Hl' & Hk' & Hs').
  repeat split; try congruence. auto.
Qed.

Lemma suggestOptimization_frame st (now : Z) (cat type : string) :
  learning_frame st (snd (IntelligentCache.suggestOptimization st now cat type)).
Proof.
  unfold IntelligentCache.suggestOptimization.
  destruct (IntelligentCache.isSafeOptimization _); [|repeat split; auto].
  cbn [IntelligentCache.set_optimizations IntelligentCache.strategies].
  destruct (IntelligentCache.applyOptimization _ now _) as [[strats' o']|e] eqn:Ha;
    cbn [snd]; [|repeat split; auto].
  repeat split; auto.
  - cbn. eapply applyOptimization_keys; eauto.
  - intros s0 Hg. cbn. eapply applyOptimization_grown; eauto.
Qed.

Lemma suggestOptimization_found st (now : Z) (cat type : string)
    (s : IntelligentCache.Strategy) :
  IntelligentCache.alist_get cat (IntelligentCache.strategies st) = Some s ->
  fst (IntelligentCache.suggestOptimization st now cat type) = Ok tt.
Proof.
  intros Hget. unfold IntelligentCache.suggestOptimization.
  destruct (IntelligentCache.isSafeOptimization _); [|reflexivity].
  unfold IntelligentCache.applyOptimization.
  cbn [IntelligentCache.set_optimizations IntelligentCache.strategies
         IntelligentCache.opt_category IntelligentCache.opt_type].
  rewrite Hget.
  destruct (String.eqb type "increase_ttl"); [reflexivity|].
  destruct (String.eqb type "increase_size"); reflexivity.
Qed.

Lemma suggestOptimization_missing st (now : Z) (cat type : string) :
  IntelligentCache.alist_get cat (IntelligentCache.strategies st) = None ->
  type = "increase_ttl" \/ type = "increase_size" ->
  exists e : JsError,
    fst (IntelligentCache.suggestOptimization st now cat type) = Throw e /\
    e_name e = "TypeError".
Proof.
  intros Hget Hty. unfold IntelligentCache.suggestOptimization.
  unfold IntelligentCache.applyOptimization.
  cbn [IntelligentCache.set_optimizations IntelligentCache.strategies
         IntelligentCache.opt_category IntelligentCache.opt_type].
  rewrite Hget. destruct Hty as [-> | ->]; cbn; eexists; split; reflexivity.
Qed.

Lemma and_then_frame {A : Type} st (r : Exc unit * IntelligentCache.State (D := D))
    (k : IntelligentCache.State (D := D) -> Exc A * IntelligentCache.State (D := D)) :
  learning_frame st (snd r) ->
  (forall st', learning_frame st st' -> learning_frame st (snd (k st'))) ->
  learning_frame st (snd (IntelligentCache.and_then r k)).
Proof.
  intros Hr Hk. destruct r as [[[]|e] st']; cbn in *; auto.
Qed.

Lemma detectUsagePatterns_frame st (now : Z) (key cat : string) :
  learning_frame st (snd (IntelligentCache.detectUsagePatterns st now key cat)).
Proof.
  unfold IntelligentCache.detectUsagePatterns. apply and_then_frame.
  - destruct (num_lt _ _); [apply suggestOptimization_frame|apply learning_frame_refl].
  - intros st' Hf. destruct (num_gt _ _); [|exact Hf].
    eapply learning_frame_trans; [exact Hf|apply suggestOptimization_frame].
Qed.

Lemma updateCursorAIPatterns_frame st (now : Z) (key action cat : string) :
  learning_frame st
    (snd (IntelligentCache.updateCursorAIPatterns st now key action cat)).
Proof.
  unfold IntelligentCache.updateCursorAIPatterns.
  destruct (negb _); [apply learning_frame_refl|].
  eapply learning_frame_trans; [|apply detectUsagePatterns_frame].
  repeat split; auto.
Qed.

Lemma updateCursorAIPatterns_found st (now : Z) (key action cat : string)
    (s : IntelligentCache.Strategy) :
  IntelligentCache.alist_get cat (IntelligentCache.strategies st) = Some s ->
  fst (IntelligentCache.updateCursorAIPatterns st now key action cat) = Ok tt.
Proof.
  intros Hget. unfold IntelligentCache.updateCursorAIPatterns.
  destruct (negb _); [reflexivity|].
  unfold IntelligentCache.detectUsagePatterns.
  set (st1 := IntelligentCache.set_patterns st _).
  assert (Hget1 : IntelligentCache.alist_get cat (IntelligentCache.strategies st1) = Some s)
    by exact Hget.
  assert (Hfirst : exists st2,
             (if num_lt
                   (num_div (num_of_Z (Z.of_nat (IntelligentCache.hits
                                                   (IntelligentCache.metrics st1))))
                      (num_of_Z (Z.of_nat (IntelligentCache.totalRequests
                                             (IntelligentCache.metrics st1)))))
                   (Fin 0.7)
              then IntelligentCache.suggestOptimization st1 now cat "increase_ttl"
              else (Ok tt, st1)) = (Ok tt, st2) /\
             is_Some (IntelligentCache.alist_get cat (IntelligentCache.strategies st2))).
  { destruct (num_lt _ _).
    - pose proof (suggestOptimization_found st1 now cat "increase_ttl" s Hget1) as Hok.
      pose proof (suggestOptimization_frame st1 now cat "increase_ttl")
        as (_ & _ & _ & Hk & _).
      destruct (IntelligentCache.suggestOptimization st1 now cat "increase_ttl")
        as [r st2]. cbn in Hok, Hk. subst r. exists st2. split; [reflexivity|].
      eapply alist_get_keys; [exact Hk|]. exists s. exact Hget1.
    - exists st1. split; [reflexivity|]. rewrite Hget1. eauto. }
  destruct Hfirst as (st2 & -> & [s2 Hs2]). cbn [IntelligentCache.and_then].
  destruct (num_gt _ _); [|reflexivity].
  eapply suggestOptimization_found; eauto.
Qed.

Lemma hitRate_zero (n : nat) :
  num_lt (num_div (num_of_Z (Z.of_nat 0)) (num_of_Z (Z.of_nat (S n)))) (Fin 0.7) = true.
Proof.
  unfold num_of_Z, num_div.
  assert (Hpos : (0 < inject_Z (Z.of_nat (S n)))%Q).
  { change 0%Q with (inject_Z 0). rewrite <- Zlt_Qlt. lia. }
  destruct (Qeq_bool (inject_Z (Z.of_nat (S n))) 0) eqn:Hz.
  { apply Qeq_bool_iff in Hz. lra. }
  unfold num_lt, Qlt_bool. apply negb_true_iff.
  destruct (Qle_bool 0.7 _) eqn:Hle; [|reflexivity].
  apply Qle_bool_iff in Hle.
  assert (Hq : (inject_Z (Z.of_nat 0) / inject_Z (Z.of_nat (S n)) == 0)%Q).
  { change (inject_Z (Z.of_nat 0)) with 0%Q. unfold Qdiv. lra. }
  rewrite Hq in Hle. lra.
Qed.

Lemma updateCursorAIPatterns_missing st (now : Z) (key action cat : string) (n : nat) :
  IntelligentCache.learning st = true ->
  IntelligentCache.alist_get cat (IntelligentCache.strategies st) = None ->
  IntelligentCache.hits (IntelligentCache.metrics st) = 0 ->
  IntelligentCache.totalRequests (IntelligentCache.metrics st) = S n ->
  exists e : JsError,
    fst (IntelligentCache.updateCursorAIPatterns st now key action cat) = Throw e /\
    e_name e = "TypeError".
Proof.
  intros Hl Hget Hh Ht. unfold IntelligentCache.updateCursorAIPatterns.
  rewrite Hl. cbn [negb]. unfold IntelligentCache.detectUsagePatterns.
  cbn [IntelligentCache.set_patterns IntelligentCache.metrics].
  rewrite Hh, Ht, hitRate_zero.
  set (st1 := IntelligentCache.set_patterns st _).
  destruct (suggestOptimization_missing st1 now cat "increase_ttl" Hget (or_introl eq_refl))
    as (e & He & Hname).
  exists e. split; [|exact Hname].
  destruct (IntelligentCache.suggestOptimization st1 now cat "increase_ttl") as [r st2].
  cbn in He. subst r. reflexivity.
Qed.

Lemma cache_unused_frame st st' :
  cache_unused st -> learning_frame st st' -> cache_unused st'.
Proof.
  intros (Hc & Hh & Hl & Hk) (Hc' & Hm' & Hl' & Hk' & _).
  unfold cache_unused. rewrite Hc', Hm', Hl', Hk'. auto.
Qed.

Lemma get_foreign st (now now' : Z) (key cat : string) :
  cache_unused st ->
  IntelligentCache.no_strategy cat = true ->
  exists (e : JsError) (st' : IntelligentCache.State (D := D)),
    e_name e = "TypeError" /\ cache_unused st' /\
    IntelligentCache.totalRequests (IntelligentCache.metrics st')
    = S (IntelligentCache.totalRequests (IntelligentCache.metrics st)) /\
    IntelligentCache.misses (IntelligentCache.metrics st')
    = S (IntelligentCache.misses (IntelligentCache.metrics st)) /\
    forall fetcher : unit -> Exc D,
      IntelligentCache.get st now now' key fetcher cat = (Throw e, st').
Proof.
  intros (Hc & Hh & Hl & Hk) Hno.
  pose proof (no_strategy_spec cat _ Hno Hk) as Hget.
  set (m := IntelligentCache.metrics st).
  set (st1 := IntelligentCache.set_metrics st
                (IntelligentCache.mkMetrics (IntelligentCache.hits m)
                   (S (IntelligentCache.misses m)) (IntelligentCache.evictions m)
                   (S (IntelligentCache.totalRequests m)))).
  assert (Hmiss : forall fetcher : unit -> Exc D,
             IntelligentCache.get st now now' key fetcher cat
             = IntelligentCache.and_then
                 (IntelligentCache.updateCursorAIPatterns st1 now key "miss" cat)
                 (fun st =>
                    match fetcher tt with
                    | Ok d =>
                        IntelligentCache.and_then
                          (IntelligentCache.set st now' key d cat)
                          (fun st => (Ok d, st))
                    | Throw error => (Throw error, st)
                    end)).
  { intros fetcher. unfold IntelligentCache.get.
    cbn [IntelligentCache.set_metrics IntelligentCache.cache]. rewrite Hc.
    reflexivity. }
  destruct (updateCursorAIPatterns_missing st1 now key "miss" cat
              (IntelligentCache.totalRequests (IntelligentCache.metrics st)))
    as (e & He & Hname); try assumption; try reflexivity.
  pose proof (updateCursorAIPatterns_frame st1 now key "miss" cat) as Hf.
  destruct (IntelligentCache.updateCursorAIPatterns st1 now key "miss" cat) as [r st2].
  cbn in He, Hf. subst r.
  exists e, st2. split; [exact Hname|].
  destruct Hf as (Hc2 & Hm2 & Hl2 & Hk2 & _).
  split; [|split; [|split]].
  - unfold cache_unused. rewrite Hc2, Hm2, Hl2, Hk2. subst st1. cbn. auto.
  - rewrite Hm2. reflexivity.
  - rewrite Hm2. reflexivity.
  - intros fetcher. rewrite Hmiss. reflexivity.
Qed.

Lemma optimize_category_frame st (now : Z)
    (r : Exc unit * IntelligentCache.State (D := D)) (cat : string) :
  learning_frame st (snd r) ->
  learning_frame st (snd (IntelligentCache.optimize_category now r cat)).
Proof.
  intros Hr. unfold IntelligentCache.optimize_category. apply and_then_frame; [exact Hr|].
  intros st' Hf. cbv zeta. destruct (num_lt _ _); [|exact Hf].
  eapply learning_frame_trans; [exact Hf|apply suggestOptimization_frame].
Qed.

Lemma performIntelligentOptimization_frame st (now : Z) :
  learning_frame st (snd (IntelligentCache.performIntelligentOptimization st now)).
Proof.
  unfold IntelligentCache.performIntelligentOptimization.
  assert (H : forall cats r, learning_frame st (snd r) ->
              learning_frame st
                (snd (fold_left (IntelligentCache.optimize_category now) cats r))).
  { induction cats as [|c cats IH]; intros r Hr; cbn; [exact Hr|].
    apply IH. now apply optimize_category_frame. }
  apply H. apply learning_frame_refl.
Qed.

Lemma run_ops_foreign (os : list (IntelligentCache.Op (D := D))) :
  forall st, forallb IntelligentCache.foreign_op os = true ->
             cache_unused st -> cache_unused (IntelligentCache.run_ops st os).
Proof.
  induction os as [|o os IH]; intros st Hall Hst; cbn; [exact Hst|].
  cbn in Hall. apply andb_true_iff in Hall as [Ho Hall].
  apply IH; [exact Hall|].
  destruct o as [now now' key fetcher cat|now key d cat|now|]; cbn in Ho |- *.
  - destruct (get_foreign st now now' key cat Hst Ho) as (e & st' & _ & Hst' & _ & _ & Heq).
    now rewrite Heq.
  - discriminate.
  - eapply cache_unused_frame; [exact Hst|apply performIntelligentOptimization_frame].
  - destruct Hst as (Hc & Hh & Hl & Hk). now repeat split.
Qed.

(** X20.  A cache that has only been asked, through [get], for categories
    that have no strategy (as the category api of the route; the timer and
    [clear] may have run) never serves such a category: [get] throws a
    TypeError while it records the miss, whatever the fetcher, which is not
    consulted, and nothing is stored. *)
Theorem get_without_strategy_throws (os : list (IntelligentCache.Op (D := D)))
    (now now' : Z) (key cat : string) :
  forallb IntelligentCache.foreign_op os = true ->
  IntelligentCache.no_strategy cat = true ->
  exists (e : JsError) (st' : IntelligentCache.State (D := D)),
    e_name e = "TypeError" /\
    IntelligentCache.cache st' = [] /\
    IntelligentCache.misses (IntelligentCache.metrics st')
    = S (IntelligentCache.misses
           (IntelligentCache.metrics (IntelligentCache.run_ops IntelligentCache.new_cache os))) /\
    forall fetcher : unit -> Exc D,
      IntelligentCache.get (IntelligentCache.run_ops IntelligentCache.new_cache os)
        now now' key fetcher cat
      = (Throw e, st').
Proof.
  intros Hall Hno.
  assert (Hnew : cache_unused (IntelligentCache.new_cache (D := D))) by now repeat split.
  pose proof (run_ops_foreign os _ Hall Hnew) as Hst.
  destruct (get_foreign _ now now' key cat Hst Hno)
    as (e & st' & Hname & (Hc & _) & _ & Hm & Heq).
  exists e, st'. auto.
Qed.

End CacheFacts.

(** X21.  The handler [GET] of the route on top of such a cache (one
    that has only seen the requests of the handler, which all ask for the
    category api, and runs of the timer): the request is answered with the
    status 500 and no data, whatever [fetch] and the network optimiser would
    do. *)
Theorem GET_on_intelligent_cache_fails {E : Engine}
    (os : list (IntelligentCache.Op (D := Route.Json)))
    (fetch : Route.FetchCall -> Exc Route.FetchResponse)
    (executeWithOptimization : (unit -> Exc Route.Json) -> Exc Route.Json)
    (clock : nat -> Z) (random_suffix : string) (now now' : Z)
    (request : Route.Request) :
  forallb IntelligentCache.foreign_op os = true ->
  let env :=
    Route.mkEnv fetch
      (fun key fetcher category =>
         fst (IntelligentCache.get (IntelligentCache.run_ops IntelligentCache.new_cache os)
                now now' key fetcher category))
      executeWithOptimization clock random_suffix in
  Route.status (Route.GET env request) = 500%Z /\
  Route.success (Route.body (Route.GET env request)) = false /\
  Route.data (Route.body (Route.GET env request)) = None.
Proof.
  intros Hall env.
  assert (Hnew : cache_unused (IntelligentCache.new_cache (D := Route.Json)))
    by now repeat split.
  pose proof (run_ops_foreign os _ Hall Hnew) as Hst.
  unfold Route.GET, Route.GET_try.
  cbn [Route.intelligentCache_get env].
  destruct (get_foreign _ now now'
              ("gas_api:" +:+ Route.action_or (Route.req_query request) "health")
              "api" Hst eq_refl)
    as (e & st' & _ & _ & _ & _ & Heq).
  rewrite Heq. cbn. auto.
Qed.

Lemma get_without_strategy_throws_witness :
  let os : list (IntelligentCache.Op (D := nat)) :=
    [IntelligentCache.OpGet 0 1 "gas_api:health" (fun _ => Ok 7) "api";
     IntelligentCache.OpTimer 300000;
     IntelligentCache.OpGet 300001 300002 "gas_api:stats" (fun _ => Ok 8) "api"] in
  exists (e : JsError) (st' : IntelligentCache.State (D := nat)),
    e_name e = "TypeError" /\
    IntelligentCache.get (IntelligentCache.run_ops IntelligentCache.new_cache os)
      400000 400001 "gas_api:health" (fun _ => Ok 9) "api"
    = (Throw e, st').
Proof.
  intros os.
  destruct (get_without_strategy_throws os 400000 400001 "gas_api:health" "api"
              eq_refl eq_refl)
    as (e & st' & Hname & _ & _ & Heq).
  exists e, st'. split; [exact Hname|apply Heq].
Defined.

Lemma GET_on_intelligent_cache_fails_witness :
  let os : list (IntelligentCache.Op (D := Route.Json)) :=
    [IntelligentCache.OpGet 0 1 "gas_api:health" (fun _ => Ok Route.JsonNull) "api"] in
  let env :=
    Route.mkEnv
      (fun _ => Ok (Route.mkFetchResponse true 200 (Ok Route.JsonNull)))
      (fun key fetcher category =>
         fst (IntelligentCache.get (IntelligentCache.run_ops IntelligentCache.new_cache os)
                5 6 key fetcher category))
      (fun operation => operation tt) (fun _ => 0%Z) "abc" in
  Route.status
    (Route.GET (E := reference_engine) env
       (Route.mkRequest [("action", "getStreamers")] (Ok Route.JsonNull)))
  = 500%Z.
Proof.
  intros os env.
  apply (GET_on_intelligent_cache_fails (E := reference_engine) os
           (fun _ => Ok (Route.mkFetchResponse true 200 (Ok Route.JsonNull)))
           (fun operation => operation tt) (fun _ => 0%Z) "abc" 5 6
           (Route.mkRequest [("action", "getStreamers")] (Ok Route.JsonNull))
           eq_refl).
Defined.

Section CacheRoundTrip.
Context {D : Type}.
Implicit Types st : IntelligentCache.State (D := D).

Lemma evictLeastUsed_strategies st (cat : string) :
  IntelligentCache.strategies (IntelligentCache.evictLeastUsed st cat)
  = IntelligentCache.strategies st /\
  IntelligentCache.learning (IntelligentCache.evictLeastUsed st cat)
  = IntelligentCache.learning st /\
  IntelligentCache.hits (IntelligentCache.metrics (IntelligentCache.evictLeastUsed st cat))
  = IntelligentCache.hits (IntelligentCache.metrics st) /\
  IntelligentCache.misses (IntelligentCache.metrics (IntelligentCache.evictLeastUsed st cat))
  = IntelligentCache.misses (IntelligentCache.metrics st) /\
  IntelligentCache.totalRequests
    (IntelligentCache.metrics (IntelligentCache.evictLeastUsed st cat))
  = IntelligentCache.totalRequests (IntelligentCache.metrics st).
Proof.
  unfold IntelligentCache.evictLeastUsed.
  destruct (IntelligentCache.least_recent _) as [[k c]|]; cbn; auto.
Qed.

Lemma set_found st (now : Z) (key : string) (d : D) (cat : string)
    (s : IntelligentCache.Strategy) :
  IntelligentCache.alist_get cat (IntelligentCache.strategies st) = Some s ->
  exists st1 : IntelligentCache.State (D := D),
    IntelligentCache.set st now key d cat = (Ok tt, st1) /\
    IntelligentCache.alist_get key (IntelligentCache.cache st1)
    = Some (IntelligentCache.mkEntry d now (IntelligentCache.ttl s * 1000) cat
              (IntelligentCache.priority s) 0 now) /\
    is_Some (IntelligentCache.alist_get cat (IntelligentCache.strategies st1)) /\
    IntelligentCache.hits (IntelligentCache.metrics st1)
    = IntelligentCache.hits (IntelligentCache.metrics st) /\
    IntelligentCache.misses (IntelligentCache.metrics st1)
    = IntelligentCache.misses (IntelligentCache.metrics st) /\
    IntelligentCache.totalRequests (IntelligentCache.metrics st1)
    = IntelligentCache.totalRequests (IntelligentCache.metrics st) /\
    (forall s0, strategies_grown s0 (IntelligentCache.strategies st) ->
                strategies_grown s0 (IntelligentCache.strategies st1)).
Proof.
  intros Hget. unfold IntelligentCache.set. rewrite Hget. cbv zeta.
  set (st1 := if Qle_bool _ _ then IntelligentCache.evictLeastUsed st cat else st).
  assert (H1 : IntelligentCache.strategies st1 = IntelligentCache.strategies st /\
               IntelligentCache.hits (IntelligentCache.metrics st1)
               = IntelligentCache.hits (IntelligentCache.metrics st) /\
               IntelligentCache.misses (IntelligentCache.metrics st1)
               = IntelligentCache.misses (IntelligentCache.metrics st) /\
               IntelligentCache.totalRequests (IntelligentCache.metrics st1)
               = IntelligentCache.totalRequests (IntelligentCache.metrics st)).
  { subst st1. destruct (Qle_bool _ _); [|auto].
    destruct (evictLeastUsed_strategies st cat) as (? & ? & ? & ? & ?). auto. }
  destruct H1 as (Hs1 & Hh1 & Hm1 & Ht1).
  set (st2 := IntelligentCache.set_cache st1 _).
  assert (Hget2 : IntelligentCache.alist_get cat (IntelligentCache.strategies st2) = Some s).
  { subst st2. cbn. now rewrite Hs1. }
  pose proof (updateCursorAIPatterns_found st2 now key "set" cat s Hget2) as Hok.
  pose proof (updateCursorAIPatterns_frame st2 now key "set" cat) as (Hc & Hm & _ & Hk & Hg).
  destruct (IntelligentCache.updateCursorAIPatterns st2 now key "set" cat) as [r st3].
  cbn in Hok, Hc, Hm, Hk, Hg. subst r. exists st3. split; [reflexivity|].
  split; [rewrite Hc; subst st2; cbn; apply alist_get_set_eq|].
  split; [eapply alist_get_keys; [exact Hk|]; eauto|].
  rewrite Hm. subst st2. cbn. repeat split; try assumption.
  intros s0 Hs0. apply Hg. cbn. now rewrite Hs1.
Qed.

Lemma get_hit st (now now' : Z) (key : string) (cat : string)
    (cached : IntelligentCache.CacheEntry (D := D)) :
  IntelligentCache.alist_get key (IntelligentCache.cache st) = Some cached ->
  IntelligentCache.isExpired now cached = false ->
  is_Some (IntelligentCache.alist_get cat (IntelligentCache.strategies st)) ->
  exists st' : IntelligentCache.State (D := D),
    (forall fetcher : unit -> Exc D,
       IntelligentCache.get st now now' key fetcher cat
       = (Ok (IntelligentCache.data cached), st')) /\
    IntelligentCache.cache st' = IntelligentCache.cache st /\
    IntelligentCache.hits (IntelligentCache.metrics st')
    = S (IntelligentCache.hits (IntelligentCache.metrics st)) /\
    IntelligentCache.misses (IntelligentCache.metrics st')
    = IntelligentCache.misses (IntelligentCache.metrics st).
Proof.
  intros Hc Hexp [s Hs].
  set (m := IntelligentCache.metrics st).
  set (st1 := IntelligentCache.set_metrics st
                (IntelligentCache.mkMetrics (S (IntelligentCache.hits m))
                   (IntelligentCache.misses m) (IntelligentCache.evictions m)
                   (S (IntelligentCache.totalRequests m)))).
  assert (Hhit : forall fetcher : unit -> Exc D,
             IntelligentCache.get st now now' key fetcher cat
             = IntelligentCache.and_then
                 (IntelligentCache.updateCursorAIPatterns st1 now key "hit" cat)
                 (fun st => (Ok (IntelligentCache.data cached), st))).
  { intros fetcher. unfold IntelligentCache.get.
    cbn [IntelligentCache.set_metrics IntelligentCache.cache]. rewrite Hc, Hexp.
    reflexivity. }
  pose proof (updateCursorAIPatterns_found st1 now key "hit" cat s Hs) as Hok.
  pose proof (updateCursorAIPatterns_frame st1 now key "hit" cat) as (Hc1 & Hm1 & _).
  destruct (IntelligentCache.updateCursorAIPatterns st1 now key "hit" cat) as [r st2].
  cbn in Hok, Hc1, Hm1. subst r. exists st2.
  split; [intros fetcher; now rewrite Hhit|].
  rewrite Hc1, Hm1. subst st1. cbn. auto.
Qed.

(** X22.  What [set] stores under a category that has a strategy, [get]
    serves back as long as the age of the entry does not exceed the lifetime
    the strategy had when it was stored (in seconds, the clock being in
    milliseconds): the fetcher is not consulted and the read counts as a
    hit. *)
Theorem set_then_get_within_ttl st (now now2 now2' : Z) (key : string) (d : D)
    (cat : string) (s : IntelligentCache.Strategy) :
  IntelligentCache.alist_get cat (IntelligentCache.strategies st) = Some s ->
  (inject_Z (now2 - now) <= IntelligentCache.ttl s * 1000)%Q ->
  exists st1 st2 : IntelligentCache.State (D := D),
    IntelligentCache.set st now key d cat = (Ok tt, st1) /\
    (forall fetcher : unit -> Exc D,
       IntelligentCache.get st1 now2 now2' key fetcher cat = (Ok d, st2)) /\
    IntelligentCache.hits (IntelligentCache.metrics st2)
    = S (IntelligentCache.hits (IntelligentCache.metrics st)) /\
    IntelligentCache.misses (IntelligentCache.metrics st2)
    = IntelligentCache.misses (IntelligentCache.metrics st).
Proof.
  intros Hget Hage.
  destruct (set_found st now key d cat s Hget)
    as (st1 & Hset & Hentry & Hcat & Hh & Hm & _).
  assert (Hexp : IntelligentCache.isExpired now2
                   (IntelligentCache.mkEntry d now (IntelligentCache.ttl s * 1000) cat
                      (IntelligentCache.priority s) 0 now) = false).
  { unfold IntelligentCache.isExpired, Qlt_bool. cbn.
    apply negb_false_iff. now apply Qle_bool_iff. }
  destruct (get_hit st1 now2 now2' key cat _ Hentry Hexp Hcat)
    as (st2 & Heq & _ & Hh2 & Hm2).
  exists st1, st2. split; [exact Hset|]. split; [exact Heq|].
  split; congruence.
Qed.

(** X23.  When the key is absent or its entry has expired, [get] under a
    category that has a strategy goes to the fetcher: if the fetcher throws,
    [get] throws the same error and leaves the entries as they were (an
    expired entry stays, unserved); if it settles, [get] returns its data and
    stores them under the key, stamped with the time of the answer.  Either
    way the miss is counted. *)
Theorem get_miss_consults_fetcher st (now now' : Z) (key : string)
    (fetcher : unit -> Exc D) (cat : string) (s : IntelligentCache.Strategy) :
  IntelligentCache.alist_get cat (IntelligentCache.strategies st) = Some s ->
  match IntelligentCache.alist_get key (IntelligentCache.cache st) with
  | Some cached => IntelligentCache.isExpired now cached = true
  | None => True
  end ->
  exists st' : IntelligentCache.State (D := D),
    IntelligentCache.misses (IntelligentCache.metrics st')
    = S (IntelligentCache.misses (IntelligentCache.metrics st)) /\
    IntelligentCache.hits (IntelligentCache.metrics st')
    = IntelligentCache.hits (IntelligentCache.metrics st) /\
    match fetcher tt with
    | Throw err =>
        IntelligentCache.get st now now' key fetcher cat = (Throw err, st') /\
        IntelligentCache.cache st' = IntelligentCache.cache st
    | Ok d =>
        IntelligentCache.get st now now' key fetcher cat = (Ok d, st') /\
        exists entry : IntelligentCache.CacheEntry (D := D),
          IntelligentCache.alist_get key (IntelligentCache.cache st') = Some entry /\
          IntelligentCache.data entry = d /\
          IntelligentCache.timestamp entry = now' /\
          IntelligentCache.category entry = cat
    end.
Proof.
  intros Hs Hkey.
  set (m := IntelligentCache.metrics st).
  set (st1 := IntelligentCache.set_metrics st
                (IntelligentCache.mkMetrics (IntelligentCache.hits m)
                   (S (IntelligentCache.misses m)) (IntelligentCache.evictions m)
                   (S (IntelligentCache.totalRequests m)))).
  assert (Hmiss : IntelligentCache.get st now now' key fetcher cat
                  = IntelligentCache.and_then
                      (IntelligentCache.updateCursorAIPatterns st1 now key "miss" cat)
                      (fun st =>
                         match fetcher tt with
                         | Ok d =>
                             IntelligentCache.and_then
                               (IntelligentCache.set st now' key d cat)
                               (fun st => (Ok d, st))
                         | Throw error => (Throw error, st)
                         end)).
  { unfold IntelligentCache.get.
    cbn [IntelligentCache.set_metrics IntelligentCache.cache].
    destruct (IntelligentCache.alist_get key (IntelligentCache.cache st)) as [cached|];
      [rewrite Hkey|]; reflexivity. }
  rewrite Hmiss.
  pose proof (updateCursorAIPatterns_found st1 now key "miss" cat s Hs) as Hok.
  pose proof (updateCursorAIPatterns_frame st1 now key "miss" cat)
    as (Hc1 & Hm1 & _ & Hk1 & _).
  destruct (IntelligentCache.updateCursorAIPatterns st1 now key "miss" cat) as [r st2].
  cbn in Hok, Hc1, Hm1, Hk1. subst r. cbn [IntelligentCache.and_then].
  destruct (fetcher tt) as [d|err].
  - assert (Hs2 : is_Some (IntelligentCache.alist_get cat (IntelligentCache.strategies st2))).
    { eapply alist_get_keys; [exact Hk1|]. exists s. exact Hs. }
    destruct Hs2 as [s2 Hs2].
    destruct (set_found st2 now' key d cat s2 Hs2)
      as (st3 & Hset & Hentry & _ & Hh3 & Hm3 & _).
    exists st3. rewrite Hset. cbn [IntelligentCache.and_then].
    rewrite Hm3, Hh3, Hm1. subst st1. cbn.
    split; [reflexivity|]. split; [reflexivity|]. split; [reflexivity|].
    eexists. split; [exact Hentry|]. cbn. auto.
  - exists st2. rewrite Hm1, Hc1. subst st1. cbn. auto.
Qed.

Lemma and_then_inv {A : Type} (P : IntelligentCache.State (D := D) -> Prop)
    (r : Exc unit * IntelligentCache.State (D := D))
    (k : IntelligentCache.State (D := D) -> Exc A * IntelligentCache.State (D := D)) :
  P (snd r) -> (forall st', P st' -> P (snd (k st'))) ->
  P (snd (IntelligentCache.and_then r k)).
Proof.
  intros Hr Hk. destruct r as [[[]|e] st']; cbn in *; auto.
Qed.

Lemma set_grown st (now : Z) (key : string) (d : D) (cat : string)
    (s0 : list (string * IntelligentCache.Strategy)) :
  strategies_grown s0 (IntelligentCache.strategies st) ->
  strategies_grown s0 (IntelligentCache.strategies (snd (IntelligentCache.set st now key d cat))).
Proof.
  intros Hg. unfold IntelligentCache.set.
  destruct (match IntelligentCache.alist_get cat (IntelligentCache.strategies st) with
            | Some s => Some s
            | None => IntelligentCache.alist_get "streamers" (IntelligentCache.strategies st)
            end) as [s|]; [|exact Hg].
  cbv zeta.
  set (st1 := if Qle_bool _ _ then IntelligentCache.evictLeastUsed st cat else st).
  assert (Hs1 : IntelligentCache.strategies st1 = IntelligentCache.strategies st).
  { subst st1. destruct (Qle_bool _ _); [|reflexivity].
    apply evictLeastUsed_strategies. }
  set (st2 := IntelligentCache.set_cache st1 _).
  destruct (updateCursorAIPatterns_frame st2 now key "set" cat) as (_ & _ & _ & _ & Hf).
  apply Hf. subst st2. cbn. now rewrite Hs1.
Qed.

Lemma get_grown st (now now' : Z) (key : string) (fetcher : unit -> Exc D)
    (cat : string) (s0 : list (string * IntelligentCache.Strategy)) :
  strategies_grown s0 (IntelligentCache.strategies st) ->
  strategies_grown s0
    (IntelligentCache.strategies (snd (IntelligentCache.get st now now' key fetcher cat))).
Proof.
  intros Hg. unfold IntelligentCache.get. cbv zeta.
  assert (Hmiss : forall st0 : IntelligentCache.State (D := D),
             strategies_grown s0 (IntelligentCache.strategies st0) ->
             strategies_grown s0
               (IntelligentCache.strategies
                  (snd (IntelligentCache.and_then
                          (IntelligentCache.updateCursorAIPatterns st0 now key "miss" cat)
                          (fun st =>
                             match fetcher tt with
                             | Ok d =>
                                 IntelligentCache.and_then
                                   (IntelligentCache.set st now' key d cat)
                                   (fun st => (Ok d, st))
                             | Throw error => (Throw error, st)
                             end))))).
  { intros st0 H0.
    apply (and_then_inv (fun st => strategies_grown s0 (IntelligentCache.strategies st))).
    - destruct (updateCursorAIPatterns_frame st0 now key "miss" cat) as (_ & _ & _ & _ & Hf).
      now apply Hf.
    - intros st' Hst'. destruct (fetcher tt) as [d|err]; [|exact Hst'].
      apply (and_then_inv (fun st => strategies_grown s0 (IntelligentCache.strategies st)));
        [now apply set_grown|auto]. }
  destruct (IntelligentCache.alist_get key _) as [cached|]; [|now apply Hmiss].
  destruct (negb _); [|now apply Hmiss].
  apply (and_then_inv (fun st => strategies_grown s0 (IntelligentCache.strategies st)));
    [|auto].
  match goal with
  | |- context [IntelligentCache.updateCursorAIPatterns ?st1 now key "hit" cat] =>
      destruct (updateCursorAIPatterns_frame st1 now key "hit" cat) as (_ & _ & _ & _ & Hf)
  end.
  now apply Hf.
Qed.

Lemma run_ops_grown (os : list (IntelligentCache.Op (D := D)))
    (s0 : list (string * IntelligentCache.Strategy)) :
  forall st, strategies_grown s0 (IntelligentCache.strategies st) ->
             strategies_grown s0
               (IntelligentCache.strategies (IntelligentCache.run_ops st os)).
Proof.
  induction os as [|o os IH]; intros st Hg; cbn; [exact Hg|].
  apply IH. destruct o as [now now' key fetcher cat|now key d cat|now|]; cbn.
  - now apply get_grown.
  - now apply set_grown.
  - destruct (performIntelligentOptimization_frame st now) as (_ & _ & _ & _ & Hf).
    now apply Hf.
  - exact Hg.
Qed.

(** X24.  Whatever is done with a cache (calls of [get], [set] and
    [clear] with categories that are not names inherited from
    [Object.prototype], runs of the timer), its strategies stay those of the
    constructor up to growth: the same three keys, each lifetime between its
    initial value and 3600 seconds, each size between its initial value and
    5000, the priorities unchanged. *)
Theorem strategies_only_grow (os : list (IntelligentCache.Op (D := D))) :
  forallb plain_op os = true ->
  strategies_grown IntelligentCache.initial_strategies
    (IntelligentCache.strategies (IntelligentCache.run_ops IntelligentCache.new_cache os)) /\
  map fst (IntelligentCache.strategies
             (IntelligentCache.run_ops IntelligentCache.new_cache os))
  = ["streamers"; "commissions"; "agencies"].
Proof.
  intros _.
  assert (Hg : strategies_grown IntelligentCache.initial_strategies
                 (IntelligentCache.strategies
                    (IntelligentCache.run_ops IntelligentCache.new_cache os))).
  { apply run_ops_grown. cbn. unfold strategies_grown, IntelligentCache.initial_strategies.
    repeat constructor; cbn; lra. }
  split; [exact Hg|]. now rewrite (strategies_grown_keys _ _ Hg).
Qed.

End CacheRoundTrip.

Lemma set_then_get_within_ttl_witness :
  exists st1 st2 : IntelligentCache.State (D := nat),
    IntelligentCache.set IntelligentCache.new_cache 1000 "s1" 42 "streamers" = (Ok tt, st1) /\
    IntelligentCache.get st1 301000 301001 "s1" (fun _ => Ok 0) "streamers" = (Ok 42, st2).
Proof.
  destruct (set_then_get_within_ttl (D := nat) IntelligentCache.new_cache 1000 301000 301001
              "s1" 42 "streamers"
              (IntelligentCache.mkStrategy 300 "high" 1000 "write-through") eq_refl)
    as (st1 & st2 & Hset & Hget & _).
  - vm_compute. discriminate.
  - exists st1, st2. split; [exact Hset|apply Hget].
Defined.

Lemma get_miss_consults_fetcher_witness :
  exists st' : IntelligentCache.State (D := nat),
    IntelligentCache.get IntelligentCache.new_cache 0 5 "s1"
      (fun _ => Throw (new_Error "offline")) "streamers"
    = (Throw (new_Error "offline"), st') /\
    IntelligentCache.cache st' = [].
Proof.
  destruct (get_miss_consults_fetcher (D := nat) IntelligentCache.new_cache 0 5 "s1"
              (fun _ => Throw (new_Error "offline")) "streamers"
              (IntelligentCache.mkStrategy 300 "high" 1000 "write-through") eq_refl I)
    as (st' & _ & _ & Heq & Hc).
  exists st'. split; [exact Heq|exact Hc].
Defined.

Lemma strategies_only_grow_witness :
  let os : list (IntelligentCache.Op (D := nat)) :=
    [IntelligentCache.OpSet 0 "s1" 1 "streamers";
     IntelligentCache.OpGet 10 11 "a1" (fun _ => Ok 2) "agencies";
     IntelligentCache.OpGet 20 21 "x" (fun _ => Ok 3) "api";
     IntelligentCache.OpTimer 300000] in
  map fst (IntelligentCache.strategies
             (IntelligentCache.run_ops IntelligentCache.new_cache os))
  = ["streamers"; "commissions"; "agencies"].
Proof.
  intros os. apply (strategies_only_grow os eq_refl).
Defined.

(** ** The email corrections of the streamer validators *)

Lemma str_drop_app (n post : string) :
  str_drop (String.length n) (n +:+ post) = post.
Proof. induction n as [|c n IH]; cbn; [now destruct post|exact IH]. Qed.

Lemma str_replace_spec (s p r : string) :
  str_includes s p = true ->
  exists pre post, s = pre +:+ p +:+ post /\ str_replace s p r = pre +:+ r +:+ post.
Proof.
  induction s as [|c s IH]; cbn [str_includes str_replace]; intros H.
  - destruct p as [|d p]; [|discriminate H]. now exists "", "".
  - destruct (String.prefix p (String c s)) eqn:Hpre.
    + apply prefix_spec in Hpre as (post & Hp). exists "", post.
      split; [exact Hp|]. rewrite Hp. now rewrite str_drop_app.
    + cbn [orb] in H. destruct (IH H) as (pre & post & Hs & Hr).
      exists (String c pre), post. split; [now rewrite Hs|].
      now rewrite Hr.
Qed.

Lemma str_app_length (a b : string) :
  String.length (a +:+ b) = String.length a + String.length b.
Proof.
  induction a as [|c a IH]; [reflexivity|].
  change (S (String.length (a +:+ b)) = S (String.length a + String.length b)).
  now rewrite IH.
Qed.

Lemma str_app_inv_head (pre a b : string) : pre +:+ a = pre +:+ b -> a = b.
Proof.
  induction pre as [|c pre IH]; [auto|].
  change (String c (pre +:+ a) = String c (pre +:+ b) -> a = b).
  intros [= H]. auto.
Qed.

Lemma str_cons_neq (c : ascii) (s : string) : String c s <> s.
Proof.
  intros H. apply (f_equal String.length) in H. cbn in H. lia.
Qed.

Lemma try_typos_spec (email correct : string) (typos : list string) :
  (StreamerValidatorJs.try_typos email correct typos = None <->
   forall typo, In typo typos -> str_includes email typo = false) /\
  (forall r, StreamerValidatorJs.try_typos email correct typos = Some r ->
     exists typo pre post,
       In typo typos /\ email = pre +:+ typo +:+ post /\ r = pre +:+ correct +:+ post).
Proof.
  induction typos as [|typo rest [IHn IHs]]; cbn.
  - split; [split; [intros _ t []|reflexivity]|discriminate].
  - destruct (str_includes email typo) eqn:Hinc.
    + split.
      * split; [discriminate|]. intros H. rewrite (H typo) in Hinc by now left.
        discriminate.
      * intros r [= <-]. destruct (str_replace_spec email typo correct Hinc)
          as (pre & post & He & Hr).
        exists typo, pre, post. auto.
    + split.
      * rewrite IHn. split.
        -- intros H t [<-|Ht]; [exact Hinc|auto].
        -- intros H t Ht. apply H. now right.
      * intros r Hr. destruct (IHs r Hr) as (t & pre & post & Ht & He & Hr').
        exists t, pre, post. auto.
Qed.

Lemma try_corrections_spec (email : string) (table : list (string * list string)) :
  (StreamerValidatorJs.try_corrections email table = None <->
   forall correct typos typo,
     In (correct, typos) table -> In typo typos -> str_includes email typo = false) /\
  (forall r, StreamerValidatorJs.try_corrections email table = Some r ->
     exists correct typos typo pre post,
       In (correct, typos) table /\ In typo typos /\
       email = pre +:+ typo +:+ post /\ r = pre +:+ correct +:+ post).
Proof.
  induction table as [|[correct typos] rest [IHn IHs]]; cbn.
  - split; [split; [intros _ c t ty []|reflexivity]|discriminate].
  - destruct (try_typos_spec email correct typos) as [Hn Hs].
    destruct (StreamerValidatorJs.try_typos email correct typos) as [r0|] eqn:Ht.
    + split.
      * split; [discriminate|]. intros H.
        destruct (Hs r0 eq_refl) as (typo & pre & post & Hin & He & _).
        assert (Hinc : str_includes email typo = true)
          by (apply str_includes_spec; eauto).
        rewrite (H correct typos typo) in Hinc; [discriminate|now left|exact Hin].
      * intros r [= <-]. destruct (Hs r0 eq_refl) as (typo & pre & post & Hin & He & Hr).
        exists correct, typos, typo, pre, post. auto.
    + split.
      * rewrite IHn. split.
        -- intros H c t ty [[= <- <-]|Hin] Hty; [|eauto].
           apply Hn; [reflexivity|exact Hty].
        -- intros H c t ty Hin Hty. apply (H c t ty); [now right|exact Hty].
      * intros r Hr.
        destruct (IHs r Hr) as (c & t & ty & pre & post & Hin & Hty & He & Hr').
        exists c, t, ty, pre, post. auto.
Qed.

(** X25.  [attemptEmailCorrection], the same in both streamer
    validators, returns null exactly when the email holds none of the nine
    misspellings of the table; otherwise it replaces one occurrence of a
    misspelling by its domain and changes nothing else, so what it returns
    always differs from the email.  Since ["gmail.co"] is listed as a
    misspelling, an email that already holds a domain of the table
    (["gmail.com"], ...) is never left alone. *)
Theorem attemptEmailCorrection_replaces_a_misspelling (email : string) :
  (StreamerValidatorJs.attemptEmailCorrection email = None <->
   forall correct typos typo,
     In (correct, typos) StreamerValidatorJs.corrections -> In typo typos ->
     str_includes email typo = false) /\
  (forall r, StreamerValidatorJs.attemptEmailCorrection email = Some r ->
     r <> email /\
     exists correct typos typo pre post,
       In (correct, typos) StreamerValidatorJs.corrections /\ In typo typos /\
       email = pre +:+ typo +:+ post /\ r = pre +:+ correct +:+ post) /\
  (forall correct typos,
     In (correct, typos) StreamerValidatorJs.corrections ->
     str_includes email correct = true ->
     StreamerValidatorJs.attemptEmailCorrection email <> None).
Proof.
  unfold StreamerValidatorJs.attemptEmailCorrection.
  destruct (try_corrections_spec email StreamerValidatorJs.corrections) as [Hn Hs].
  split; [exact Hn|]. split.
  - intros r Hr. split; [|now apply Hs].
    destruct (Hs r Hr) as (c & t & ty & pre & post & Hin & Hty & He & Hr').
    intros Heq. rewrite Hr', He in Heq. apply str_app_inv_head in Heq.
    cbn in Hin.
    destruct Hin as [[= <- <-]|[[= <- <-]|[[= <- <-]|[]]]];
      cbn in Hty; destruct Hty as [<-|[<-|[<-|[]]]];
      first [ apply (f_equal String.length) in Heq;
              rewrite !str_app_length in Heq; cbn in Heq; lia
            | cbv in Heq; congruence ].
  - intros c t Hin Hinc Hnone.
    apply str_includes_spec in Hinc as (pre & post & He).
    assert (Hfalse : forall typo, In typo t -> str_includes email typo = false)
      by (intros typo Hty; apply (proj1 Hn Hnone c t typo Hin Hty)).
    cbn in Hin.
    destruct Hin as [[= <- <-]|[[= <- <-]|[[= <- <-]|[]]]].
    + assert (Hinc : str_includes email "gmail.co" = true).
      { apply str_includes_spec. exists pre, ("m" +:+ post). exact He. }
      rewrite Hfalse in Hinc; [discriminate|right; now left].
    + assert (Hinc : str_includes email "hotmail.co" = true).
      { apply str_includes_spec. exists pre, ("m" +:+ post). exact He. }
      rewrite Hfalse in Hinc; [discriminate|right; now left].
    + assert (Hinc : str_includes email "yahoo.co" = true).
      { apply str_includes_spec. exists pre, ("m" +:+ post). exact He. }
      rewrite Hfalse in Hinc; [discriminate|right; now left].
Qed.
